(** * SpaceScrypt: presence-verification protocol

    A shallow embedding of the TypeScript sources of the repository
    (api/src/crypto.ts, api/src/registry.ts, api/src/index.ts and the
    frontend App component) together with the properties of the protocol
    core: hex codec, canonical message, beacon registry, verification
    endpoint and client session.

    Conventions of the embedding.
    - A JavaScript string is a [string]: a sequence of code units, here
      restricted to the code units below 256.
    - A [Uint8Array] is a [list byte]; a store into it goes through
      [ToUint8], the wrap-around the typed array performs.
    - A [BigInt] is a [Z]; [>>] and [&] on BigInts are [Z.shiftr] and
      [Z.land], which agree with the two's complement semantics of
      JavaScript on negative numbers as well.
    - A function that may [throw] returns a [result]. *)

From Stdlib Require Import ZArith NArith Ascii String List Lia Bool.
From Stdlib Require Import Init.Byte DecimalString.
From stdpp Require Import base option list strings gmap fin_maps.

Import ListNotations.
#[local] Open Scope string_scope.
#[local] Open Scope Z_scope.

(** ** Exceptions *)

Module Js.

(** The values thrown by the modelled code. *)
Inductive error : Type :=
  | Error (message : string)
  | SyntaxError (message : string)
  | RangeError (message : string)
  | ZodError (paths : list string).

Inductive result (A : Type) : Type :=
  | Ok (a : A)
  | Throw (e : error).

Arguments Ok {A} a.
Arguments Throw {A} e.

Definition bind {A B} (r : result A) (k : A -> result B) : result B :=
  match r with
  | Ok a => k a
  | Throw e => Throw e
  end.

Definition is_ok {A} (r : result A) : bool :=
  match r with Ok _ => true | Throw _ => false end.

End Js.

Export Js.

Notation "'let*' x ':=' r 'in' k" := (Js.bind r (fun x => k))
  (at level 10, x name, r at level 100, k at level 200).

(** ** Characters and regular expressions used by the sources *)

Module Chars.

Definition code (c : ascii) : N := N_of_ascii c.

Definition in_range (lo hi : N) (c : ascii) : bool :=
  ((lo <=? code c) && (code c <=? hi))%N.

(** [[0-9]] *)
Definition is_digit (c : ascii) : bool := in_range 48 57 c.
(** [[a-f]] *)
Definition is_lower_af (c : ascii) : bool := in_range 97 102 c.
(** [[A-F]] *)
Definition is_upper_af (c : ascii) : bool := in_range 65 70 c.
(** [[0-9a-f]] *)
Definition is_lower_hex (c : ascii) : bool := is_digit c || is_lower_af c.
(** [[0-9a-fA-F]], which is also [[0-9a-f]] under the [i] flag *)
Definition is_hex (c : ascii) : bool :=
  is_digit c || is_lower_af c || is_upper_af c.

(** [String.prototype.toLowerCase] on one code unit below 256: the ASCII
    capitals and the Latin-1 capitals (U+00C0..U+00DE without U+00D7)
    move up by 32, every other code unit is fixed. *)
Definition lower (c : ascii) : ascii :=
  if in_range 65 90 c then ascii_of_N (code c + 32)
  else if in_range 192 222 c && negb (code c =? 215)%N
       then ascii_of_N (code c + 32)
  else c.

Fixpoint toLowerCase (s : string) : string :=
  match s with
  | EmptyString => EmptyString
  | String c r => String (lower c) (toLowerCase r)
  end.

Fixpoint all_chars (p : ascii -> bool) (s : string) : bool :=
  match s with
  | EmptyString => true
  | String c r => p c && all_chars p r
  end.

(** [/^[0-9a-f]*$/.test(s)] *)
Definition re_lower_hex_star (s : string) : bool := all_chars is_lower_hex s.

(** [/^[0-9a-f]{n}$/i.test(s)], the same language as
    [/^[0-9a-fA-F]{n}$/]. Without the [m] flag [$] is the end of the
    input. *)
Definition re_hex_n (n : nat) (s : string) : bool :=
  all_chars is_hex s && Nat.eqb (String.length s) n.

(** [/^[0-9]+$/.test(s)] *)
Definition re_digits_plus (s : string) : bool :=
  all_chars is_digit s && negb (Nat.eqb (String.length s) 0).

(** The value of a character as a digit of the given radix, if it is one. *)
Definition digit_value (radix : Z) (c : ascii) : option Z :=
  let v :=
    if is_digit c then Some (Z.of_N (code c) - 48)
    else if is_lower_af c then Some (Z.of_N (code c) - 87)
    else if is_upper_af c then Some (Z.of_N (code c) - 55)
    else None in
  match v with
  | Some d => if d <? radix then Some d else None
  | None => None
  end.

End Chars.

Export Chars.

(** ** api/src/crypto.ts *)

Module Crypto.

(** [ToUint8]: what a store into a [Uint8Array] keeps of a number;
    [None] stands for [NaN], which is stored as 0. *)
Definition u8 (z : Z) : byte :=
  match Byte.of_N (Z.to_N (z mod 256)) with
  | Some b => b
  | None => x00
  end.

Definition ToUint8 (n : option Z) : byte :=
  match n with
  | Some z => u8 z
  | None => x00
  end.

Definition byte_val (b : byte) : Z := Z.of_N (Byte.to_N b).

(** [parseInt(s, 16)] on the strings that reach it here, which hold only
    hex digits: the value of the longest prefix of hex digits, [NaN] when
    that prefix is empty. (The white space, sign and [0x] prefix that
    [parseInt] also skips cannot occur behind the test of [hexToBytes].) *)
Fixpoint parseInt16_from (acc : option Z) (s : string) : option Z :=
  match s with
  | EmptyString => acc
  | String c r =>
      match digit_value 16 c with
      | Some d =>
          parseInt16_from
            (Some (match acc with Some a => a * 16 + d | None => d end)) r
      | None => acc
      end
  end.

Definition parseInt16 (s : string) : option Z := parseInt16_from None s.

(** [s.slice(from, to)] for [0 <= from <= to]. *)
Definition slice (s : string) (from to : nat) : string :=
  substring from (to - from) s.

(** [hexToBytes]: lower-cases, tests the charset and the parity of the
    length, then fills [out[i]] from the two characters at [2i]. *)
Definition hexToBytes (h : string) : result (list byte) :=
  let hex := toLowerCase h in
  if negb (re_lower_hex_star hex) || negb (Nat.eqb (String.length hex mod 2) 0)
  then Throw (Error "invalid hex")
  else
    let out_length := (String.length hex / 2)%nat in
    Ok (map (fun i => ToUint8 (parseInt16 (slice hex (i * 2) (i * 2 + 2))))
            (seq 0 out_length)).

(** One lower-case hex digit for a value below 16. *)
Definition hex_digit (n : N) : ascii :=
  if (n <? 10)%N then ascii_of_N (48 + n) else ascii_of_N (87 + n).

(** [x.toString(16)] for an element of a [Uint8Array]. *)
Definition toString16 (x : byte) : string :=
  let n := Byte.to_N x in
  if (n <? 16)%N then String (hex_digit n) EmptyString
  else String (hex_digit (n / 16)) (String (hex_digit (n mod 16)) EmptyString).

Fixpoint repeat_char (c : ascii) (n : nat) : string :=
  match n with
  | O => EmptyString
  | S k => String c (repeat_char c k)
  end.

(** [s.padStart(n, c)] with a one-character filler. *)
Definition padStart (n : nat) (c : ascii) (s : string) : string :=
  repeat_char c (n - String.length s) ++ s.

(** [parts.join("")] *)
Fixpoint join (parts : list string) : string :=
  match parts with
  | [] => EmptyString
  | p :: r => p ++ join r
  end.

Definition bytesToHex (b : list byte) : string :=
  join (map (fun x => padStart 2 "0" (toString16 x)) b).

(** [BigInt(s)] for a string argument, the abstract operation
    [StringToBigInt]: white space is trimmed on both sides; what remains
    is empty (giving [0n]), a run of decimal digits with an optional sign,
    or an unsigned literal in base 16, 8 or 2 behind [0x], [0o], [0b];
    anything else is a [SyntaxError]. *)
Definition is_StrWhiteSpaceChar (c : ascii) : bool :=
  in_range 9 13 c || (code c =? 32)%N || (code c =? 160)%N.

Fixpoint trimStart (s : string) : string :=
  match s with
  | EmptyString => EmptyString
  | String c r => if is_StrWhiteSpaceChar c then trimStart r else s
  end.

Fixpoint rev_string (acc s : string) : string :=
  match s with
  | EmptyString => acc
  | String c r => rev_string (String c acc) r
  end.

Definition trim (s : string) : string :=
  rev_string EmptyString (trimStart (rev_string EmptyString (trimStart s))).

(** The mathematical value of a run of digits, read from the left;
    [None] when a character is not a digit of the radix. *)
Fixpoint digits_from (radix acc : Z) (s : string) : option Z :=
  match s with
  | EmptyString => Some acc
  | String c r =>
      match digit_value radix c with
      | Some d => digits_from radix (acc * radix + d) r
      | None => None
      end
  end.

(** [radix]-digits, at least one. *)
Definition digits1 (radix : Z) (s : string) : option Z :=
  match s with
  | EmptyString => None
  | _ => digits_from radix 0 s
  end.

Definition StringToBigInt (s : string) : option Z :=
  match trim s with
  | EmptyString => Some 0
  | String "+" r => digits1 10 r
  | String "-" r => option_map Z.opp (digits1 10 r)
  | String "0" (String c r) as t =>
      if (c =? "x")%char || (c =? "X")%char then digits1 16 r
      else if (c =? "o")%char || (c =? "O")%char then digits1 8 r
      else if (c =? "b")%char || (c =? "B")%char then digits1 2 r
      else digits1 10 t
  | t => digits1 10 t
  end.

Definition BigInt (s : string) : result Z :=
  match StringToBigInt s with
  | Some n => Ok n
  | None => Throw (SyntaxError ("Cannot convert " ++ s ++ " to a BigInt"))
  end.

(** [u64StringTo8BE]: the loop runs [i] from 7 down to 0 and stores
    [(n >> (7 - i) * 8) & 0xff] at index [i]; the list below gives the
    array by increasing index. *)
Definition u64_byte (n : Z) (i : nat) : byte :=
  ToUint8 (Some (Z.land (Z.shiftr n (Z.of_nat ((7 - i) * 8))) 255)).

Definition u64StringTo8BE (msStr : string) : result (list byte) :=
  let* n := BigInt msStr in
  Ok (map (u64_byte n) (seq 0 8)).

(** [new Uint8Array(n)] *)
Definition new_Uint8Array (n : nat) : list byte := repeat x00 n.

(** [dst.set(src, offset)]: copies [src] into [dst] from [offset] on and
    throws a [RangeError] when it does not fit. *)
Definition typed_set (dst src : list byte) (offset : nat) : result (list byte) :=
  if (length dst <? offset + length src)%nat
  then Throw (RangeError "offset is out of bounds")
  else Ok (take offset dst ++ src ++ drop (offset + length src) dst)%list.

(** [buildMessage]: the canonical message [nonce16 || ts_be64]. *)
Definition buildMessage (nonceHex tsMs : string) : result (list byte) :=
  let* nonce := hexToBytes nonceHex in
  if negb (Nat.eqb (length nonce) 16)
  then Throw (Error "nonce must be exactly 16 bytes")
  else
    let* ts := u64StringTo8BE tsMs in
    let msg := new_Uint8Array 24 in
    let* msg := typed_set msg nonce 0 in
    let* msg := typed_set msg ts 16 in
    Ok msg.

End Crypto.

Export Crypto.

(** ** api/src/registry.ts *)

Module Registry.

(** What [loadBeaconRegistry] finds at its [file] argument: no file, a
    file that [JSON.parse] refuses, or an object, given by
    [Object.entries(obj)] in enumeration order. The values are strings,
    as the cast to [Record<string, string>] says. *)
Inductive source : Type :=
  | NoFile
  | Unparsable (message : string)
  | Entries (obj : list (string * string)).

(** The loop over [Object.entries(obj)], threading the module-level map
    [REG] ([beaconIdHex -> publicKeyHex]). *)
Fixpoint load_entries (entries : list (string * string))
    (REG : gmap string string) : result unit * gmap string string :=
  match entries with
  | [] => (Ok tt, REG)
  | (beaconIdHex, publicKeyHex) :: rest =>
      if negb (re_hex_n 16 beaconIdHex) then
        (Throw (Error ("Bad beaconIdHex: " ++ beaconIdHex
                         ++ " (expect 16 hex chars)")), REG)
      else if negb (re_hex_n 64 publicKeyHex) then
        (Throw (Error ("Bad publicKeyHex for " ++ beaconIdHex
                         ++ " (expect 64 hex chars)")), REG)
      else
        load_entries rest
          (<[toLowerCase beaconIdHex := toLowerCase publicKeyHex]> REG)
  end.

(** [loadBeaconRegistry]: returns the outcome of the call and the
    contents of [REG] when the call ends. The first statement is
    [REG.clear()]. *)
Definition loadBeaconRegistry (file : source) (REG : gmap string string)
  : result unit * gmap string string :=
  let REG : gmap string string := ∅ in
  match file with
  | NoFile => (Ok tt, REG)
  | Unparsable message => (Throw (SyntaxError message), REG)
  | Entries obj => load_entries obj REG
  end.

Definition getPublicKeyHex (REG : gmap string string) (beaconIdHex : string)
  : option string :=
  REG !! toLowerCase beaconIdHex.

(** The contents [REG] can have: empty when the module is loaded, then
    whatever a call of [loadBeaconRegistry] leaves, whether it returned
    or threw. *)
Inductive reachable : gmap string string -> Prop :=
  | reachable_init : reachable ∅
  | reachable_load file REG :
      reachable REG -> reachable (snd (loadBeaconRegistry file REG)).

(** An entry in the format the loader stores. *)
Definition entry_ok (beaconIdHex publicKeyHex : string) : Prop :=
  re_hex_n 16 beaconIdHex = true /\ re_lower_hex_star beaconIdHex = true /\
  re_hex_n 64 publicKeyHex = true /\ re_lower_hex_star publicKeyHex = true.

(** A malformed entry of a registry source. *)
Definition malformed (e : string * string) : bool :=
  negb (re_hex_n 16 (fst e)) || negb (re_hex_n 64 (snd e)).

(** The entries in front of the first malformed one. *)
Fixpoint good_prefix (entries : list (string * string))
  : list (string * string) :=
  match entries with
  | [] => []
  | e :: rest => if malformed e then [] else e :: good_prefix rest
  end.

(** The map holding the given entries, lower-cased, later ones winning. *)
Definition stored (entries : list (string * string)) : gmap string string :=
  fold_left (fun m e => <[toLowerCase (fst e) := toLowerCase (snd e)]> m)
            entries ∅.

End Registry.

Export Registry.

(** ** api/src/index.ts: POST /api/verify

    The route declares a JSON schema for the body and a handler. The
    handler validates the body again, with the same patterns, and is what
    is embedded here; what it throws is left to the framework. *)

Module Api.

Record VerifyBody : Type := {
  body_beaconIdHex : string;
  body_nonceHex : string;
  body_tsMs : string;
  body_sigHex : string
}.

(** What the handler sends: the status code and the JSON object with its
    [ok] field and its optional [error] field. *)
Record Reply : Type := {
  reply_status : nat;
  reply_ok : bool;
  reply_error : option string
}.

(** The [z.object({...}).parse(req.body)] of the handler: every field
    is tested, and the paths of those that fail are thrown together. *)
Definition zod_issues (body : VerifyBody) : list string :=
  ((if re_hex_n 16 (body_beaconIdHex body) then [] else ["beaconIdHex"]) ++
   (if re_hex_n 32 (body_nonceHex body) then [] else ["nonceHex"]) ++
   (if re_digits_plus (body_tsMs body) then [] else ["tsMs"]) ++
   (if re_hex_n 128 (body_sigHex body) then [] else ["sigHex"]))%list.

Definition zod_parse (body : VerifyBody) : result VerifyBody :=
  match zod_issues body with
  | [] => Ok body
  | paths => Throw (ZodError paths)
  end.

(** The fields pass the input validation of the endpoint. *)
Definition valid_body (body : VerifyBody) : bool :=
  re_hex_n 16 (body_beaconIdHex body) && re_hex_n 32 (body_nonceHex body) &&
  re_digits_plus (body_tsMs body) && re_hex_n 128 (body_sigHex body).

(** [!pubHex] for [pubHex : string | undefined] *)
Definition falsy (v : option string) : bool :=
  match v with
  | None => true
  | Some EmptyString => true
  | Some _ => false
  end.

Section Handler.

(** Ed25519 itself is the library's (tweetnacl): [ed25519 msg sig pub]
    says whether the 64-byte [sig] is a valid signature of [msg] under
    the 32-byte public key [pub]. *)
Variable ed25519 : list byte -> list byte -> list byte -> bool.

(** [nacl.sign.detached.verify(msg, sig, publicKey)]: refuses other
    sizes by throwing, then checks the signature. *)
Definition nacl_sign_detached_verify (msg sig publicKey : list byte)
  : result bool :=
  if negb (Nat.eqb (length sig) 64) then Throw (Error "bad signature size")
  else if negb (Nat.eqb (length publicKey) 32)
  then Throw (Error "bad public key size")
  else Ok (ed25519 msg sig publicKey).

(** The handler of [POST /api/verify]. [res.send] without [res.code]
    answers with status 200. *)
Definition post_api_verify (REG : gmap string string) (req_body : VerifyBody)
  : result Reply :=
  let* body := zod_parse req_body in
  let pubHex := getPublicKeyHex REG (body_beaconIdHex body) in
  if falsy pubHex then
    Ok {| reply_status := 400; reply_ok := false;
          reply_error := Some "unknown_beacon" |}
  else
    let* msg := buildMessage (body_nonceHex body) (body_tsMs body) in
    let* sig := hexToBytes (body_sigHex body) in
    let* pub := hexToBytes (default EmptyString pubHex) in
    let* valid := nacl_sign_detached_verify msg sig pub in
    Ok {| reply_status := 200; reply_ok := valid; reply_error := None |}.

End Handler.

(** The top level of index.ts: [loadBeaconRegistry()] runs once, on the
    empty [REG], before [app.listen]; when it throws, the module stops
    there and the server never listens. *)
Inductive Server : Type :=
  | Exited (e : error)
  | Listening (REG : gmap string string).

Definition main (file : source) : Server :=
  match loadBeaconRegistry file ∅ with
  | (Ok _, REG) => Listening REG
  | (Throw e, _) => Exited e
  end.

End Api.

Export Api.

(** ** The frontend App component: the client session

    The component keeps its state in [useState] and [useRef] cells and
    reacts to clicks and to notifications of the beacon. Each action is an
    [async] function; here it runs to its end in one step, and what the
    environment answers at its [await]s (the browser, the beacon, the API)
    is an argument. Two actions interleaved at an [await] are not
    modelled. *)

Module App.

(** *** Utils of the component *)

(** The component has its own hex codec; [bytesToHex] has the body of
    the one in crypto.ts, [hexToBytes] tests [/^[0-9a-fA-F]*$/] and does
    not lower-case. *)
Definition bytesToHex (b : list byte) : string :=
  join (map (fun x => padStart 2 "0" (toString16 x)) b).

Definition hexToBytes (hex : string) : result (list byte) :=
  if negb (all_chars is_hex hex) || negb (Nat.eqb (String.length hex mod 2) 0)
  then Throw (Error "bad hex")
  else
    Ok (map (fun i => ToUint8 (parseInt16 (slice hex (i * 2) (i * 2 + 2))))
            (seq 0 (String.length hex / 2))).

(** [be64ToMs] up to its last line: the BigInt [n] accumulated from the
    eight bytes. The function returns [Number(n)], a double. *)
Definition be64ToBigInt (u8 : list byte) : result Z :=
  if negb (Nat.eqb (length u8) 8) then Throw (Error "ts must be 8 bytes")
  else Ok (fold_left (fun n b => Z.lor (Z.shiftl n 8) (byte_val b)) u8 0).

(** [String(n)] for a length. *)
Definition String_of_nat (n : nat) : string :=
  DecimalString.NilEmpty.string_of_uint (Nat.to_uint n).

(** [e?.message || String(e)] for the errors thrown by the modelled code. *)
Definition message_of (e : error) : string :=
  match e with
  | Error m => if String.eqb m "" then "Error" else m
  | SyntaxError m => if String.eqb m "" then "SyntaxError" else m
  | RangeError m => if String.eqb m "" then "RangeError" else m
  | ZodError _ => "ZodError"
  end.

(** *** State *)

(** The [useState] cells of the component. *)
Record View : Type := {
  deviceName : string;
  beaconIdHex : string;
  nonceHex : string;
  tsMs : string;
  sigHex : string;
  verified : option bool;
  err : string;
  connecting : bool;
  verifying : bool
}.

(** The [useRef] cells. [conn.current] refers to the objects of one GATT
    connection; they live in the heap below and [conn] is their address,
    [None] for [null]. *)
Record Refs : Type := {
  conn : option nat;
  notifyAttached : bool;
  nonceRef : string
}.

(** The objects behind a [Conn]: the link of the device and the response
    characteristic with its notification state and its listeners. A
    listener is an [onNotify] closure; what distinguishes one closure from
    another is the [beaconIdHex] of the render that created it. *)
Record Gatt : Type := {
  connected : bool;
  notifying : bool;
  listeners : list string
}.

(** The requests the component sends out. *)
Inductive Call : Type :=
  | GET_api_nonce
  | POST_api_verify (payload : VerifyBody)
  | writeValueWithoutResponse (value : list byte)
  | startNotifications
  | gatt_disconnect.

Record State : Type := {
  view : View;
  refs : Refs;
  heap : list Gatt;
  calls : list Call
}.

Definition with_deviceName (v : string) (w : View) : View :=
  {| deviceName := v;
     beaconIdHex := beaconIdHex w;
     nonceHex := nonceHex w;
     tsMs := tsMs w;
     sigHex := sigHex w;
     verified := verified w;
     err := err w;
     connecting := connecting w;
     verifying := verifying w |}.

Definition with_beaconIdHex (v : string) (w : View) : View :=
  {| deviceName := deviceName w;
     beaconIdHex := v;
     nonceHex := nonceHex w;
     tsMs := tsMs w;
     sigHex := sigHex w;
     verified := verified w;
     err := err w;
     connecting := connecting w;
     verifying := verifying w |}.

Definition with_nonceHex (v : string) (w : View) : View :=
  {| deviceName := deviceName w;
     beaconIdHex := beaconIdHex w;
     nonceHex := v;
     tsMs := tsMs w;
     sigHex := sigHex w;
     verified := verified w;
     err := err w;
     connecting := connecting w;
     verifying := verifying w |}.

Definition with_tsMs (v : string) (w : View) : View :=
  {| deviceName := deviceName w;
     beaconIdHex := beaconIdHex w;
     nonceHex := nonceHex w;
     tsMs := v;
     sigHex := sigHex w;
     verified := verified w;
     err := err w;
     connecting := connecting w;
     verifying := verifying w |}.

Definition with_sigHex (v : string) (w : View) : View :=
  {| deviceName := deviceName w;
     beaconIdHex := beaconIdHex w;
     nonceHex := nonceHex w;
     tsMs := tsMs w;
     sigHex := v;
     verified := verified w;
     err := err w;
     connecting := connecting w;
     verifying := verifying w |}.

Definition with_verified (v : option bool) (w : View) : View :=
  {| deviceName := deviceName w;
     beaconIdHex := beaconIdHex w;
     nonceHex := nonceHex w;
     tsMs := tsMs w;
     sigHex := sigHex w;
     verified := v;
     err := err w;
     connecting := connecting w;
     verifying := verifying w |}.

Definition with_err (v : string) (w : View) : View :=
  {| deviceName := deviceName w;
     beaconIdHex := beaconIdHex w;
     nonceHex := nonceHex w;
     tsMs := tsMs w;
     sigHex := sigHex w;
     verified := verified w;
     err := v;
     connecting := connecting w;
     verifying := verifying w |}.

Definition with_connecting (v : bool) (w : View) : View :=
  {| deviceName := deviceName w;
     beaconIdHex := beaconIdHex w;
     nonceHex := nonceHex w;
     tsMs := tsMs w;
     sigHex := sigHex w;
     verified := verified w;
     err := err w;
     connecting := v;
     verifying := verifying w |}.

Definition with_verifying (v : bool) (w : View) : View :=
  {| deviceName := deviceName w;
     beaconIdHex := beaconIdHex w;
     nonceHex := nonceHex w;
     tsMs := tsMs w;
     sigHex := sigHex w;
     verified := verified w;
     err := err w;
     connecting := connecting w;
     verifying := v |}.

Definition with_conn (v : option nat) (r : Refs) : Refs :=
  {| conn := v;
     notifyAttached := notifyAttached r;
     nonceRef := nonceRef r |}.

Definition with_notifyAttached (v : bool) (r : Refs) : Refs :=
  {| conn := conn r;
     notifyAttached := v;
     nonceRef := nonceRef r |}.

Definition with_nonceRef (v : string) (r : Refs) : Refs :=
  {| conn := conn r;
     notifyAttached := notifyAttached r;
     nonceRef := v |}.

Definition initial : State :=
  {| view := {| deviceName := ""; beaconIdHex := ""; nonceHex := "";
                tsMs := ""; sigHex := ""; verified := None; err := "";
                connecting := false; verifying := false |};
     refs := {| conn := None; notifyAttached := false; nonceRef := "" |};
     heap := [];
     calls := [] |}.

(** *** A state monad with exceptions for the bodies of the actions *)

Definition M (A : Type) : Type := State -> result A * State.

Definition ret {A} (a : A) : M A := fun s => (Ok a, s).

Definition raise {A} (e : error) : M A := fun s => (Throw e, s).

Definition seq_ {A B} (m : M A) (k : A -> M B) : M B :=
  fun s => match m s with
           | (Ok a, s') => k a s'
           | (Throw e, s') => (Throw e, s')
           end.

(** [try { m } catch (e) { h e }] *)
Definition try_catch {A} (m : M A) (h : error -> M A) : M A :=
  fun s => match m s with
           | (Ok a, s') => (Ok a, s')
           | (Throw e, s') => h e s'
           end.

(** [... finally { f }] *)
Definition finally {A} (m : M A) (f : M unit) : M A :=
  fun s => match m s with
           | (r, s') => (r, snd (f s'))
           end.

Definition update (f : State -> State) : M unit := fun s => (Ok tt, f s).

Definition read {A} (f : State -> A) : M A := fun s => (Ok (f s), s).

Definition lift {A} (r : result A) : M A := fun s => (r, s).

Definition on_view (f : View -> View) (s : State) : State :=
  {| view := f (view s); refs := refs s; heap := heap s; calls := calls s |}.

Definition on_refs (f : Refs -> Refs) (s : State) : State :=
  {| view := view s; refs := f (refs s); heap := heap s; calls := calls s |}.

Definition on_heap (f : list Gatt -> list Gatt) (s : State) : State :=
  {| view := view s; refs := refs s; heap := f (heap s); calls := calls s |}.

Definition call (c : Call) : M unit :=
  update (fun s => {| view := view s; refs := refs s; heap := heap s;
                      calls := (calls s ++ [c])%list |}).

Definition setDeviceName v := update (on_view (with_deviceName v)).
Definition setBeaconIdHex v := update (on_view (with_beaconIdHex v)).
Definition setNonceHex v := update (on_view (with_nonceHex v)).
Definition setTsMs v := update (on_view (with_tsMs v)).
Definition setSigHex v := update (on_view (with_sigHex v)).
Definition setVerified v := update (on_view (with_verified v)).
Definition setErr v := update (on_view (with_err v)).
Definition setConnecting v := update (on_view (with_connecting v)).
Definition setVerifying v := update (on_view (with_verifying v)).

Notation "'let!' x ':=' m 'in' k" := (seq_ m (fun x => k))
  (at level 10, x name, m at level 100, k at level 200).
Notation "'do!' m 'in' k" := (seq_ m (fun _ => k))
  (at level 10, m at level 100, k at level 200).

(** *** What the environment answers *)

(** The outcome of the Web Bluetooth calls of [connectBeacon]: no
    [navigator.bluetooth]; a failure before [conn.current] is assigned
    (the request, the link, the service or a characteristic); a failure of
    the read of the identity; or a beacon with its name and identity. *)
Inductive ConnectEnv : Type :=
  | NoBluetooth
  | LinkFails (message : string)
  | ReadFails (name : string) (message : string)
  | Beacon (name : string) (idVal : list byte).

(** The answer to [GET /api/nonce]. *)
Inductive NonceReply : Type :=
  | FetchFails (message : string)
  | HttpError (http_status : nat)
  | NonceJson (nonceHex : string).

Record VerifyEnv : Type := {
  nonce_reply : NonceReply;
  startNotifications_error : option string;
  write_error : option string
}.

(** The answer to [POST /api/verify] as the component reads it:
    [json.ok] and [json.error]. *)
Inductive VerifyReply : Type :=
  | PostFails (message : string)
  | ReplyJson (json_ok : bool) (json_error : option string).

(** *** Actions *)

Definition with_connected (v : bool) (g : Gatt) : Gatt :=
  {| connected := v; notifying := notifying g; listeners := listeners g |}.

Definition with_notifying (v : bool) (g : Gatt) : Gatt :=
  {| connected := connected g; notifying := v; listeners := listeners g |}.

Definition add_listener (l : string) (g : Gatt) : Gatt :=
  {| connected := connected g; notifying := notifying g;
     listeners := (listeners g ++ [l])%list |}.

(** [conn.current = { idChar, signNonceChar, signRespChar, device }] on
    the objects of a link that has just been established. *)
Definition open_conn : M unit :=
  update (fun s =>
    on_refs (with_conn (Some (length (heap s))))
      (on_heap (fun h => (h ++ [{| connected := true; notifying := false;
                                  listeners := [] |}])%list) s)).

(** [name || fallback] *)
Definition or_else (name fallback : string) : string :=
  if String.eqb name "" then fallback else name.

Definition connectBeacon (env : ConnectEnv) : M unit :=
  finally
    (try_catch
       (do! setErr "" in
        do! setVerified None in
        do! setConnecting true in
        match env with
        | NoBluetooth =>
            raise (Error "Web Bluetooth not supported in this browser")
        | LinkFails message => raise (Error message)
        | ReadFails name message =>
            do! open_conn in
            do! setDeviceName (or_else name "Unknown device") in
            raise (Error message)
        | Beacon name idVal =>
            do! open_conn in
            do! setDeviceName (or_else name "Unknown device") in
            setBeaconIdHex (toLowerCase (bytesToHex idVal))
        end)
       (fun e => setErr (message_of e)))
    (setConnecting false).

Definition gatt_is_connected (s : State) (a : nat) : bool :=
  match heap s !! a with
  | Some g => connected g
  | None => false
  end.

Definition disconnectBeacon : M unit :=
  try_catch
    (let! d := read (fun s => conn (refs s)) in
     do! match d with
         | Some a =>
             let! is_connected := read (fun s => gatt_is_connected s a) in
             if is_connected
             then do! call gatt_disconnect in
                  update (on_heap (alter (with_connected false) a))
             else ret tt
         | None => ret tt
         end in
     do! update (on_refs (with_conn None)) in
     do! update (on_refs (with_notifyAttached false)) in
     do! setDeviceName "" in
     do! setBeaconIdHex "" in
     do! setVerified None in
     do! setNonceHex "" in
     do! setTsMs "" in
     do! setSigHex "" in
     setErr "")
    (fun _ => ret tt).

Definition verifyPresence (env : VerifyEnv) : M unit :=
  try_catch
    (do! setErr "" in
     do! setVerified None in
     do! setTsMs "" in
     do! setSigHex "" in
     do! setVerifying true in
     let! c := read (fun s => conn (refs s)) in
     match c with
     | None => raise (Error "Not connected to a beacon yet")
     | Some a =>
         do! call GET_api_nonce in
         match nonce_reply env with
         | FetchFails message => raise (Error message)
         | HttpError st =>
             raise (Error ("nonce failed: " ++ String_of_nat st))
         | NonceJson nonceHex =>
             do! setNonceHex nonceHex in
             do! update (on_refs (with_nonceRef nonceHex)) in
             let! attached := read (fun s => notifyAttached (refs s)) in
             do! (if negb attached then
                    do! call startNotifications in
                    match startNotifications_error env with
                    | Some message => raise (Error message)
                    | None =>
                        do! update (on_heap (alter (with_notifying true) a)) in
                        let! closure := read (fun s => beaconIdHex (view s)) in
                        do! update (on_heap (alter (add_listener closure) a)) in
                        update (on_refs (with_notifyAttached true))
                    end
                  else ret tt) in
             let! nonce := read (fun s => nonceRef (refs s)) in
             let! value := lift (hexToBytes nonce) in
             do! call (writeValueWithoutResponse value) in
             match write_error env with
             | Some message => raise (Error message)
             | None => ret tt
             end
         end
     end)
    (fun e => do! setErr (message_of e) in setVerifying false).

Section Notifications.

(** [String(be64ToMs(tsBytes))] as a function of the BigInt the eight
    bytes denote: the conversion to a double and its printing are
    floating point and stay a parameter. *)
Variable String_of_Number : Z -> string.

(** [onNotify], registered as a listener of the response characteristic.
    [closure_beaconIdHex] is the [beaconIdHex] of the render the listener
    comes from; [raw] is [new Uint8Array(dv.buffer)] for the value [dv] of
    the event. The dash in the second message is written as the literal
    has it. *)
Definition onNotify (closure_beaconIdHex : string) (raw : list byte)
    (reply : VerifyReply) : M unit :=
  finally
    (try_catch
       (if negb (Nat.eqb (length raw) 72) then
          do! setErr ("Expected 72B, got " ++ String_of_nat (length raw)) in
          setVerifying false
        else
          let tsBytes := take 8 raw in
          let sigBytes := drop 8 raw in
          let! ms := lift (be64ToBigInt tsBytes) in
          let sig := bytesToHex sigBytes in
          do! setTsMs (String_of_Number ms) in
          do! setSigHex sig in
          let! nonce := read (fun s => nonceRef (refs s)) in
          if String.eqb nonce "" || negb (Nat.eqb (String.length nonce) 32)
          then
            do! setErr ("Nonce not ready (len="
                          ++ String_of_nat (String.length nonce)
                          ++ ") — press Verify again") in
            setVerifying false
          else
            let payload :=
              {| body_beaconIdHex := closure_beaconIdHex;
                 body_nonceHex := nonce;
                 body_tsMs := String_of_Number ms;
                 body_sigHex := sig |} in
            do! call (POST_api_verify payload) in
            match reply with
            | PostFails message => raise (Error message)
            | ReplyJson json_ok json_error =>
                do! setVerified (Some json_ok) in
                if negb json_ok && negb (falsy json_error)
                then setErr (default "" json_error)
                else ret tt
            end)
       (fun e => setErr (message_of e)))
    (setVerifying false).

(** A [characteristicvaluechanged] event on the response characteristic
    at address [a]: every listener registered there runs. *)
Fixpoint run_listeners (ls : list string) (raw : list byte)
    (reply : VerifyReply) : M unit :=
  match ls with
  | [] => ret tt
  | l :: rest =>
      fun s => run_listeners rest raw reply (snd (onNotify l raw reply s))
  end.

Definition characteristicvaluechanged (a : nat) (raw : list byte)
    (reply : VerifyReply) : M unit :=
  fun s =>
    match heap s !! a with
    | Some g => run_listeners (listeners g) raw reply s
    | None => (Ok tt, s)
    end.

End Notifications.

(** Whether a request to the verification endpoint is among the calls. *)
Definition is_POST_api_verify (c : Call) : bool :=
  match c with
  | POST_api_verify _ => true
  | _ => false
  end.

End App.

(** ** Reference definitions for the statements *)

Module Ref.

(** The bytes of a string of hex digits taken two characters at a time:
    the array [hexToBytes] fills, without the indices. *)
Fixpoint pairs_bytes (s : string) : list byte :=
  match s with
  | String a (String b r) =>
      ToUint8 (parseInt16 (String a (String b EmptyString))) :: pairs_bytes r
  | _ => []
  end.

(** What [bytesToHex] writes for one byte: the two hex digits. *)
Definition hex_pair (x : byte) : string :=
  String (hex_digit (Byte.to_N x / 16))
         (String (hex_digit (Byte.to_N x mod 16)) EmptyString).

(** The number a string of decimal digits denotes, by position: the
    character at distance [k] from the end counts [10 ^ k] times its
    digit. *)
Fixpoint decimal_value (s : string) : Z :=
  match s with
  | EmptyString => 0
  | String c r =>
      (Z.of_N (code c) - 48) * 10 ^ Z.of_nat (String.length r)
      + decimal_value r
  end.

(** The unsigned number a byte sequence denotes in big-endian order: the
    byte at distance [k] from the end counts [256 ^ k] times. *)
Fixpoint be_value (l : list byte) : Z :=
  match l with
  | [] => 0
  | b :: r => byte_val b * 256 ^ Z.of_nat (length r) + be_value r
  end.

(** A string of decimal digits, possibly empty. *)
Definition is_decimal (s : string) : bool := all_chars is_digit s.

(** A string of hex digits of either case. *)
Definition is_hex_string (s : string) : bool := all_chars is_hex s.

(** Every entry of a registry has the stored format. *)
Definition registry_ok (REG : gmap string string) : Prop :=
  forall k v, REG !! k = Some v -> entry_ok k v.

End Ref.

Export Ref.

(** ** Concrete data for the examples *)

Module Demo.

Definition beacon_id : string := "a1b2c3d4e5f60708".

Definition public_key : string :=
  "3d4017c3e843895a92b70aa74d1b7ebc9c982ccf2ec4968cc0cd55f12af4660c".

Definition nonce : string := "00112233445566778899aabbccddeeff".

Definition nonce_bytes : list byte :=
  [x00; x11; x22; x33; x44; x55; x66; x77;
   x88; x99; xaa; xbb; xcc; xdd; xee; xff].

Definition signature : string :=
  "000102030405060708090a0b0c0d0e0f101112131415161718191a1b1c1d1e1f"
  ++ "202122232425262728292a2b2c2d2e2f303132333435363738393a3b3c3d3e3f".

(** The registry after loading a source with the one beacon. *)
Definition REG : gmap string string :=
  snd (loadBeaconRegistry (Entries [(beacon_id, public_key)]) ∅).

Definition body : VerifyBody :=
  {| body_beaconIdHex := beacon_id;
     body_nonceHex := nonce;
     body_tsMs := "1700000000000";
     body_sigHex := signature |}.

(** Two verdicts standing for Ed25519 on a signature that verifies and on
    one that does not. *)
Definition accepts (msg sig pub : list byte) : bool := true.
Definition rejects (msg sig pub : list byte) : bool := false.

(** A source whose second entry has a 15-character identifier. *)
Definition second_id : string := "0807f6e5d4c3b2a1".

Definition bad_source : list (string * string) :=
  [(second_id, public_key); ("a1b2c3d4e5f6070", public_key)].

(** [String(Number(n))] where the double is exact, below [2 ^ 53]. *)
Definition String_of_Number (n : Z) : string :=
  DecimalString.NilEmpty.string_of_uint (N.to_uint (Z.to_N n)).

(** A session that connected to the beacon and sent a nonce: it awaits
    the notification. *)
Definition connected : App.State :=
  snd (App.connectBeacon
         (App.Beacon "beacon" [xa1; xb2; xc3; xd4; xe5; xf6; x07; x08])
         App.initial).

Definition awaiting : App.State :=
  snd (App.verifyPresence
         {| App.nonce_reply := App.NonceJson nonce;
            App.startNotifications_error := None;
            App.write_error := None |}
         connected).

(** A notification of 72 bytes: the timestamp 1700000000000, then a
    signature. *)
Definition notification : list byte :=
  ([x00; x00; x01; x8b; xcf; xe5; x68; x00] ++ repeat x2a 64)%list.

End Demo.

(** ** api/src/crypto.ts and api/src/index.ts: GET /api/nonce *)

Module NonceRoute.

(** [webcrypto.getRandomValues(arr)] fills every element of [arr]; the
    bytes it draws are the environment's: [entropy i] is the byte drawn for
    index [i]. *)
Definition getRandomValues (entropy : nat -> byte) (arr : list byte)
  : list byte :=
  map entropy (seq 0 (length arr)).

(** [randomNonce16] *)
Definition randomNonce16 (entropy : nat -> byte) : list byte :=
  let arr := new_Uint8Array 16 in
  getRandomValues entropy arr.

(** The handler of [GET /api/nonce]: the [nonceHex] field of the object it
    sends. *)
Definition get_api_nonce (entropy : nat -> byte) : string :=
  let nonce := randomNonce16 entropy in
  bytesToHex nonce.

(** [/^[0-9a-f]{n}$/], the pattern of the response schema ([n] is 32). *)
Definition re_lower_hex_n (n : nat) (s : string) : bool :=
  re_lower_hex_star s && Nat.eqb (String.length s) n.

End NonceRoute.

(** ** The frontend App component: what a render derives from the state *)

Module Render.

(** The values of [verifiedState]. *)
Inductive PillState : Type := idle | ok | bad | loading.

(** [verifying ? "loading" : verified === null ? "idle"
     : verified ? "ok" : "bad"] *)
Definition verifiedState (w : App.View) : PillState :=
  if App.verifying w then loading
  else match App.verified w with
       | None => idle
       | Some true => ok
       | Some false => bad
       end.

(** [const connected = !!beaconIdHex]: it decides between the Connect
    button and the Verify and Disconnect buttons. *)
Definition connected (w : App.View) : bool :=
  negb (String.eqb (App.beaconIdHex w) "").

End Render.

(** ** More reference definitions *)

Module Ref2.

(** The last entry of a source whose identifier is [beaconIdHex] up to
    case. *)
Definition last_entry (obj : list (string * string)) (beaconIdHex : string)
  : option (string * string) :=
  find (fun e => String.eqb (toLowerCase (fst e)) (toLowerCase beaconIdHex))
       (rev obj).

(** A request body with its hex fields in lower case. *)
Definition lower_body (body : VerifyBody) : VerifyBody :=
  {| body_beaconIdHex := toLowerCase (body_beaconIdHex body);
     body_nonceHex := toLowerCase (body_nonceHex body);
     body_tsMs := body_tsMs body;
     body_sigHex := toLowerCase (body_sigHex body) |}.

(** A request body with another timestamp. *)
Definition with_tsMs (tsMs : string) (body : VerifyBody) : VerifyBody :=
  {| body_beaconIdHex := body_beaconIdHex body;
     body_nonceHex := body_nonceHex body;
     body_tsMs := tsMs;
     body_sigHex := body_sigHex body |}.

End Ref2.

Export Ref2.

(** ** What [BigInt] can read *)

Module BigIntChars.

(** The characters a string that [BigInt] reads is made of: white space,
    digits of some radix, a sign, and the letters of the prefixes [0x],
    [0o] and [0b]. *)
Definition is_BigInt_char (c : ascii) : bool :=
  is_StrWhiteSpaceChar c || is_hex c
  || existsb (Ascii.eqb c) ["+"; "-"; "x"; "X"; "o"; "O"]%char.

End BigIntChars.

Export BigIntChars.

(** ** The frontend App component: [be64ToMs] with its conversion *)

Module Double.

(** The Number values that a BigInt converts to: a double whose value is
    an integer, or an infinity. *)
Inductive Number : Type :=
  | Finite (value : Z)
  | Infinity (negative : bool).

(** The double nearest to a natural number [n]: [n] itself when it has at
    most 53 significant bits, else [n] rounded to 53 significant bits,
    to the even significand on a tie. What rounds to [2 ^ 1024] is
    infinite. *)
Definition nearest_double (n : Z) : option Z :=
  if n <? 2 ^ 53 then Some n
  else
    let k := Z.log2 n - 52 in
    let q := Z.shiftr n k in
    let r := Z.land n (Z.ones k) in
    let half := Z.shiftl 1 (k - 1) in
    let significand :=
      if (half <? r) || ((r =? half) && Z.odd q) then q + 1 else q in
    let value := Z.shiftl significand k in
    if value <? 2 ^ 1024 then Some value else None.

(** [Number(n)] for a BigInt [n]. *)
Definition Number_of_BigInt (n : Z) : Number :=
  if n <? 0 then
    match nearest_double (- n) with
    | Some v => Finite (- v)
    | None => Infinity true
    end
  else
    match nearest_double n with
    | Some v => Finite v
    | None => Infinity false
    end.

(** [be64ToMs] on a [Uint8Array]: the BigInt accumulated from the eight
    bytes, then [return Number(n)]. *)
Definition be64ToMs (u8 : list byte) : result Number :=
  let* n := App.be64ToBigInt u8 in
  Ok (Number_of_BigInt n).

End Double.

(** ** More concrete data *)

Module Demo64.

(** A timestamp of 2^64 + 1700000000000, in a request that is otherwise
    [Demo.body]. *)
Definition tsMs : string := "18446745773709551616".

Definition body : VerifyBody := with_tsMs tsMs Demo.body.

(** The canonical message of [Demo.nonce] and the timestamp
    1700000000000, in hex. *)
Definition signed_message : string :=
  "00112233445566778899aabbccddeeff0000018bcfe56800".

(** A verdict standing for Ed25519 on a signature that is valid for that
    one message and for no other. *)
Definition accepts_signed_message (msg sig pub : list byte) : bool :=
  String.eqb (bytesToHex msg) signed_message.

End Demo64.

(** ** The frontend App component: sessions without overlapping handlers *)

Module Sequential.

Section Steps.

Variable String_of_Number : Z -> string.

(** One step of a session whose handlers do not overlap: a click on a
    button that the render offers and enables, or a notification on some
    response characteristic, handled to its end (every promise it awaits
    settled) before the next click or notification arrives. The handlers
    are [async]: in a browser another event can be handled while one is
    suspended at an [await], and such sessions are not among these.

    The render offers Connect when the view is not connected (enabled
    unless connecting), and Verify (enabled unless verifying) and
    Disconnect when it is. Where Web Bluetooth is missing the render
    disables Connect as well; the steps allow the click, and
    [connectBeacon] then fails. *)
Inductive step : App.State -> App.State -> Prop :=
  | click_connect (env : App.ConnectEnv) (s : App.State) :
      Render.connected (App.view s) = false ->
      App.connecting (App.view s) = false ->
      step s (snd (App.connectBeacon env s))
  | click_verify (env : App.VerifyEnv) (s : App.State) :
      Render.connected (App.view s) = true ->
      App.verifying (App.view s) = false ->
      step s (snd (App.verifyPresence env s))
  | click_disconnect (s : App.State) :
      Render.connected (App.view s) = true ->
      step s (snd (App.disconnectBeacon s))
  | notification (a : nat) (raw : list byte) (reply : App.VerifyReply)
      (s : App.State) :
      step s (snd (App.characteristicvaluechanged String_of_Number a raw
                     reply s)).

(** The states such a session goes through from the first render. *)
Inductive session : App.State -> Prop :=
  | session_initial : session App.initial
  | session_step (s s' : App.State) : session s -> step s s' -> session s'.

(** What the steps keep true of the subscription. *)
Definition consistent (s : App.State) : Prop :=
  (forall a, App.conn (App.refs s) = Some a -> (a < length (App.heap s))%nat) /\
  (forall i g, App.heap s !! i = Some g ->
               (length (App.listeners g) <= 1)%nat) /\
  (App.notifyAttached (App.refs s) = true ->
   Render.connected (App.view s) = true /\
   exists a g,
     App.conn (App.refs s) = Some a /\ App.heap s !! a = Some g /\
     App.listeners g = [App.beaconIdHex (App.view s)]) /\
  (App.notifyAttached (App.refs s) = false ->
   forall a g, App.conn (App.refs s) = Some a -> App.heap s !! a = Some g ->
               App.listeners g = []).

End Steps.

End Sequential.

(** * Properties *)

(** ** The definitions on concrete inputs *)

Example hexToBytes_mixed_case : hexToBytes "00Ff1a" = Ok [x00; xff; x1a].
Proof. reflexivity. Qed.

Example hexToBytes_odd_length : hexToBytes "abc" = Throw (Error "invalid hex").
Proof. reflexivity. Qed.

Example hexToBytes_bad_char : hexToBytes "zz" = Throw (Error "invalid hex").
Proof. reflexivity. Qed.

Example bytesToHex_pads : bytesToHex [x00; xff; x1a; x07] = "00ff1a07".
Proof. reflexivity. Qed.

Example BigInt_readings :
  map StringToBigInt
      ["12"; " 12 "; "007"; "0x10"; "0b101"; "-1"; "+7"; "";
       "1e3"; "12a"; "0x"; "+"; "1 2"; "-0x10"]
  = [Some 12; Some 12; Some 7; Some 16; Some 5; Some (-1); Some 7; Some 0;
     None; None; None; None; None; None].
Proof. vm_compute. reflexivity. Qed.

Example u64StringTo8BE_1700000000000 :
  u64StringTo8BE "1700000000000"
  = Ok [x00; x00; x01; x8b; xcf; xe5; x68; x00].
Proof. vm_compute. reflexivity. Qed.

Example u64StringTo8BE_negative :
  u64StringTo8BE "-1" = Ok [xff; xff; xff; xff; xff; xff; xff; xff].
Proof. vm_compute. reflexivity. Qed.

Example buildMessage_short_nonce :
  buildMessage "0011" "5" = Throw (Error "nonce must be exactly 16 bytes").
Proof. vm_compute. reflexivity. Qed.

Example registry_lookup_ignores_case :
  getPublicKeyHex Demo.REG "A1B2C3D4E5F60708" = Some Demo.public_key.
Proof. vm_compute. reflexivity. Qed.

Example verify_unknown_beacon :
  post_api_verify Demo.accepts ∅ Demo.body
  = Ok {| reply_status := 400; reply_ok := false;
          reply_error := Some "unknown_beacon" |}.
Proof. vm_compute. reflexivity. Qed.

Example verify_malformed_input :
  post_api_verify Demo.accepts Demo.REG
    {| body_beaconIdHex := Demo.beacon_id; body_nonceHex := "0011";
       body_tsMs := "12a"; body_sigHex := Demo.signature |}
  = Throw (ZodError ["nonceHex"; "tsMs"]).
Proof. vm_compute. reflexivity. Qed.

Example session_awaiting :
  App.refs Demo.awaiting
  = {| App.conn := Some 0%nat; App.notifyAttached := true;
       App.nonceRef := Demo.nonce |} /\
  App.calls Demo.awaiting
  = [App.GET_api_nonce; App.startNotifications;
     App.writeValueWithoutResponse Demo.nonce_bytes].
Proof. split; vm_compute; reflexivity. Qed.

Example session_completes :
  let s := snd (App.characteristicvaluechanged Demo.String_of_Number 0
                  Demo.notification (App.ReplyJson true None) Demo.awaiting) in
  App.verified (App.view s) = Some true /\
  App.verifying (App.view s) = false /\
  App.tsMs (App.view s) = "1700000000000".
Proof. cbv zeta. split; [|split]; vm_compute; reflexivity. Qed.

(** ** Strings and characters *)

Lemma string_pair_ind (P : string -> Prop) :
  P EmptyString ->
  (forall a, P (String a EmptyString)) ->
  (forall a b r, P r -> P (String a (String b r))) ->
  forall s, P s.
Proof.
  intros H0 H1 H2.
  assert (both : forall s, P s /\ forall c, P (String c s)).
  { induction s as [|a r [IH IHc]].
    - split; [exact H0 | exact H1].
    - split; [apply IHc | intros c; apply H2, IH]. }
  intros s. apply both.
Qed.

Lemma length_SS_mod2 (n : nat) : (S (S n) mod 2 = n mod 2)%nat.
Proof.
  replace (S (S n)) with (n + 1 * 2)%nat by lia.
  apply Nat.Div0.mod_add.
Qed.

Lemma length_SS_div2 (n : nat) : (S (S n) / 2 = S (n / 2))%nat.
Proof.
  replace (S (S n)) with (n + 1 * 2)%nat by lia.
  rewrite Nat.div_add by lia. lia.
Qed.

Lemma toLowerCase_length (s : string) :
  String.length (toLowerCase s) = String.length s.
Proof. induction s as [|c r IH]; simpl; congruence. Qed.

Lemma all_chars_app (p : ascii -> bool) (s t : string) :
  all_chars p (s ++ t) = all_chars p s && all_chars p t.
Proof.
  induction s as [|c r IH]; simpl; [reflexivity|].
  rewrite IH. apply andb_assoc.
Qed.

Lemma all_chars_impl (p q : ascii -> bool) (s : string) :
  (forall c, p c = true -> q c = true) ->
  all_chars p s = true -> all_chars q s = true.
Proof.
  intros Hpq. induction s as [|c r IH]; simpl; [reflexivity|].
  intros [Hc Hr]%andb_true_iff. rewrite (Hpq c Hc), (IH Hr). reflexivity.
Qed.

(** The sixteen characters of [[0-9a-f]]. *)
Lemma is_lower_hex_cases (c : ascii) :
  is_lower_hex c = true ->
  In c ["0"; "1"; "2"; "3"; "4"; "5"; "6"; "7"; "8"; "9";
        "a"; "b"; "c"; "d"; "e"; "f"]%char.
Proof.
  destruct c as [[] [] [] [] [] [] [] []]; vm_compute; intros H;
    solve [discriminate H | intuition].
Qed.

Lemma lower_hex_is_lower_hex (c : ascii) :
  is_hex c = true -> is_lower_hex (lower c) = true.
Proof.
  destruct c as [[] [] [] [] [] [] [] []]; vm_compute; intros H;
    solve [discriminate H | reflexivity].
Qed.

Lemma lower_fixes_lower_hex (c : ascii) :
  is_lower_hex c = true -> lower c = c.
Proof.
  intros H. apply is_lower_hex_cases in H. simpl in H.
  repeat (destruct H as [<-|H]; [reflexivity|]). contradiction.
Qed.

Lemma is_lower_hex_is_hex (c : ascii) :
  is_lower_hex c = true -> is_hex c = true.
Proof.
  unfold is_hex, is_lower_hex. intros ->. reflexivity.
Qed.

Lemma is_digit_is_hex (c : ascii) : is_digit c = true -> is_hex c = true.
Proof. unfold is_hex. intros ->. reflexivity. Qed.

Lemma toLowerCase_lower_hex (s : string) :
  all_chars is_hex s = true -> re_lower_hex_star (toLowerCase s) = true.
Proof.
  unfold re_lower_hex_star.
  induction s as [|c r IH]; simpl; [reflexivity|].
  intros [Hc Hr]%andb_true_iff.
  rewrite (lower_hex_is_lower_hex c Hc), (IH Hr). reflexivity.
Qed.

Lemma toLowerCase_fixes_lower_hex (s : string) :
  re_lower_hex_star s = true -> toLowerCase s = s.
Proof.
  unfold re_lower_hex_star.
  induction s as [|c r IH]; simpl; [reflexivity|].
  intros [Hc Hr]%andb_true_iff.
  rewrite (lower_fixes_lower_hex c Hc), (IH Hr). reflexivity.
Qed.

(** A string with a character outside [[0-9a-fA-F]] still has one after
    lower-casing. *)
Lemma lower_not_hex (c : ascii) :
  is_hex c = false -> is_lower_hex (lower c) = false.
Proof.
  destruct c as [[] [] [] [] [] [] [] []]; vm_compute; intros H;
    solve [discriminate H | reflexivity].
Qed.

Lemma toLowerCase_not_hex (s : string) :
  all_chars is_hex s = false -> re_lower_hex_star (toLowerCase s) = false.
Proof.
  unfold re_lower_hex_star.
  induction s as [|c r IH]; simpl; [discriminate|].
  destruct (is_hex c) eqn:Hc; simpl.
  - intros Hr. rewrite (IH Hr). apply andb_false_r.
  - intros _. rewrite (lower_not_hex c Hc). reflexivity.
Qed.

(** ** The hex codec of crypto.ts *)

(** The indexed loop of [hexToBytes] walks the string two characters at a
    time. *)
Lemma hex_loop_pairs (s : string) :
  map (fun i => ToUint8 (parseInt16 (slice s (i * 2) (i * 2 + 2))))
      (seq 0 (String.length s / 2))
  = pairs_bytes s.
Proof.
  induction s as [|a|a b r IH] using string_pair_ind; [reflexivity..|].
  cbn [String.length]. rewrite length_SS_div2.
  cbn [seq map pairs_bytes]. rewrite <- seq_shift, map_map, <- IH.
  f_equal. unfold slice. simpl. destruct r; reflexivity.
Qed.

Lemma hexToBytes_lower (h : string) :
  hexToBytes h =
  if negb (re_lower_hex_star (toLowerCase h))
     || negb (Nat.eqb (String.length h mod 2) 0)
  then Throw (Error "invalid hex")
  else Ok (pairs_bytes (toLowerCase h)).
Proof.
  unfold hexToBytes. rewrite hex_loop_pairs, toLowerCase_length. reflexivity.
Qed.

Lemma hexToBytes_hex (s : string) :
  is_hex_string s = true -> Nat.even (String.length s) = true ->
  hexToBytes s = Ok (pairs_bytes (toLowerCase s)).
Proof.
  intros Hs Hev. rewrite hexToBytes_lower.
  rewrite (toLowerCase_lower_hex s Hs).
  apply Nat.even_spec in Hev. destruct Hev as [k ->].
  replace (2 * k)%nat with (0 + k * 2)%nat by lia.
  rewrite Nat.Div0.mod_add. reflexivity.
Qed.

Lemma pairs_bytes_length (s : string) :
  length (pairs_bytes s) = (String.length s / 2)%nat.
Proof.
  induction s as [|a|a b r IH] using string_pair_ind; [reflexivity..|].
  cbn [pairs_bytes length String.length]. rewrite length_SS_div2. congruence.
Qed.

Lemma padStart_toString16 (x : byte) :
  padStart 2 "0" (toString16 x) = hex_pair x.
Proof. destruct x; reflexivity. Qed.

Lemma hex_pair_lower_hex (x : byte) : re_lower_hex_star (hex_pair x) = true.
Proof. destruct x; reflexivity. Qed.

Lemma hex_pair_parse (x : byte) : ToUint8 (parseInt16 (hex_pair x)) = x.
Proof. destruct x; reflexivity. Qed.

Lemma parse_hex_pair (a b : ascii) :
  is_lower_hex a = true -> is_lower_hex b = true ->
  hex_pair (ToUint8 (parseInt16 (String a (String b EmptyString))))
  = String a (String b EmptyString).
Proof.
  intros Ha Hb.
  apply is_lower_hex_cases in Ha. apply is_lower_hex_cases in Hb.
  simpl in Ha, Hb.
  repeat (destruct Ha as [<-|Ha]; [
    repeat (destruct Hb as [<-|Hb]; [reflexivity|]); contradiction |]).
  contradiction.
Qed.

Lemma bytesToHex_cons (x : byte) (b : list byte) :
  bytesToHex (x :: b) =
  String (hex_digit (Byte.to_N x / 16))
         (String (hex_digit (Byte.to_N x mod 16)) (bytesToHex b)).
Proof. unfold bytesToHex. simpl. rewrite padStart_toString16. reflexivity. Qed.

Lemma length_String (c : ascii) (s : string) :
  String.length (String c s) = S (String.length s).
Proof. reflexivity. Qed.

Lemma bytesToHex_length (b : list byte) :
  String.length (bytesToHex b) = (2 * length b)%nat.
Proof.
  induction b as [|x b IH]; [reflexivity|].
  rewrite bytesToHex_cons, !length_String, IH. simpl. lia.
Qed.

Lemma bytesToHex_lower_hex (b : list byte) :
  re_lower_hex_star (bytesToHex b) = true.
Proof.
  induction b as [|x b IH]; [reflexivity|].
  rewrite bytesToHex_cons. unfold re_lower_hex_star in *.
  pose proof (hex_pair_lower_hex x) as H.
  unfold re_lower_hex_star, hex_pair in H. cbn [all_chars] in *.
  rewrite IH.
  destruct (is_lower_hex (hex_digit (Byte.to_N x / 16)));
    destruct (is_lower_hex (hex_digit (Byte.to_N x mod 16)));
    solve [reflexivity | discriminate H].
Qed.

Lemma pairs_bytes_bytesToHex (b : list byte) :
  pairs_bytes (bytesToHex b) = b.
Proof.
  induction b as [|x b IH]; [reflexivity|].
  rewrite bytesToHex_cons. cbn [pairs_bytes].
  rewrite IH. f_equal. apply hex_pair_parse.
Qed.

Lemma bytesToHex_pairs_bytes (s : string) :
  re_lower_hex_star s = true -> Nat.even (String.length s) = true ->
  bytesToHex (pairs_bytes s) = s.
Proof.
  unfold re_lower_hex_star.
  induction s as [|a|a b r IH] using string_pair_ind.
  - reflexivity.
  - intros _ H. discriminate H.
  - cbn [all_chars String.length]. intros H Hev.
    apply andb_true_iff in H as [Ha H]. apply andb_true_iff in H as [Hb Hr].
    cbn [pairs_bytes]. rewrite bytesToHex_cons.
    pose proof (parse_hex_pair a b Ha Hb) as Hp. unfold hex_pair in Hp.
    injection Hp as -> ->. rewrite IH; [reflexivity|assumption|].
    exact Hev.
Qed.

Lemma hexToBytes_bytesToHex (b : list byte) :
  hexToBytes (bytesToHex b) = Ok b.
Proof.
  rewrite hexToBytes_lower.
  rewrite (toLowerCase_fixes_lower_hex _ (bytesToHex_lower_hex b)).
  rewrite bytesToHex_lower_hex, bytesToHex_length.
  replace (2 * length b)%nat with (0 + length b * 2)%nat by lia.
  rewrite Nat.Div0.mod_add. cbn [negb orb Nat.eqb Nat.modulo].
  rewrite pairs_bytes_bytesToHex. reflexivity.
Qed.

(** ** Decimal strings and [BigInt] *)

Lemma is_digit_cases (c : ascii) :
  is_digit c = true ->
  In c ["0"; "1"; "2"; "3"; "4"; "5"; "6"; "7"; "8"; "9"]%char.
Proof.
  destruct c as [[] [] [] [] [] [] [] []]; vm_compute; intros H;
    solve [discriminate H | intuition].
Qed.

Lemma digit_value_decimal (c : ascii) :
  is_digit c = true -> digit_value 10 c = Some (Z.of_N (code c) - 48).
Proof.
  intros H. apply is_digit_cases in H. simpl in H.
  repeat (destruct H as [<-|H]; [reflexivity|]). contradiction.
Qed.

Lemma is_digit_not_space (c : ascii) :
  is_digit c = true -> is_StrWhiteSpaceChar c = false.
Proof.
  intros H. apply is_digit_cases in H. simpl in H.
  repeat (destruct H as [<-|H]; [reflexivity|]). contradiction.
Qed.

Lemma rev_string_rev_string (s a b : string) :
  rev_string a (rev_string b s) = rev_string (s ++ a) b.
Proof.
  revert a b. induction s as [|c r IH]; intros a b; [reflexivity|].
  cbn [rev_string]. rewrite IH. reflexivity.
Qed.

Lemma append_empty_r (s : string) : s ++ "" = s.
Proof.
  induction s as [|c r IH]; [reflexivity|].
  change (String c (r ++ "") = String c r). f_equal. exact IH.
Qed.

Lemma all_chars_rev_string (p : ascii -> bool) (s acc : string) :
  all_chars p (rev_string acc s) = all_chars p s && all_chars p acc.
Proof.
  revert acc. induction s as [|c r IH]; intros acc; [reflexivity|].
  cbn [rev_string all_chars]. rewrite IH. cbn [all_chars].
  destruct (p c), (all_chars p r), (all_chars p acc); reflexivity.
Qed.

Lemma trimStart_no_space (s : string) :
  all_chars (fun c => negb (is_StrWhiteSpaceChar c)) s = true ->
  trimStart s = s.
Proof.
  destruct s as [|c r]; [reflexivity|]. cbn [all_chars trimStart].
  intros [Hc _]%andb_true_iff. apply negb_true_iff in Hc. rewrite Hc.
  reflexivity.
Qed.

Lemma trim_no_space (s : string) :
  all_chars (fun c => negb (is_StrWhiteSpaceChar c)) s = true ->
  trim s = s.
Proof.
  intros H. unfold trim. rewrite (trimStart_no_space s H).
  rewrite trimStart_no_space.
  - rewrite rev_string_rev_string. cbn [rev_string]. apply append_empty_r.
  - rewrite all_chars_rev_string, H. reflexivity.
Qed.

Lemma trim_decimal (s : string) : is_decimal s = true -> trim s = s.
Proof.
  intros H. apply trim_no_space.
  apply (all_chars_impl is_digit); [|exact H].
  intros c Hc. rewrite (is_digit_not_space c Hc). reflexivity.
Qed.

Lemma digits_from_decimal (s : string) (acc : Z) :
  is_decimal s = true ->
  digits_from 10 acc s
  = Some (acc * 10 ^ Z.of_nat (String.length s) + decimal_value s).
Proof.
  unfold is_decimal. revert acc.
  induction s as [|c r IH]; intros acc H.
  - cbn. f_equal. lia.
  - cbn [all_chars] in H. apply andb_true_iff in H as [Hc Hr].
    cbn [digits_from]. rewrite (digit_value_decimal c Hc), (IH _ Hr).
    cbn [decimal_value]. rewrite length_String, Nat2Z.inj_succ, Z.pow_succ_r by lia.
    f_equal. ring.
Qed.

(** On a string of decimal digits [BigInt] reads the number the string
    denotes, whatever its size; the empty string reads as 0. *)
Lemma StringToBigInt_decimal (s : string) :
  is_decimal s = true -> StringToBigInt s = Some (decimal_value s).
Proof.
  intros H. unfold StringToBigInt. rewrite (trim_decimal s H).
  assert (Hd : digits1 10 s = Some (decimal_value s) \/ s = "").
  { destruct s as [|c r]; [right; reflexivity|left].
    unfold digits1. rewrite (digits_from_decimal _ 0 H). f_equal. }
  destruct s as [|c r]; [reflexivity|].
  destruct Hd as [Hd|Hd]; [|discriminate Hd].
  unfold is_decimal in H. cbn [all_chars] in H.
  apply andb_true_iff in H as [Hc Hr].
  apply is_digit_cases in Hc. simpl in Hc.
  destruct Hc as [<-|Hc].
  - destruct r as [|c2 r2]; [exact Hd|].
    cbn [all_chars] in Hr. apply andb_true_iff in Hr as [Hc2 _].
    apply is_digit_cases in Hc2. simpl in Hc2.
    repeat (destruct Hc2 as [<-|Hc2]; [exact Hd|]). contradiction.
  - repeat (destruct Hc as [<-|Hc]; [exact Hd|]). contradiction.
Qed.

Lemma BigInt_decimal (s : string) :
  is_decimal s = true -> BigInt s = Ok (decimal_value s).
Proof.
  intros H. unfold BigInt. rewrite (StringToBigInt_decimal s H). reflexivity.
Qed.

Lemma decimal_value_nonneg (s : string) :
  is_decimal s = true -> 0 <= decimal_value s.
Proof.
  unfold is_decimal. induction s as [|c r IH]; intros H; [cbn; lia|].
  cbn [all_chars] in H. apply andb_true_iff in H as [Hc Hr].
  cbn [decimal_value]. specialize (IH Hr).
  assert (0 <= Z.of_N (code c) - 48).
  { apply is_digit_cases in Hc. simpl in Hc.
    repeat (destruct Hc as [<-|Hc]; [vm_compute; discriminate|]).
    contradiction. }
  assert (0 <= 10 ^ Z.of_nat (String.length r)) by (apply Z.pow_nonneg; lia).
  nia.
Qed.

(** ** Big-endian bytes *)

Lemma byte_val_u8 (z : Z) : byte_val (u8 z) = z mod 256.
Proof.
  unfold byte_val, u8.
  assert (Hr : 0 <= z mod 256 < 256) by (apply Z.mod_pos_bound; lia).
  destruct (Byte.of_N (Z.to_N (z mod 256))) as [b|] eqn:Hb.
  - apply Byte.to_of_N in Hb. rewrite Hb. rewrite Z2N.id; lia.
  - apply Byte.of_N_None_iff in Hb. lia.
Qed.

Lemma byte_val_range (b : byte) : 0 <= byte_val b < 256.
Proof.
  unfold byte_val. pose proof (Byte.to_N_bounded b). lia.
Qed.

Lemma u8_byte_val (b : byte) : u8 (byte_val b) = b.
Proof. destruct b; reflexivity. Qed.

Lemma u64_byte_div (n : Z) (i : nat) :
  byte_val (u64_byte n i) = (n / 2 ^ Z.of_nat ((7 - i) * 8)) mod 256.
Proof.
  unfold u64_byte, ToUint8. rewrite byte_val_u8.
  change 255 with (Z.ones 8). rewrite Z.land_ones by lia.
  rewrite Z.shiftr_div_pow2 by lia.
  change (2 ^ 8) with 256. apply Z.mod_mod. lia.
Qed.

(** The little-endian digits of a number in base 256, as a sum. *)
Lemma base256_digits (k : nat) (n : Z) :
  n mod 256 ^ Z.of_nat (S k)
  = n mod 256 + 256 * ((n / 256) mod 256 ^ Z.of_nat k).
Proof.
  rewrite Nat2Z.inj_succ, Z.pow_succ_r by lia.
  apply Z.rem_mul_r; [lia|]. apply Z.pow_pos_nonneg; lia.
Qed.

Lemma u64_be_value (n : Z) :
  be_value (map (u64_byte n) (seq 0 8)) = n mod 2 ^ 64.
Proof.
  cbn [seq map be_value length]. rewrite !u64_byte_div.
  change (2 ^ 64) with (256 ^ Z.of_nat 8).
  rewrite !base256_digits.
  change (256 ^ Z.of_nat 0) with 1. rewrite Z.mod_1_r.
  rewrite !Z.div_div by lia.
  cbn [Nat.sub Nat.mul Nat.add].
  repeat match goal with
  | |- context [2 ^ Z.of_nat ?k] =>
      let v := eval vm_compute in (2 ^ Z.of_nat k) in
      change (2 ^ Z.of_nat k) with v
  | |- context [256 ^ Z.of_nat ?k] =>
      let v := eval vm_compute in (256 ^ Z.of_nat k) in
      change (256 ^ Z.of_nat k) with v
  end.
  repeat match goal with
  | |- context [Z.mul (Zpos ?a) (Zpos ?b)] =>
      let v := eval vm_compute in (Z.mul (Zpos a) (Zpos b)) in
      change (Z.mul (Zpos a) (Zpos b)) with v
  end.
  rewrite Z.div_1_r. lia.
Qed.

Lemma be_value_range (l : list byte) :
  0 <= be_value l < 256 ^ Z.of_nat (length l).
Proof.
  induction l as [|b r IH]; [cbn; lia|].
  cbn [be_value length]. rewrite Nat2Z.inj_succ, Z.pow_succ_r by lia.
  pose proof (byte_val_range b). nia.
Qed.

Lemma byte_val_inj (a b : byte) : byte_val a = byte_val b -> a = b.
Proof.
  intros H. rewrite <- (u8_byte_val a), <- (u8_byte_val b), H. reflexivity.
Qed.

(** Byte sequences of one length with one big-endian value are equal:
    the value and the length determine the field. *)
Lemma be_value_inj (l1 l2 : list byte) :
  length l1 = length l2 -> be_value l1 = be_value l2 -> l1 = l2.
Proof.
  revert l2. induction l1 as [|a r1 IH]; intros [|b r2] Hlen Hval;
    try discriminate Hlen; [reflexivity|].
  cbn [length] in Hlen. injection Hlen as Hlen.
  cbn [be_value] in Hval. rewrite <- Hlen in Hval.
  pose proof (be_value_range r1) as H1.
  pose proof (be_value_range r2) as H2. rewrite <- Hlen in H2.
  pose proof (byte_val_range a) as Ha.
  pose proof (byte_val_range b) as Hb.
  set (p := 256 ^ Z.of_nat (length r1)) in *.
  assert (Hab : byte_val a = byte_val b) by nia.
  rewrite Hab in Hval.
  f_equal; [apply byte_val_inj, Hab|apply IH; [exact Hlen|lia]].
Qed.

Lemma shiftl_lor_byte (n : Z) (b : byte) :
  Z.lor (Z.shiftl n 8) (byte_val b) = n * 256 + byte_val b.
Proof.
  assert (Hland : Z.land (Z.shiftl n 8) (byte_val b) = 0).
  { apply Z.bits_inj'. intros j Hj. rewrite Z.land_spec, Z.bits_0.
    destruct (Z.ltb_spec j 8) as [Hlt|Hge].
    - rewrite Z.shiftl_spec_low by lia. reflexivity.
    - replace (Z.testbit (byte_val b) j) with false; [apply andb_false_r|].
      symmetry. pose proof (byte_val_range b) as Hb.
      destruct (Z.eq_dec (byte_val b) 0) as [->|Hne]; [apply Z.bits_0|].
      apply Z.bits_above_log2; [lia|].
      assert (Hpow : 2 ^ 8 <= 2 ^ j) by (apply Z.pow_le_mono_r; lia).
      change (2 ^ 8) with 256 in Hpow.
      apply Z.log2_lt_pow2; lia. }
  rewrite <- (Z.lxor_lor _ _ Hland), <- (Z.add_nocarry_lxor _ _ Hland).
  rewrite Z.shiftl_mul_pow2 by lia. reflexivity.
Qed.

Lemma fold_be_value (l : list byte) (acc : Z) :
  fold_left (fun n b => Z.lor (Z.shiftl n 8) (byte_val b)) l acc
  = acc * 256 ^ Z.of_nat (length l) + be_value l.
Proof.
  revert acc. induction l as [|b r IH]; intros acc; [cbn; lia|].
  cbn [fold_left be_value length]. rewrite IH, shiftl_lor_byte.
  rewrite Nat2Z.inj_succ, Z.pow_succ_r by lia. ring.
Qed.

(** The number [be64ToMs] of the component accumulates from eight bytes
    is their big-endian value. *)
Lemma be64ToBigInt_be_value (u8s : list byte) :
  length u8s = 8%nat -> App.be64ToBigInt u8s = Ok (be_value u8s).
Proof.
  intros H. unfold App.be64ToBigInt. rewrite H. cbn [Nat.eqb negb].
  rewrite fold_be_value. f_equal.
Qed.

(** A field of eight bytes only sees the number modulo [2 ^ 64]. *)
Lemma u64_byte_mod (n : Z) (i : nat) :
  u64_byte (n mod 2 ^ 64) i = u64_byte n i.
Proof.
  unfold u64_byte, ToUint8. f_equal.
  apply Z.bits_inj'. intros j Hj.
  rewrite !Z.land_spec, !Z.shiftr_spec by lia.
  change 255 with (Z.ones 8).
  destruct (Z.ltb_spec j 8) as [Hlt|Hge].
  - rewrite Z.mod_pow2_bits_low; [reflexivity|]. lia.
  - rewrite Z.ones_spec_high by lia. rewrite !andb_false_r. reflexivity.
Qed.

Lemma u64_bytes_congruent (n m : Z) :
  n mod 2 ^ 64 = m mod 2 ^ 64 ->
  map (u64_byte n) (seq 0 8) = map (u64_byte m) (seq 0 8).
Proof.
  intros H. apply map_ext. intros i.
  rewrite <- (u64_byte_mod n), <- (u64_byte_mod m), H. reflexivity.
Qed.

Lemma u64StringTo8BE_decimal (msStr : string) :
  is_decimal msStr = true ->
  u64StringTo8BE msStr = Ok (map (u64_byte (decimal_value msStr)) (seq 0 8)).
Proof.
  intros H. unfold u64StringTo8BE. rewrite (BigInt_decimal msStr H).
  reflexivity.
Qed.

(** ** [buildMessage] *)

Lemma typed_set_fill (nonce ts : list byte) :
  length nonce = 16%nat -> length ts = 8%nat ->
  (let* msg := typed_set (new_Uint8Array 24) nonce 0 in
   let* msg := typed_set msg ts 16 in
   Ok msg) = Ok (nonce ++ ts)%list.
Proof.
  intros Hn Ht.
  do 17 (destruct nonce as [|? nonce]; try discriminate Hn).
  do 9 (destruct ts as [|? ts]; try discriminate Ht).
  reflexivity.
Qed.

Lemma buildMessage_bytes (nonceHex tsMs : string) (nonce : list byte) (n : Z) :
  hexToBytes nonceHex = Ok nonce -> length nonce = 16%nat ->
  BigInt tsMs = Ok n ->
  buildMessage nonceHex tsMs = Ok (nonce ++ map (u64_byte n) (seq 0 8))%list.
Proof.
  intros Hhex Hlen Hn. unfold buildMessage, u64StringTo8BE.
  rewrite Hhex, Hn. cbn [Js.bind]. rewrite Hlen. cbn [Nat.eqb negb].
  apply typed_set_fill; [exact Hlen|reflexivity].
Qed.

(** A nonce accepted by [/^[0-9a-f]{32}$/i] decodes to 16 bytes. *)
Lemma hexToBytes_re_hex_n (n : nat) (s : string) :
  re_hex_n (2 * n) s = true ->
  exists b, hexToBytes s = Ok b /\ length b = n.
Proof.
  unfold re_hex_n. intros [Hs Hl]%andb_true_iff.
  apply Nat.eqb_eq in Hl.
  exists (pairs_bytes (toLowerCase s)). split.
  - apply hexToBytes_hex; [exact Hs|]. rewrite Hl.
    apply Nat.even_spec. exists n. reflexivity.
  - rewrite pairs_bytes_length, toLowerCase_length, Hl.
    replace (2 * n)%nat with (0 + n * 2)%nat by lia.
    rewrite Nat.div_add by lia. reflexivity.
Qed.

(** ** The characters of a string that [BigInt] reads *)

Lemma digit_value_is_hex (radix : Z) (c : ascii) (d : Z) :
  digit_value radix c = Some d -> is_hex c = true.
Proof.
  unfold digit_value, is_hex.
  destruct (is_digit c), (is_lower_af c), (is_upper_af c);
    try reflexivity; discriminate.
Qed.

Lemma digits_from_is_hex (radix : Z) (s : string) (acc n : Z) :
  digits_from radix acc s = Some n -> all_chars is_hex s = true.
Proof.
  revert acc. induction s as [|c r IH]; intros acc; [reflexivity|].
  cbn [digits_from all_chars].
  destruct (digit_value radix c) as [d|] eqn:Hd; [|discriminate].
  intros H. rewrite (digit_value_is_hex _ _ _ Hd). exact (IH _ H).
Qed.

Lemma digits1_is_hex (radix : Z) (s : string) (n : Z) :
  digits1 radix s = Some n -> all_chars is_hex s = true.
Proof.
  destruct s as [|c r]; [reflexivity|]. apply digits_from_is_hex.
Qed.

Lemma is_hex_BigInt_char (s : string) :
  all_chars is_hex s = true -> all_chars is_BigInt_char s = true.
Proof.
  apply all_chars_impl. intros c Hc. unfold is_BigInt_char.
  rewrite Hc, orb_true_r. reflexivity.
Qed.

Lemma all_chars_trimStart (s : string) :
  all_chars is_BigInt_char (trimStart s) = true ->
  all_chars is_BigInt_char s = true.
Proof.
  induction s as [|c r IH]; [reflexivity|]. cbn [trimStart].
  destruct (is_StrWhiteSpaceChar c) eqn:Hc; [|exact id].
  intros H. cbn [all_chars]. rewrite (IH H). unfold is_BigInt_char.
  rewrite Hc. reflexivity.
Qed.

Lemma all_chars_trim (s : string) :
  all_chars is_BigInt_char (trim s) = true ->
  all_chars is_BigInt_char s = true.
Proof.
  unfold trim. rewrite all_chars_rev_string, andb_true_r.
  intros H. apply all_chars_trimStart in H.
  rewrite all_chars_rev_string, andb_true_r in H.
  apply all_chars_trimStart, H.
Qed.

Lemma all_chars_String (p : ascii -> bool) (c : ascii) (r : string) :
  p c = true -> all_chars p r = true -> all_chars p (String c r) = true.
Proof. intros Hc Hr. cbn [all_chars]. rewrite Hc, Hr. reflexivity. Qed.

Ltac BigInt_chars H :=
  match type of H with
  | all_chars is_hex ?X = true =>
      match goal with
      | |- all_chars _ X = true => exact (is_hex_BigInt_char X H)
      | |- all_chars _ (String _ _) = true =>
          apply all_chars_String; [vm_compute; reflexivity|BigInt_chars H]
      end
  end.

Ltac BigInt_digits H :=
  cbv beta iota in H; cbn [Ascii.eqb Bool.eqb orb andb] in H;
  cbv beta iota in H;
  match type of H with
  | option_map _ (digits1 _ ?X) = Some _ =>
      let E := fresh in
      destruct (digits1 10 X) eqn:E; [|discriminate H];
      apply digits1_is_hex in E; BigInt_chars E
  | digits1 _ _ = Some _ => apply digits1_is_hex in H; BigInt_chars H
  end.

(** Every character of a string that [BigInt] reads is one of those. *)
Lemma StringToBigInt_chars (s : string) (n : Z) :
  StringToBigInt s = Some n -> all_chars is_BigInt_char s = true.
Proof.
  unfold StringToBigInt. intros H. apply all_chars_trim.
  destruct (trim s) as [|c r]; [reflexivity|].
  destruct c as [[] [] [] [] [] [] [] []];
    try solve [BigInt_digits H].
  destruct r as [|c r]; [BigInt_digits H|].
  destruct c as [[] [] [] [] [] [] [] []]; BigInt_digits H.
Qed.

(** ** The beacon registry *)

Lemma load_entries_state (entries : list (string * string))
    (REG : gmap string string) :
  snd (load_entries entries REG)
  = fold_left (fun m e => <[toLowerCase (fst e) := toLowerCase (snd e)]> m)
              (good_prefix entries) REG.
Proof.
  revert REG. induction entries as [|[k v] rest IH]; intros REG;
    [reflexivity|].
  cbn [load_entries good_prefix]. unfold malformed. cbn [fst snd].
  destruct (re_hex_n 16 k); cbn [negb orb]; [|reflexivity].
  destruct (re_hex_n 64 v); cbn [negb]; [|reflexivity].
  rewrite IH. reflexivity.
Qed.

Lemma load_entries_throws (entries : list (string * string))
    (REG : gmap string string) :
  existsb malformed entries = true ->
  exists message, fst (load_entries entries REG) = Throw (Error message).
Proof.
  revert REG. induction entries as [|[k v] rest IH]; intros REG H;
    [discriminate H|].
  cbn [existsb] in H. cbn [load_entries]. unfold malformed in H at 1.
  cbn [fst snd] in H.
  destruct (re_hex_n 16 k); cbn [negb orb] in *; [|eexists; reflexivity].
  destruct (re_hex_n 64 v); cbn [negb orb] in *; [|eexists; reflexivity].
  apply IH, H.
Qed.

Lemma load_entries_returns (entries : list (string * string))
    (REG : gmap string string) :
  existsb malformed entries = false ->
  fst (load_entries entries REG) = Ok tt /\ good_prefix entries = entries.
Proof.
  revert REG. induction entries as [|[k v] rest IH]; intros REG H;
    [split; reflexivity|].
  cbn [existsb] in H. apply orb_false_iff in H as [Hm Hrest].
  cbn [load_entries good_prefix]. rewrite Hm.
  unfold malformed in Hm. cbn [fst snd] in Hm.
  apply orb_false_iff in Hm as [Hk Hv]. rewrite Hk, Hv.
  destruct (IH (<[toLowerCase k := toLowerCase v]> REG) Hrest) as [-> ->].
  split; reflexivity.
Qed.

Lemma re_hex_n_lower (n : nat) (s : string) :
  re_hex_n n s = true ->
  re_hex_n n (toLowerCase s) = true /\
  re_lower_hex_star (toLowerCase s) = true.
Proof.
  unfold re_hex_n. intros [Hs Hl]%andb_true_iff.
  pose proof (toLowerCase_lower_hex s Hs) as Hlow.
  split; [|exact Hlow].
  rewrite toLowerCase_length, Hl, andb_true_r.
  exact (all_chars_impl _ _ _ is_lower_hex_is_hex Hlow).
Qed.

Lemma load_entries_ok (entries : list (string * string))
    (REG : gmap string string) :
  registry_ok REG -> registry_ok (snd (load_entries entries REG)).
Proof.
  revert REG. induction entries as [|[k v] rest IH]; intros REG H;
    [exact H|].
  cbn [load_entries].
  destruct (re_hex_n 16 k) eqn:Hk; cbn [negb]; [|exact H].
  destruct (re_hex_n 64 v) eqn:Hv; cbn [negb]; [|exact H].
  apply IH. intros k' v' Hlook.
  destruct (decide (toLowerCase k = k')) as [<-|Hne].
  - rewrite lookup_insert_eq in Hlook. injection Hlook as <-.
    destruct (re_hex_n_lower _ _ Hk), (re_hex_n_lower _ _ Hv).
    repeat split; assumption.
  - rewrite lookup_insert_ne in Hlook by exact Hne. exact (H _ _ Hlook).
Qed.

Lemma registry_ok_empty : registry_ok ∅.
Proof. intros k v H. rewrite lookup_empty in H. discriminate H. Qed.

Lemma loadBeaconRegistry_ok (file : source) (REG : gmap string string) :
  registry_ok (snd (loadBeaconRegistry file REG)).
Proof.
  destruct file as [|m|obj]; cbn [loadBeaconRegistry snd];
    try apply registry_ok_empty.
  apply load_entries_ok, registry_ok_empty.
Qed.

(** Whatever calls were made, [REG] holds well-formed entries only. *)
Lemma reachable_ok (REG : gmap string string) :
  reachable REG -> registry_ok REG.
Proof.
  intros [|file REG0 _]; [apply registry_ok_empty|].
  apply loadBeaconRegistry_ok.
Qed.

(** A server that listens has loaded its whole source. *)
Lemma main_listening (file : source) (REG : gmap string string) :
  main file = Listening REG ->
  match file with
  | NoFile => REG = ∅
  | Unparsable _ => False
  | Entries obj => existsb malformed obj = false /\ REG = stored obj
  end.
Proof.
  unfold main. destruct file as [|m|obj]; cbn [loadBeaconRegistry].
  - intros [= <-]. reflexivity.
  - discriminate.
  - destruct (existsb malformed obj) eqn:Hbad.
    + destruct (load_entries_throws obj ∅ Hbad) as [m Hm].
      destruct (load_entries obj ∅) as [r R]. cbn [fst] in Hm. subst r.
      discriminate.
    + destruct (load_entries_returns obj ∅ Hbad) as [Hr Hp].
      pose proof (load_entries_state obj ∅) as Hs. rewrite Hp in Hs.
      destruct (load_entries obj ∅) as [r R]. cbn [fst snd] in *. subst r R.
      intros [= <-]. split; reflexivity.
Qed.

(** ** The handler of the verification endpoint *)

Lemma valid_body_zod (body : VerifyBody) :
  valid_body body = true -> zod_parse body = Ok body.
Proof.
  unfold valid_body, zod_parse, zod_issues.
  destruct (re_hex_n 16 (body_beaconIdHex body));
    destruct (re_hex_n 32 (body_nonceHex body));
    destruct (re_digits_plus (body_tsMs body));
    destruct (re_hex_n 128 (body_sigHex body));
    cbn; intros H; solve [discriminate H | reflexivity].
Qed.

Lemma invalid_body_zod (body : VerifyBody) :
  valid_body body = false ->
  zod_parse body = Throw (ZodError (zod_issues body)) /\ zod_issues body <> [].
Proof.
  unfold valid_body, zod_parse, zod_issues.
  destruct (re_hex_n 16 (body_beaconIdHex body));
    destruct (re_hex_n 32 (body_nonceHex body));
    destruct (re_digits_plus (body_tsMs body));
    destruct (re_hex_n 128 (body_sigHex body));
    cbn; intros H; try discriminate H; split; solve [reflexivity | discriminate].
Qed.

Lemma re_digits_plus_decimal (s : string) :
  re_digits_plus s = true -> is_decimal s = true.
Proof. unfold re_digits_plus. intros [H _]%andb_true_iff. exact H. Qed.

Lemma not_decimal_zod (body : VerifyBody) :
  is_decimal (body_tsMs body) = false ->
  zod_parse body = Throw (ZodError (zod_issues body)) /\
  In "tsMs" (zod_issues body).
Proof.
  intros H.
  assert (Hre : re_digits_plus (body_tsMs body) = false).
  { unfold re_digits_plus. unfold is_decimal in H. rewrite H. reflexivity. }
  split.
  - apply invalid_body_zod. unfold valid_body. rewrite Hre.
    rewrite andb_false_r. reflexivity.
  - unfold zod_issues. rewrite Hre.
    rewrite !in_app_iff. right. right. left. left. reflexivity.
Qed.

Lemma entry_ok_public_key (k v : string) :
  entry_ok k v ->
  falsy (Some v) = false /\
  exists pub, hexToBytes v = Ok pub /\ length pub = 32%nat.
Proof.
  intros (_ & _ & Hv & _). split.
  - destruct v; [discriminate Hv|reflexivity].
  - apply (hexToBytes_re_hex_n 32). exact Hv.
Qed.

Section HandlerFacts.

Variable ed25519 : list byte -> list byte -> list byte -> bool.

(** The path of a request that passes validation and names a registered
    beacon. *)
Lemma post_api_verify_registered (REG : gmap string string)
    (body : VerifyBody) (pubHex : string) :
  registry_ok REG -> valid_body body = true ->
  getPublicKeyHex REG (body_beaconIdHex body) = Some pubHex ->
  exists nonce sig pub : list byte,
    hexToBytes (body_nonceHex body) = Ok nonce /\ length nonce = 16%nat /\
    hexToBytes (body_sigHex body) = Ok sig /\ length sig = 64%nat /\
    hexToBytes pubHex = Ok pub /\ length pub = 32%nat /\
    let msg :=
      (nonce ++ map (u64_byte (decimal_value (body_tsMs body))) (seq 0 8))%list
    in
    buildMessage (body_nonceHex body) (body_tsMs body) = Ok msg /\
    post_api_verify ed25519 REG body
    = Ok {| reply_status := 200; reply_ok := ed25519 msg sig pub;
            reply_error := None |}.
Proof.
  intros Hreg Hvalid Hlook.
  pose proof (valid_body_zod body Hvalid) as Hzod.
  unfold valid_body in Hvalid.
  apply andb_true_iff in Hvalid as [Hvalid Hsig].
  apply andb_true_iff in Hvalid as [Hvalid Hts].
  apply andb_true_iff in Hvalid as [Hid Hnonce].
  destruct (hexToBytes_re_hex_n 16 _ Hnonce) as (nonce & Hn & Hnl).
  destruct (hexToBytes_re_hex_n 64 _ Hsig) as (sig & Hs & Hsl).
  destruct (entry_ok_public_key _ _ (Hreg _ _ Hlook))
    as (Hfalsy & pub & Hp & Hpl).
  exists nonce, sig, pub. repeat (split; [assumption|]).
  pose proof (buildMessage_bytes _ _ nonce _ Hn Hnl
                (BigInt_decimal _ (re_digits_plus_decimal _ Hts))) as Hmsg.
  cbv zeta. split; [exact Hmsg|].
  unfold post_api_verify. rewrite Hzod. cbn [Js.bind].
  rewrite Hlook, Hfalsy, Hmsg. cbn [Js.bind from_option id].
  rewrite Hs, Hp. cbn [Js.bind].
  unfold nacl_sign_detached_verify. rewrite Hsl, Hpl. reflexivity.
Qed.

Lemma post_api_verify_unknown (REG : gmap string string) (body : VerifyBody) :
  valid_body body = true ->
  getPublicKeyHex REG (body_beaconIdHex body) = None ->
  post_api_verify ed25519 REG body
  = Ok {| reply_status := 400; reply_ok := false;
          reply_error := Some "unknown_beacon" |}.
Proof.
  intros Hvalid Hlook. unfold post_api_verify.
  rewrite (valid_body_zod body Hvalid). cbn [Js.bind].
  rewrite Hlook. reflexivity.
Qed.

Lemma post_api_verify_invalid (REG : gmap string string) (body : VerifyBody) :
  valid_body body = false ->
  post_api_verify ed25519 REG body = Throw (ZodError (zod_issues body)).
Proof.
  intros H. unfold post_api_verify.
  destruct (invalid_body_zod body H) as [-> _]. reflexivity.
Qed.

End HandlerFacts.

(** ** The client session *)

Ltac run_action :=
  unfold App.try_catch, App.finally, App.seq_, App.ret, App.raise,
    App.update, App.read, App.lift, App.call,
    App.setDeviceName, App.setBeaconIdHex, App.setNonceHex, App.setTsMs,
    App.setSigHex, App.setVerified, App.setErr, App.setConnecting,
    App.setVerifying;
  cbn [fst snd].

Section NotificationFacts.

Variable String_of_Number : Z -> string.

Lemma onNotify_wrong_length (closure : string) (raw : list byte)
    (reply : App.VerifyReply) (s : App.State) :
  length raw <> 72%nat ->
  App.onNotify String_of_Number closure raw reply s
  = (Ok tt,
     App.on_view
       (fun w => App.with_verifying false
                   (App.with_verifying false
                      (App.with_err
                         ("Expected 72B, got "
                            ++ App.String_of_nat (length raw)) w)))
       s).
Proof.
  intros Hlen. unfold App.onNotify.
  destruct (Nat.eqb_spec (length raw) 72) as [Heq|_]; [contradiction|].
  reflexivity.
Qed.

Lemma run_listeners_wrong_length (ls : list string) (raw : list byte)
    (reply : App.VerifyReply) (s : App.State) :
  length raw <> 72%nat ->
  let s' := snd (App.run_listeners String_of_Number ls raw reply s) in
  App.calls s' = App.calls s /\ App.refs s' = App.refs s /\
  App.heap s' = App.heap s.
Proof.
  intros Hlen. revert s. induction ls as [|l rest IH]; intros s.
  - repeat split.
  - cbn [App.run_listeners]. rewrite (onNotify_wrong_length _ _ _ _ Hlen).
    cbn [snd]. cbv zeta in IH.
    destruct (IH (App.on_view
       (fun w => App.with_verifying false
                   (App.with_verifying false
                      (App.with_err
                         ("Expected 72B, got "
                            ++ App.String_of_nat (length raw)) w)))
       s)) as (-> & -> & ->).
    repeat split.
Qed.

End NotificationFacts.

Lemma disconnectBeacon_run (s : App.State) :
  App.disconnectBeacon s
  = (Ok tt,
     {| App.view :=
          {| App.deviceName := ""; App.beaconIdHex := "";
             App.nonceHex := ""; App.tsMs := ""; App.sigHex := "";
             App.verified := None; App.err := "";
             App.connecting := App.connecting (App.view s);
             App.verifying := App.verifying (App.view s) |};
        App.refs :=
          {| App.conn := None; App.notifyAttached := false;
             App.nonceRef := App.nonceRef (App.refs s) |};
        App.heap :=
          match App.conn (App.refs s) with
          | Some a =>
              if App.gatt_is_connected s a
              then alter (App.with_connected false) a (App.heap s)
              else App.heap s
          | None => App.heap s
          end;
        App.calls :=
          match App.conn (App.refs s) with
          | Some a =>
              if App.gatt_is_connected s a
              then (App.calls s ++ [App.gatt_disconnect])%list
              else App.calls s
          | None => App.calls s
          end |}).
Proof.
  unfold App.disconnectBeacon. run_action.
  destruct s as [w r h c]. cbn.
  destruct r as [[a|] att nonce]; cbn; [|reflexivity].
  destruct (App.gatt_is_connected _ a); reflexivity.
Qed.

Lemma alter_connected_listeners (h : list App.Gatt) (a i : nat) :
  App.listeners <$> alter (App.with_connected false) a h !! i
  = App.listeners <$> h !! i.
Proof.
  rewrite list_lookup_alter. case_decide; [|reflexivity].
  subst i. destruct (h !! a); reflexivity.
Qed.


(** A verification attempt that gets a nonce stores it in the slot before
    it subscribes or writes. *)
Lemma verifyPresence_sets_nonce (env : App.VerifyEnv) (nonceHex : string)
    (s : App.State) :
  App.nonce_reply env = App.NonceJson nonceHex ->
  App.conn (App.refs s) <> None ->
  App.nonceRef (App.refs (snd (App.verifyPresence env s))) = nonceHex.
Proof.
  intros Hreply Hconn. unfold App.verifyPresence. run_action.
  destruct s as [w [[a|] att old] h c]; [|contradiction]. cbn.
  rewrite Hreply. cbn.
  destruct att; cbn.
  - destruct (App.hexToBytes nonceHex); cbn;
      [destruct (App.write_error env)|]; reflexivity.
  - destruct (App.startNotifications_error env); cbn; [reflexivity|].
    destruct (App.hexToBytes nonceHex); cbn;
      [destruct (App.write_error env)|]; reflexivity.
Qed.

(** * The statements of the specification *)

(** ** Hex codec and canonical message *)

Lemma buildMessage_decimal (nonceHex tsMs : string) (nonce : list byte) :
  hexToBytes nonceHex = Ok nonce -> length nonce = 16%nat ->
  is_decimal tsMs = true ->
  exists ts,
    u64StringTo8BE tsMs = Ok ts /\
    buildMessage nonceHex tsMs = Ok (nonce ++ ts)%list /\
    length ts = 8%nat /\
    be_value ts = decimal_value tsMs mod 2 ^ 64.
Proof.
  intros Hhex Hlen Hdec.
  exists (map (u64_byte (decimal_value tsMs)) (seq 0 8)).
  split; [apply u64StringTo8BE_decimal, Hdec|].
  split; [apply buildMessage_bytes; auto using BigInt_decimal|].
  split; [reflexivity|apply u64_be_value].
Qed.

Lemma buildMessage_throws (nonceHex tsMs : string) (nonce : list byte)
    (e : error) :
  hexToBytes nonceHex = Ok nonce -> length nonce = 16%nat ->
  buildMessage nonceHex tsMs = Throw e ->
  StringToBigInt tsMs = None /\
  e = SyntaxError ("Cannot convert " ++ tsMs ++ " to a BigInt").
Proof.
  intros Hhex Hlen.
  destruct (BigInt tsMs) as [n|e'] eqn:Hn.
  - rewrite (buildMessage_bytes _ _ nonce n Hhex Hlen Hn). discriminate.
  - unfold buildMessage, u64StringTo8BE. rewrite Hhex, Hn. cbn [Js.bind].
    rewrite Hlen. cbn [Nat.eqb negb Js.bind].
    unfold BigInt in Hn. destruct (StringToBigInt tsMs); [discriminate Hn|].
    injection Hn as <-. intros [= <-]. split; reflexivity.
Qed.

Lemma length_append (s t : string) :
  String.length (s ++ t) = (String.length s + String.length t)%nat.
Proof.
  induction s as [|c r IH]; [reflexivity|].
  change (S (String.length (r ++ t)) = S (String.length r + String.length t)).
  f_equal. exact IH.
Qed.

Lemma hexToBytes_odd (h : string) :
  Nat.odd (String.length h) = true -> hexToBytes h = Throw (Error "invalid hex").
Proof.
  intros Hodd. rewrite hexToBytes_lower.
  apply Nat.odd_spec in Hodd. destruct Hodd as [k ->].
  replace (2 * k + 1)%nat with (1 + k * 2)%nat by lia.
  rewrite Nat.Div0.mod_add.
  change (negb (Nat.eqb (1 mod 2) 0)) with true.
  rewrite orb_true_r. reflexivity.
Qed.

(** C8. Hex codec round trip: decoding the encoding of a byte sequence
    gives the sequence back, and encoding the decoding of a string of hex
    digits of even length gives the string in lower case. *)
Theorem hex_round_trip (b : list byte) (s : string) :
  hexToBytes (bytesToHex b) = Ok b /\
  (is_hex_string s = true -> Nat.even (String.length s) = true ->
   exists decoded,
     hexToBytes s = Ok decoded /\ bytesToHex decoded = toLowerCase s).
Proof.
  split; [apply hexToBytes_bytesToHex|].
  intros Hs Hev. exists (pairs_bytes (toLowerCase s)).
  split; [apply hexToBytes_hex; assumption|].
  apply bytesToHex_pairs_bytes.
  - apply toLowerCase_lower_hex, Hs.
  - rewrite toLowerCase_length. exact Hev.
Qed.

Lemma hex_round_trip_witness :
  is_hex_string "A1b2C3d4E5f60708" = true /\
  Nat.even (String.length "A1b2C3d4E5f60708") = true /\
  hexToBytes (bytesToHex [xa1; x00; xff]) = Ok [xa1; x00; xff] /\
  exists decoded,
    hexToBytes "A1b2C3d4E5f60708" = Ok decoded /\
    bytesToHex decoded = toLowerCase "A1b2C3d4E5f60708".
Proof.
  split; [reflexivity|]. split; [reflexivity|].
  split.
  - apply (hex_round_trip [xa1; x00; xff] "").
  - apply (hex_round_trip [] "A1b2C3d4E5f60708"); reflexivity.
Defined.

(** C4. For a nonce that decodes to exactly 16 bytes and a decimal
    timestamp below 2^64, [buildMessage] returns 24 bytes: the nonce, then
    the eight bytes that denote the timestamp in big-endian order, the
    only eight bytes that do; with the timestamp 1700000000000 these are
    00 00 01 8b cf e5 68 00. *)
Theorem buildMessage_canonical (nonceHex tsMs : string) (nonce : list byte) :
  hexToBytes nonceHex = Ok nonce -> length nonce = 16%nat ->
  is_decimal tsMs = true -> decimal_value tsMs < 2 ^ 64 ->
  exists ts,
    buildMessage nonceHex tsMs = Ok (nonce ++ ts)%list /\
    length (nonce ++ ts)%list = 24%nat /\
    length ts = 8%nat /\
    be_value ts = decimal_value tsMs /\
    (forall field, length field = 8%nat ->
                   be_value field = decimal_value tsMs -> field = ts) /\
    (tsMs = "1700000000000" ->
     ts = [x00; x00; x01; x8b; xcf; xe5; x68; x00] /\
     be_value ts = 1700000000000).
Proof.
  intros Hhex Hlen Hdec Hlt.
  destruct (buildMessage_decimal _ _ _ Hhex Hlen Hdec)
    as (ts & Hu & Hmsg & Hl & Hv).
  exists ts. split; [exact Hmsg|].
  split; [rewrite length_app, Hlen, Hl; reflexivity|].
  split; [exact Hl|].
  assert (Hval : be_value ts = decimal_value tsMs).
  { rewrite Hv. apply Z.mod_small. split; [|exact Hlt].
    apply decimal_value_nonneg, Hdec. }
  split; [exact Hval|].
  split; [intros field Hfl Hfv; apply be_value_inj; congruence|].
  intros ->. rewrite u64StringTo8BE_decimal in Hu by reflexivity.
  injection Hu as <-. split; reflexivity.
Qed.

Lemma buildMessage_canonical_witness :
  hexToBytes Demo.nonce = Ok Demo.nonce_bytes /\
  length Demo.nonce_bytes = 16%nat /\
  is_decimal "1700000000000" = true /\
  decimal_value "1700000000000" < 2 ^ 64 /\
  exists ts,
    buildMessage Demo.nonce "1700000000000" = Ok (Demo.nonce_bytes ++ ts)%list /\
    length (Demo.nonce_bytes ++ ts)%list = 24%nat /\
    length ts = 8%nat /\
    be_value ts = decimal_value "1700000000000" /\
    (forall field, length field = 8%nat ->
                   be_value field = decimal_value "1700000000000" ->
                   field = ts) /\
    ("1700000000000" = "1700000000000" ->
     ts = [x00; x00; x01; x8b; xcf; xe5; x68; x00] /\
     be_value ts = 1700000000000).
Proof.
  split; [reflexivity|]. split; [reflexivity|]. split; [reflexivity|].
  split; [reflexivity|].
  apply (buildMessage_canonical Demo.nonce "1700000000000" Demo.nonce_bytes);
    reflexivity.
Defined.

(** C10. On a string of decimal digits [u64StringTo8BE] returns the eight
    big-endian bytes of the value modulo 2^64: a value of 2^64 or more is
    reduced, not refused, so two timestamps congruent modulo 2^64 give
    the same field and the same canonical message. *)
Theorem u64StringTo8BE_wraps (msStr other nonceHex : string) :
  is_decimal msStr = true ->
  (exists ts,
     u64StringTo8BE msStr = Ok ts /\ length ts = 8%nat /\
     be_value ts = decimal_value msStr mod 2 ^ 64) /\
  (is_decimal other = true ->
   decimal_value other mod 2 ^ 64 = decimal_value msStr mod 2 ^ 64 ->
   u64StringTo8BE other = u64StringTo8BE msStr /\
   buildMessage nonceHex other = buildMessage nonceHex msStr).
Proof.
  intros Hdec. split.
  - exists (map (u64_byte (decimal_value msStr)) (seq 0 8)).
    split; [apply u64StringTo8BE_decimal, Hdec|].
    split; [reflexivity|apply u64_be_value].
  - intros Hother Hcong.
    assert (Heq : u64StringTo8BE other = u64StringTo8BE msStr).
    { rewrite !u64StringTo8BE_decimal by assumption.
      f_equal. apply u64_bytes_congruent, Hcong. }
    split; [exact Heq|]. unfold buildMessage. rewrite Heq. reflexivity.
Qed.

Lemma u64StringTo8BE_wraps_witness :
  is_decimal "5" = true /\
  is_decimal "18446744073709551621" = true /\
  decimal_value "18446744073709551621" mod 2 ^ 64
  = decimal_value "5" mod 2 ^ 64 /\
  (exists ts,
     u64StringTo8BE "5" = Ok ts /\ length ts = 8%nat /\
     be_value ts = decimal_value "5" mod 2 ^ 64) /\
  u64StringTo8BE "18446744073709551621" = u64StringTo8BE "5" /\
  buildMessage Demo.nonce "18446744073709551621"
  = buildMessage Demo.nonce "5".
Proof.
  split; [reflexivity|]. split; [reflexivity|]. split; [reflexivity|].
  pose proof (u64StringTo8BE_wraps "5" "18446744073709551621" Demo.nonce
                eq_refl) as [Hfield Hsame].
  split; [exact Hfield|]. apply Hsame; reflexivity.
Defined.

(** C3, as the spec states it, fails: a timestamp that denotes 2^64 and
    a timestamp with the letter [x] in it both give a message. *)
Lemma buildMessage_takes_bad_timestamps :
  is_decimal "18446744073709551616" = true /\
  decimal_value "18446744073709551616" = 2 ^ 64 /\
  buildMessage Demo.nonce "18446744073709551616"
  = Ok (Demo.nonce_bytes ++ [x00; x00; x00; x00; x00; x00; x00; x00])%list /\
  is_decimal "0x10" = false /\
  buildMessage Demo.nonce "0x10"
  = Ok (Demo.nonce_bytes ++ [x00; x00; x00; x00; x00; x00; x00; x10])%list.
Proof. repeat split; reflexivity. Qed.

(** C3, amended. [buildMessage] has no check of the timestamp of its
    own, no error for an invalid timestamp and no 64-bit bound. Given a
    nonce of 16 bytes it fails on a timestamp exactly when [BigInt]
    refuses the string, and then with the [SyntaxError] of [BigInt]; every
    string with a character that is not a hex digit, white space, a sign
    or one of x, X, o, O is refused. For every string that [BigInt] reads
    the field holds the number modulo 2^64; a string of decimal digits is
    always read, whatever the size of the number. At the endpoint a
    timestamp with a character that is not a digit is refused before, by
    the validation. *)
Theorem timestamp_not_validated (nonceHex tsMs : string) (nonce : list byte) :
  hexToBytes nonceHex = Ok nonce -> length nonce = 16%nat ->
  (is_decimal tsMs = true ->
   exists ts,
     buildMessage nonceHex tsMs = Ok (nonce ++ ts)%list /\
     length ts = 8%nat /\
     be_value ts = decimal_value tsMs mod 2 ^ 64) /\
  (forall n,
     StringToBigInt tsMs = Some n ->
     exists ts,
       buildMessage nonceHex tsMs = Ok (nonce ++ ts)%list /\
       length ts = 8%nat /\
       be_value ts = n mod 2 ^ 64) /\
  (StringToBigInt tsMs = None ->
   buildMessage nonceHex tsMs
   = Throw (SyntaxError ("Cannot convert " ++ tsMs ++ " to a BigInt"))) /\
  (all_chars is_BigInt_char tsMs = false ->
   buildMessage nonceHex tsMs
   = Throw (SyntaxError ("Cannot convert " ++ tsMs ++ " to a BigInt"))) /\
  (forall e,
     buildMessage nonceHex tsMs = Throw e ->
     is_decimal tsMs = false /\ StringToBigInt tsMs = None /\
     e = SyntaxError ("Cannot convert " ++ tsMs ++ " to a BigInt")) /\
  (is_decimal tsMs = false ->
   forall ed25519 (REG : gmap string string) body,
     body_tsMs body = tsMs ->
     post_api_verify ed25519 REG body = Throw (ZodError (zod_issues body)) /\
     In "tsMs" (zod_issues body)).
Proof.
  intros Hhex Hlen.
  assert (Hrefused : StringToBigInt tsMs = None ->
            buildMessage nonceHex tsMs
            = Throw (SyntaxError ("Cannot convert " ++ tsMs
                                    ++ " to a BigInt"))).
  { intros Hnone. unfold buildMessage, u64StringTo8BE, BigInt.
    rewrite Hhex, Hnone. cbn [Js.bind]. rewrite Hlen. reflexivity. }
  split; [|split; [|split; [|split; [|split]]]].
  - intros Hdec.
    destruct (buildMessage_decimal _ _ _ Hhex Hlen Hdec)
      as (ts & _ & Hmsg & Hl & Hv).
    exists ts. auto.
  - intros n Hn. exists (map (u64_byte n) (seq 0 8)).
    split; [|split; [reflexivity|apply u64_be_value]].
    apply buildMessage_bytes; [exact Hhex|exact Hlen|].
    unfold BigInt. rewrite Hn. reflexivity.
  - exact Hrefused.
  - intros Hchars. apply Hrefused.
    destruct (StringToBigInt tsMs) as [n|] eqn:Hn; [|reflexivity].
    rewrite (StringToBigInt_chars _ _ Hn) in Hchars. discriminate Hchars.
  - intros e He.
    destruct (buildMessage_throws _ _ _ _ Hhex Hlen He) as [Hnone ->].
    split; [|split; [exact Hnone|reflexivity]].
    destruct (is_decimal tsMs) eqn:Hdec; [|reflexivity].
    rewrite (StringToBigInt_decimal _ Hdec) in Hnone. discriminate Hnone.
  - intros Hdec ed25519 REG body <-.
    destruct (not_decimal_zod body Hdec) as [Hzod Hin].
    split; [|exact Hin].
    unfold post_api_verify. rewrite Hzod. reflexivity.
Qed.

Lemma timestamp_not_validated_witness :
  hexToBytes Demo.nonce = Ok Demo.nonce_bytes /\
  length Demo.nonce_bytes = 16%nat /\
  is_decimal "18446744073709551617" = true /\
  (exists ts,
     buildMessage Demo.nonce "18446744073709551617"
     = Ok (Demo.nonce_bytes ++ ts)%list /\
     length ts = 8%nat /\
     be_value ts = decimal_value "18446744073709551617" mod 2 ^ 64) /\
  StringToBigInt "12a" = None /\
  buildMessage Demo.nonce "12a"
  = Throw (SyntaxError "Cannot convert 12a to a BigInt") /\
  all_chars is_BigInt_char "1.5" = false /\
  buildMessage Demo.nonce "1.5"
  = Throw (SyntaxError "Cannot convert 1.5 to a BigInt") /\
  StringToBigInt "0x10" = Some 16 /\
  exists ts,
    buildMessage Demo.nonce "0x10" = Ok (Demo.nonce_bytes ++ ts)%list /\
    length ts = 8%nat /\
    be_value ts = 16 mod 2 ^ 64.
Proof.
  split; [reflexivity|]. split; [reflexivity|]. split; [reflexivity|].
  split.
  { apply (timestamp_not_validated Demo.nonce "18446744073709551617"
             Demo.nonce_bytes eq_refl eq_refl).
    reflexivity. }
  split; [reflexivity|]. split.
  { pose proof (timestamp_not_validated Demo.nonce "12a" Demo.nonce_bytes
                  eq_refl eq_refl) as (_ & _ & Hrefused & _).
    exact (Hrefused eq_refl). }
  split; [reflexivity|]. split.
  { pose proof (timestamp_not_validated Demo.nonce "1.5" Demo.nonce_bytes
                  eq_refl eq_refl) as (_ & _ & _ & Hchars & _).
    exact (Hchars eq_refl). }
  split; [reflexivity|].
  pose proof (timestamp_not_validated Demo.nonce "0x10" Demo.nonce_bytes
                eq_refl eq_refl) as (_ & Hread & _).
  exact (Hread 16 eq_refl).
Defined.

(** C9, as the spec states it, fails: the nonce has 32 characters, not
    33, decodes to 16 bytes, and the message is built. *)
Lemma buildMessage_takes_the_example_nonce :
  String.length "00112233445566778899aabbccddeeff" = 32%nat /\
  is_decimal "1700000000000" = true /\
  buildMessage "00112233445566778899aabbccddeeff" "1700000000000"
  = Ok [x00; x11; x22; x33; x44; x55; x66; x77;
        x88; x99; xaa; xbb; xcc; xdd; xee; xff;
        x00; x00; x01; x8b; xcf; xe5; x68; x00].
Proof. repeat split; reflexivity. Qed.

(** C9, amended. The nonce "00112233445566778899aabbccddeeff" has 32 hex
    characters: for every decimal timestamp [buildMessage] returns the
    message that starts with its 16 bytes. With one more character the
    nonce has 33 and is refused as invalid hex, because its length is
    odd; a nonce of hex digits of another even length is refused by the
    length check. *)
Theorem example_nonce_builds (tsMs nonceHex : string) (c : ascii) :
  (is_decimal tsMs = true ->
   exists ts,
     buildMessage "00112233445566778899aabbccddeeff" tsMs
     = Ok (Demo.nonce_bytes ++ ts)%list /\
     length ts = 8%nat /\
     be_value ts = decimal_value tsMs mod 2 ^ 64) /\
  buildMessage ("00112233445566778899aabbccddeeff" ++ String c "") tsMs
  = Throw (Error "invalid hex") /\
  (is_hex_string nonceHex = true ->
   Nat.even (String.length nonceHex) = true ->
   String.length nonceHex <> 32%nat ->
   buildMessage nonceHex tsMs = Throw (Error "nonce must be exactly 16 bytes")).
Proof.
  split; [|split].
  - intros Hdec.
    destruct (buildMessage_decimal "00112233445566778899aabbccddeeff" tsMs
                Demo.nonce_bytes eq_refl eq_refl Hdec)
      as (ts & _ & Hmsg & Hl & Hv).
    exists ts. auto.
  - unfold buildMessage. rewrite hexToBytes_odd; [reflexivity|].
    rewrite length_append. reflexivity.
  - intros Hs Hev Hne. unfold buildMessage.
    rewrite (hexToBytes_hex _ Hs Hev). cbn [Js.bind].
    rewrite pairs_bytes_length, toLowerCase_length.
    destruct (Nat.eqb_spec (String.length nonceHex / 2) 16) as [Heq|_];
      [|reflexivity].
    exfalso. apply Hne.
    apply Nat.even_spec in Hev. destruct Hev as [k Hk].
    rewrite Hk in Heq |- *.
    replace (2 * k)%nat with (0 + k * 2)%nat in Heq by lia.
    rewrite Nat.div_add in Heq by lia. cbn in Heq. lia.
Qed.

Lemma example_nonce_builds_witness :
  is_decimal "1700000000000" = true /\
  is_hex_string "0011" = true /\
  Nat.even (String.length "0011") = true /\
  String.length "0011" <> 32%nat /\
  (exists ts,
     buildMessage "00112233445566778899aabbccddeeff" "1700000000000"
     = Ok (Demo.nonce_bytes ++ ts)%list /\
     length ts = 8%nat /\
     be_value ts = decimal_value "1700000000000" mod 2 ^ 64) /\
  buildMessage "0011" "1700000000000"
  = Throw (Error "nonce must be exactly 16 bytes").
Proof.
  split; [reflexivity|]. split; [reflexivity|]. split; [reflexivity|].
  split; [discriminate|].
  pose proof (example_nonce_builds "1700000000000" "0011" "0")
    as (Hbuilds & _ & Hlength).
  split; [apply Hbuilds; reflexivity|].
  apply Hlength; [reflexivity|reflexivity|discriminate].
Defined.

(** ** Registry and verification endpoint *)

(** C1, as the spec states it, fails: a request whose timestamp denotes
    2^64 + 1700000000000, a number that no eight bytes encode, is accepted
    on a signature that is valid for the message of the timestamp
    1700000000000 and for no other message; and the answer to a request
    whose signature is refused is [{ ok: false }] with status 200, without
    the reason [invalid_signature]. *)
Lemma verify_accepts_wrapped_timestamp :
  reachable Demo.REG /\ valid_body Demo64.body = true /\
  getPublicKeyHex Demo.REG (body_beaconIdHex Demo64.body)
  = Some Demo.public_key /\
  body_nonceHex Demo64.body = Demo.nonce /\
  decimal_value (body_tsMs Demo64.body) = 2 ^ 64 + 1700000000000 /\
  (forall field, length field = 8%nat ->
                 be_value field <> decimal_value (body_tsMs Demo64.body)) /\
  (forall msg sig pub,
     Demo64.accepts_signed_message msg sig pub = true ->
     buildMessage Demo.nonce "1700000000000" = Ok msg) /\
  post_api_verify Demo64.accepts_signed_message Demo.REG Demo64.body
  = Ok {| reply_status := 200; reply_ok := true; reply_error := None |} /\
  post_api_verify Demo.rejects Demo.REG Demo.body
  = Ok {| reply_status := 200; reply_ok := false; reply_error := None |}.
Proof.
  split; [apply reachable_load, reachable_init|].
  split; [reflexivity|]. split; [reflexivity|]. split; [reflexivity|].
  split; [reflexivity|]. split; [|split; [|split; reflexivity]].
  - intros field Hlen Heq.
    pose proof (be_value_range field) as Hrange.
    rewrite Hlen, Heq in Hrange.
    change (decimal_value (body_tsMs Demo64.body))
      with (2 ^ 64 + 1700000000000) in Hrange.
    change (256 ^ Z.of_nat 8) with (2 ^ 64) in Hrange. lia.
  - intros msg sig pub Hacc. unfold Demo64.accepts_signed_message in Hacc.
    apply String.eqb_eq in Hacc.
    pose proof (hexToBytes_bytesToHex msg) as Hdec. rewrite Hacc in Hdec.
    rewrite <- Hdec. reflexivity.
Qed.

(** C1, amended. A request that passes the input validation and names a
    registered beacon is answered with status 200 and [ok = true] exactly
    when Ed25519 accepts the 64-byte signature, under the registered key,
    for the 24-byte message made of the nonce of the request and the eight
    big-endian bytes of its timestamp reduced modulo 2^64; otherwise the
    answer is [{ ok: false }], also with status 200 and without a reason
    code. *)
Theorem verify_accepts_iff_signature_valid
    (ed25519 : list byte -> list byte -> list byte -> bool)
    (REG : gmap string string) (body : VerifyBody) (pubHex : string) :
  reachable REG -> valid_body body = true ->
  getPublicKeyHex REG (body_beaconIdHex body) = Some pubHex ->
  exists (nonce ts sig pub : list byte) (reply : Reply),
    hexToBytes (body_nonceHex body) = Ok nonce /\ length nonce = 16%nat /\
    u64StringTo8BE (body_tsMs body) = Ok ts /\ length ts = 8%nat /\
    be_value ts = decimal_value (body_tsMs body) mod 2 ^ 64 /\
    buildMessage (body_nonceHex body) (body_tsMs body) = Ok (nonce ++ ts)%list /\
    length (nonce ++ ts)%list = 24%nat /\
    hexToBytes (body_sigHex body) = Ok sig /\ length sig = 64%nat /\
    hexToBytes pubHex = Ok pub /\ length pub = 32%nat /\
    post_api_verify ed25519 REG body = Ok reply /\
    reply_status reply = 200%nat /\ reply_error reply = None /\
    (reply_ok reply = true <-> ed25519 (nonce ++ ts)%list sig pub = true) /\
    (reply_ok reply = false <-> ed25519 (nonce ++ ts)%list sig pub = false).
Proof.
  intros Hreach Hvalid Hlook.
  destruct (post_api_verify_registered ed25519 REG body pubHex
              (reachable_ok REG Hreach) Hvalid Hlook)
    as (nonce & sig & pub & Hn & Hnl & Hs & Hsl & Hp & Hpl & Hmsg & Hpost).
  cbv zeta in Hmsg, Hpost.
  assert (Hdec : is_decimal (body_tsMs body) = true).
  { apply re_digits_plus_decimal. unfold valid_body in Hvalid.
    destruct (re_digits_plus (body_tsMs body)); [reflexivity|].
    rewrite andb_false_r in Hvalid. discriminate Hvalid. }
  set (ts := map (u64_byte (decimal_value (body_tsMs body))) (seq 0 8)) in *.
  exists nonce, ts, sig, pub,
    {| reply_status := 200; reply_ok := ed25519 (nonce ++ ts)%list sig pub;
       reply_error := None |}.
  split; [exact Hn|]. split; [exact Hnl|].
  split; [apply u64StringTo8BE_decimal, Hdec|].
  split; [reflexivity|]. split; [apply u64_be_value|].
  split; [exact Hmsg|].
  split; [rewrite length_app, Hnl; reflexivity|].
  split; [exact Hs|]. split; [exact Hsl|].
  split; [exact Hp|]. split; [exact Hpl|].
  split; [exact Hpost|]. cbn [reply_status reply_error reply_ok].
  repeat split; auto.
Qed.

Lemma verify_accepts_iff_signature_valid_witness :
  reachable Demo.REG /\ valid_body Demo.body = true /\
  getPublicKeyHex Demo.REG (body_beaconIdHex Demo.body)
  = Some Demo.public_key /\
  post_api_verify Demo.accepts Demo.REG Demo.body
  = Ok {| reply_status := 200; reply_ok := true; reply_error := None |} /\
  post_api_verify Demo.rejects Demo.REG Demo.body
  = Ok {| reply_status := 200; reply_ok := false; reply_error := None |}.
Proof.
  assert (Hreach : reachable Demo.REG)
    by (apply reachable_load, reachable_init).
  split; [exact Hreach|]. split; [reflexivity|]. split; [reflexivity|].
  split.
  - destruct (verify_accepts_iff_signature_valid Demo.accepts Demo.REG
                Demo.body Demo.public_key Hreach eq_refl eq_refl)
      as (nonce & ts & sig & pub & [st okb er] & H).
    destruct H as (_ & _ & _ & _ & _ & _ & _ & _ & _ & _ & _ & Hp & Hst
                   & Her & Hok & _).
    cbn in Hst, Her, Hok. rewrite Hp. subst st er.
    destruct okb; [reflexivity|].
    destruct Hok as [_ Hok]. discriminate (Hok eq_refl).
  - destruct (verify_accepts_iff_signature_valid Demo.rejects Demo.REG
                Demo.body Demo.public_key Hreach eq_refl eq_refl)
      as (nonce & ts & sig & pub & [st okb er] & H).
    destruct H as (_ & _ & _ & _ & _ & _ & _ & _ & _ & _ & _ & Hp & Hst
                   & Her & _ & Hok).
    cbn in Hst, Her, Hok. rewrite Hp. subst st er.
    destruct okb; [|reflexivity].
    destruct Hok as [_ Hok]. discriminate (Hok eq_refl).
Defined.

(** C2, as the spec states it, fails: a load that stops at a malformed
    entry leaves neither the registry it found nor the full new one. The
    beacon that was registered is gone, and the well-formed entry in front
    of the malformed one can be looked up. *)
Lemma failed_load_changes_registry :
  existsb malformed Demo.bad_source = true /\
  getPublicKeyHex Demo.REG Demo.beacon_id = Some Demo.public_key /\
  let after := loadBeaconRegistry (Entries Demo.bad_source) Demo.REG in
  fst after
  = Throw (Error "Bad beaconIdHex: a1b2c3d4e5f6070 (expect 16 hex chars)") /\
  snd after <> Demo.REG /\
  getPublicKeyHex (snd after) Demo.beacon_id = None /\
  getPublicKeyHex (snd after) Demo.second_id = Some Demo.public_key.
Proof.
  split; [reflexivity|]. split; [reflexivity|].
  cbv zeta. split; [reflexivity|].
  split; [|split; reflexivity].
  intros Heq.
  assert (H : getPublicKeyHex
                (snd (loadBeaconRegistry (Entries Demo.bad_source) Demo.REG))
                Demo.beacon_id
              = getPublicKeyHex Demo.REG Demo.beacon_id)
    by (rewrite Heq; reflexivity).
  vm_compute in H. discriminate H.
Qed.

(** C2, amended. For a registry source with a malformed entry
    [loadBeaconRegistry] fails. The failure does not restore the map: it
    was emptied at the start of the load and holds the entries in front
    of the first malformed one, each in the stored format. The server
    loads once, at start-up, and does not come up when that load fails. *)
Theorem malformed_entry_aborts_load (obj : list (string * string))
    (REG : gmap string string) :
  existsb malformed obj = true ->
  exists message,
    loadBeaconRegistry (Entries obj) REG
    = (Throw (Error message), stored (good_prefix obj)) /\
    registry_ok (stored (good_prefix obj)) /\
    main (Entries obj) = Exited (Error message).
Proof.
  intros Hbad.
  destruct (load_entries_throws obj ∅ Hbad) as [message Hthrow].
  pose proof (load_entries_state obj ∅) as Hstate.
  exists message.
  assert (Hload : forall R, loadBeaconRegistry (Entries obj) R
                   = (Throw (Error message), stored (good_prefix obj))).
  { intros R. cbn [loadBeaconRegistry].
    destruct (load_entries obj ∅) as [r m]. cbn [fst snd] in *.
    subst r m. reflexivity. }
  split; [apply Hload|]. split.
  - unfold stored. rewrite <- Hstate.
    apply load_entries_ok, registry_ok_empty.
  - unfold main. rewrite Hload. reflexivity.
Qed.

Lemma malformed_entry_aborts_load_witness :
  existsb malformed Demo.bad_source = true /\
  exists message,
    loadBeaconRegistry (Entries Demo.bad_source) Demo.REG
    = (Throw (Error message), stored (good_prefix Demo.bad_source)) /\
    registry_ok (stored (good_prefix Demo.bad_source)) /\
    main (Entries Demo.bad_source) = Exited (Error message).
Proof.
  split; [reflexivity|].
  apply (malformed_entry_aborts_load Demo.bad_source Demo.REG).
  reflexivity.
Defined.

(** C5, as the spec states it, fails: the answer to a request whose
    signature does not verify is [{ ok: false }] with status 200, and it
    has no [error] field. *)
Lemma rejected_signature_has_no_reason :
  reachable Demo.REG /\ valid_body Demo.body = true /\
  post_api_verify Demo.rejects Demo.REG Demo.body
  = Ok {| reply_status := 200; reply_ok := false; reply_error := None |}.
Proof.
  split; [apply reachable_load, reachable_init|].
  split; reflexivity.
Qed.

(** C5, amended. The handler answers a request for an unknown beacon
    with status 400, [ok = false] and the reason code [unknown_beacon]. It
    answers a request for a registered beacon with status 200 and the
    verdict in [ok], without a reason code, also when the signature is
    refused. Malformed input is not answered by the handler: the
    validation throws before any lookup or cryptographic work, which
    keeps it apart from both answers. *)
Theorem verify_answers
    (ed25519 : list byte -> list byte -> list byte -> bool)
    (REG : gmap string string) (body : VerifyBody) :
  reachable REG ->
  match post_api_verify ed25519 REG body with
  | Throw e =>
      valid_body body = false /\ e = ZodError (zod_issues body) /\
      zod_issues body <> []
  | Ok reply =>
      valid_body body = true /\
      match getPublicKeyHex REG (body_beaconIdHex body) with
      | None =>
          reply = {| reply_status := 400; reply_ok := false;
                     reply_error := Some "unknown_beacon" |}
      | Some pubHex =>
          exists msg sig pub : list byte,
            buildMessage (body_nonceHex body) (body_tsMs body) = Ok msg /\
            hexToBytes (body_sigHex body) = Ok sig /\
            hexToBytes pubHex = Ok pub /\
            reply = {| reply_status := 200;
                       reply_ok := ed25519 msg sig pub;
                       reply_error := None |}
      end
  end.
Proof.
  intros Hreach.
  destruct (valid_body body) eqn:Hvalid.
  - destruct (getPublicKeyHex REG (body_beaconIdHex body)) as [pubHex|]
      eqn:Hlook.
    + destruct (post_api_verify_registered ed25519 REG body pubHex
                  (reachable_ok REG Hreach) Hvalid Hlook)
        as (nonce & sig & pub & _ & _ & Hs & _ & Hp & _ & Hmsg & Hpost).
      cbv zeta in Hmsg, Hpost. rewrite Hpost.
      split; [reflexivity|].
      eexists _, sig, pub.
      split; [exact Hmsg|]. split; [exact Hs|]. split; [exact Hp|].
      reflexivity.
    + rewrite (post_api_verify_unknown ed25519 REG body Hvalid Hlook).
      split; reflexivity.
  - rewrite (post_api_verify_invalid ed25519 REG body Hvalid).
    destruct (invalid_body_zod body Hvalid) as [_ Hne].
    split; [reflexivity|]. split; [reflexivity|exact Hne].
Qed.

Lemma verify_answers_witness :
  reachable Demo.REG /\
  match post_api_verify Demo.rejects Demo.REG Demo.body with
  | Throw e =>
      valid_body Demo.body = false /\ e = ZodError (zod_issues Demo.body) /\
      zod_issues Demo.body <> []
  | Ok reply =>
      valid_body Demo.body = true /\
      match getPublicKeyHex Demo.REG (body_beaconIdHex Demo.body) with
      | None =>
          reply = {| reply_status := 400; reply_ok := false;
                     reply_error := Some "unknown_beacon" |}
      | Some pubHex =>
          exists msg sig pub : list byte,
            buildMessage (body_nonceHex Demo.body) (body_tsMs Demo.body)
            = Ok msg /\
            hexToBytes (body_sigHex Demo.body) = Ok sig /\
            hexToBytes pubHex = Ok pub /\
            reply = {| reply_status := 200;
                       reply_ok := Demo.rejects msg sig pub;
                       reply_error := None |}
      end
  end.
Proof.
  assert (Hreach : reachable Demo.REG)
    by (apply reachable_load, reachable_init).
  split; [exact Hreach|].
  exact (verify_answers Demo.rejects Demo.REG Demo.body Hreach).
Defined.

(** ** Client session *)

(** C7. When the notification does not have exactly 72 bytes, [onNotify]
    ends with the malformed-response error in [err], leaves the attempt
    not verifying and not verified, and sends nothing: no request reaches
    the verification endpoint, whichever listeners the event runs. *)
Theorem malformed_notification_not_submitted
    (String_of_Number : Z -> string) (closure : string) (raw : list byte)
    (reply : App.VerifyReply) (a : nat) (s : App.State) :
  length raw <> 72%nat ->
  let r := App.onNotify String_of_Number closure raw reply s in
  fst r = Ok tt /\
  App.err (App.view (snd r))
  = "Expected 72B, got " ++ App.String_of_nat (length raw) /\
  App.verifying (App.view (snd r)) = false /\
  App.verified (App.view (snd r)) = App.verified (App.view s) /\
  App.calls (snd r) = App.calls s /\
  filter App.is_POST_api_verify (App.calls (snd r))
  = filter App.is_POST_api_verify (App.calls s) /\
  App.calls
    (snd (App.characteristicvaluechanged String_of_Number a raw reply s))
  = App.calls s.
Proof.
  intros Hlen. cbv zeta.
  rewrite (onNotify_wrong_length String_of_Number closure raw reply s Hlen).
  cbn [fst snd]. repeat (split; [reflexivity|]).
  unfold App.characteristicvaluechanged.
  destruct (App.heap s !! a) as [g|]; [|reflexivity].
  apply (run_listeners_wrong_length String_of_Number (App.listeners g) raw
           reply s Hlen).
Qed.

Lemma malformed_notification_not_submitted_witness :
  length (repeat x2a 70) <> 72%nat /\
  let r := App.onNotify Demo.String_of_Number Demo.beacon_id
             (repeat x2a 70) (App.ReplyJson true None) Demo.awaiting in
  fst r = Ok tt /\
  App.err (App.view (snd r)) = "Expected 72B, got 70" /\
  App.verifying (App.view (snd r)) = false /\
  App.verified (App.view (snd r)) = None /\
  App.calls (snd r) = App.calls Demo.awaiting /\
  filter App.is_POST_api_verify (App.calls (snd r)) = [] /\
  App.calls
    (snd (App.characteristicvaluechanged Demo.String_of_Number 0
            (repeat x2a 70) (App.ReplyJson true None) Demo.awaiting))
  = App.calls Demo.awaiting.
Proof.
  split; [discriminate|].
  apply (malformed_notification_not_submitted Demo.String_of_Number
           Demo.beacon_id (repeat x2a 70) (App.ReplyJson true None) 0%nat
           Demo.awaiting).
  discriminate.
Defined.

(** C6, as the spec states it, fails: after the disconnect of a session
    that awaits its notification, the nonce slot still holds the nonce and
    the listener is still registered on the response characteristic; the
    notification that arrives then is submitted with that nonce. *)
Lemma disconnect_keeps_nonce_and_listener :
  App.nonceRef (App.refs Demo.awaiting) = Demo.nonce /\
  let s := snd (App.disconnectBeacon Demo.awaiting) in
  App.nonceRef (App.refs s) = Demo.nonce /\
  App.listeners <$> App.heap s !! 0%nat = Some [Demo.beacon_id] /\
  App.calls
    (snd (App.characteristicvaluechanged Demo.String_of_Number 0
            Demo.notification (App.ReplyJson false None) s))
  = (App.calls s ++
       [App.POST_api_verify
          {| body_beaconIdHex := Demo.beacon_id;
             body_nonceHex := Demo.nonce;
             body_tsMs := "1700000000000";
             body_sigHex := bytesToHex (repeat x2a 64) |}])%list.
Proof.
  cbv zeta. split; [|split; [|split]]; vm_compute; reflexivity.
Qed.

(** C6, amended. The explicit disconnect drops the connection handle,
    after disconnecting the link when it is still connected, clears the
    flag that records the subscription, so that the next attempt
    subscribes anew, and clears the displayed beacon, nonce, timestamp,
    signature, verdict and error. It sends nothing else. *)
Theorem disconnect_resets_session (s : App.State) :
  let r := App.disconnectBeacon s in
  fst r = Ok tt /\
  App.conn (App.refs (snd r)) = None /\
  App.notifyAttached (App.refs (snd r)) = false /\
  App.view (snd r)
  = {| App.deviceName := ""; App.beaconIdHex := ""; App.nonceHex := "";
       App.tsMs := ""; App.sigHex := ""; App.verified := None;
       App.err := "";
       App.connecting := App.connecting (App.view s);
       App.verifying := App.verifying (App.view s) |} /\
  (forall a, App.conn (App.refs s) = Some a ->
             App.gatt_is_connected (snd r) a = false) /\
  (App.calls (snd r) = App.calls s \/
   App.calls (snd r) = (App.calls s ++ [App.gatt_disconnect])%list).
Proof.
  cbv zeta. rewrite disconnectBeacon_run. cbn [fst snd App.refs App.view
    App.conn App.notifyAttached App.calls].
  repeat (split; [reflexivity|]). split.
  - intros a Ha. rewrite Ha. unfold App.gatt_is_connected. cbn [App.heap].
    destruct (App.heap s !! a) as [g|] eqn:Hg.
    + destruct (App.connected g) eqn:Hc.
      * rewrite list_lookup_alter. case_decide; [|congruence].
        rewrite Hg. reflexivity.
      * rewrite Hg. exact Hc.
    + rewrite Hg. reflexivity.
  - destruct (App.conn (App.refs s)) as [a|]; [|left; reflexivity].
    destruct (App.gatt_is_connected s a); [right|left]; reflexivity.
Qed.

(** * Further properties of the code *)

(** ** The hex codec *)

Lemma even_mod2 (n : nat) : Nat.eqb (n mod 2) 0 = Nat.even n.
Proof.
  destruct (Nat.even n) eqn:He.
  - apply Nat.even_spec in He. destruct He as [k ->].
    replace (2 * k)%nat with (0 + k * 2)%nat by lia.
    rewrite Nat.Div0.mod_add. reflexivity.
  - assert (Ho : Nat.odd n = true) by (unfold Nat.odd; rewrite He; reflexivity).
    apply Nat.odd_spec in Ho. destruct Ho as [k ->].
    replace (2 * k + 1)%nat with (1 + k * 2)%nat by lia.
    rewrite Nat.Div0.mod_add. reflexivity.
Qed.

Lemma lower_lower (c : ascii) : lower (lower c) = lower c.
Proof. destruct c as [[] [] [] [] [] [] [] []]; reflexivity. Qed.

Lemma toLowerCase_idempotent (s : string) :
  toLowerCase (toLowerCase s) = toLowerCase s.
Proof.
  induction s as [|c r IH]; [reflexivity|].
  cbn [toLowerCase]. rewrite lower_lower, IH. reflexivity.
Qed.

Lemma is_hex_string_lower (s : string) :
  is_hex_string (toLowerCase s) = is_hex_string s.
Proof.
  unfold is_hex_string. destruct (all_chars is_hex s) eqn:Hs.
  - apply (all_chars_impl is_lower_hex); [apply is_lower_hex_is_hex|].
    apply toLowerCase_lower_hex, Hs.
  - apply toLowerCase_not_hex in Hs. unfold re_lower_hex_star in Hs.
    destruct (all_chars is_hex (toLowerCase s)) eqn:Hl; [|reflexivity].
    exfalso. revert Hs Hl. clear.
    induction s as [|c r IH]; [discriminate|].
    cbn [toLowerCase all_chars].
    intros H1 H2. apply andb_true_iff in H2 as [Hc Hr].
    destruct (is_lower_hex (lower c)) eqn:Hlc.
    + apply IH; [exact H1|exact Hr].
    + destruct (is_hex c) eqn:Hhc.
      * rewrite (lower_hex_is_lower_hex c Hhc) in Hlc. discriminate Hlc.
      * revert Hc Hlc. clear.
        destruct c as [[] [] [] [] [] [] [] []]; vm_compute; congruence.
Qed.

Lemma re_hex_n_toLowerCase (n : nat) (s : string) :
  re_hex_n n (toLowerCase s) = re_hex_n n s.
Proof.
  unfold re_hex_n. rewrite toLowerCase_length.
  pose proof (is_hex_string_lower s) as H. unfold is_hex_string in H.
  rewrite H. reflexivity.
Qed.

(** X1. [hexToBytes] fails exactly when the string has a character that
    is not a hex digit or has odd length, always with the one error;
    otherwise it returns half as many bytes as the string has characters,
    and they encode back to the string in lower case. *)
Theorem hexToBytes_outcome (h : string) :
  match hexToBytes h with
  | Ok b =>
      is_hex_string h = true /\ Nat.even (String.length h) = true /\
      length b = (String.length h / 2)%nat /\
      bytesToHex b = toLowerCase h
  | Throw e =>
      e = Error "invalid hex" /\
      (is_hex_string h = false \/ Nat.odd (String.length h) = true)
  end.
Proof.
  rewrite hexToBytes_lower, even_mod2.
  destruct (is_hex_string h) eqn:Hs.
  - rewrite (toLowerCase_lower_hex h Hs). cbn [negb orb].
    destruct (Nat.even (String.length h)) eqn:He; cbn [negb].
    + split; [reflexivity|]. split; [reflexivity|].
      split; [rewrite pairs_bytes_length, toLowerCase_length; reflexivity|].
      apply bytesToHex_pairs_bytes;
        [apply toLowerCase_lower_hex, Hs|rewrite toLowerCase_length; exact He].
    + split; [reflexivity|]. right. unfold Nat.odd. rewrite He. reflexivity.
  - rewrite (toLowerCase_not_hex h Hs). cbn [negb orb].
    split; [reflexivity|]. left. reflexivity.
Qed.

(** X2. [bytesToHex] never fails and writes two lower-case hex digits per
    byte: its result passes the patterns of the endpoints for its length
    and is fixed by lower-casing. *)
Theorem bytesToHex_shape (b : list byte) :
  String.length (bytesToHex b) = (2 * length b)%nat /\
  NonceRoute.re_lower_hex_n (2 * length b) (bytesToHex b) = true /\
  re_hex_n (2 * length b) (bytesToHex b) = true /\
  toLowerCase (bytesToHex b) = bytesToHex b.
Proof.
  pose proof (bytesToHex_length b) as Hl.
  pose proof (bytesToHex_lower_hex b) as Hh.
  split; [exact Hl|].
  split; [unfold NonceRoute.re_lower_hex_n; rewrite Hh, Hl, Nat.eqb_refl;
          reflexivity|].
  split.
  - unfold re_hex_n. rewrite Hl, Nat.eqb_refl, andb_true_r.
    exact (all_chars_impl _ _ _ is_lower_hex_is_hex Hh).
  - apply toLowerCase_fixes_lower_hex, Hh.
Qed.

Lemma hexToBytes_Ok_encode (s : string) (b : list byte) :
  hexToBytes s = Ok b -> bytesToHex b = toLowerCase s.
Proof.
  rewrite hexToBytes_lower, even_mod2.
  destruct (re_lower_hex_star (toLowerCase s)) eqn:Hs; [|discriminate].
  destruct (Nat.even (String.length s)) eqn:He; [|discriminate].
  cbn [negb orb]. intros [= <-].
  apply bytesToHex_pairs_bytes; [exact Hs|].
  rewrite toLowerCase_length. exact He.
Qed.

(** X3. [hexToBytes] does not see the case of the digits, and two strings
    it decodes to the same bytes differ in case only. *)
Theorem hexToBytes_case (s t : string) (b : list byte) :
  hexToBytes (toLowerCase s) = hexToBytes s /\
  (hexToBytes s = Ok b -> hexToBytes t = Ok b ->
   toLowerCase s = toLowerCase t).
Proof.
  split.
  - rewrite !hexToBytes_lower, toLowerCase_idempotent, toLowerCase_length.
    reflexivity.
  - intros Hs Ht.
    rewrite <- (hexToBytes_Ok_encode s b Hs), <- (hexToBytes_Ok_encode t b Ht).
    reflexivity.
Qed.

Lemma hexToBytes_case_witness :
  hexToBytes "A1b2" = Ok [xa1; xb2] /\ hexToBytes "a1B2" = Ok [xa1; xb2] /\
  hexToBytes (toLowerCase "A1b2") = hexToBytes "A1b2" /\
  toLowerCase "A1b2" = toLowerCase "a1B2".
Proof.
  split; [reflexivity|]. split; [reflexivity|].
  pose proof (hexToBytes_case "A1b2" "a1B2" [xa1; xb2]) as [Hlow Hsame].
  split; [exact Hlow|]. apply Hsame; reflexivity.
Defined.

(** ** Timestamp field and canonical message *)

Lemma u64_field_length (n : Z) : length (map (u64_byte n) (seq 0 8)) = 8%nat.
Proof. reflexivity. Qed.

Lemma is_digit_not_sign (c : ascii) :
  is_digit c = true -> c <> "+"%char /\ c <> "-"%char.
Proof.
  intros H. apply is_digit_cases in H. simpl in H.
  repeat (destruct H as [<-|H]; [split; discriminate|]). contradiction.
Qed.

(** A minus sign in front of decimal digits reads as the opposite
    number. *)
Lemma StringToBigInt_negative (d : string) :
  is_decimal d = true -> d <> "" ->
  StringToBigInt (String "-" d) = Some (- decimal_value d).
Proof.
  intros Hd Hne. unfold StringToBigInt.
  rewrite trim_no_space.
  - destruct d as [|c r]; [contradiction|].
    cbn [digits1 option_map]. unfold digits1.
    rewrite (digits_from_decimal _ 0 Hd). cbn [option_map].
    f_equal.
  - cbn [all_chars]. apply andb_true_iff. split; [reflexivity|].
    apply (all_chars_impl is_digit); [|exact Hd].
    intros c Hc. rewrite (is_digit_not_space c Hc). reflexivity.
Qed.

(** X4. [u64StringTo8BE] fails only where [BigInt] refuses the string,
    and otherwise returns exactly eight bytes whose big-endian value is the
    number modulo 2^64. A negative decimal is accepted and stored in
    two's complement. *)
Theorem u64StringTo8BE_outcome (msStr d : string) :
  match u64StringTo8BE msStr with
  | Ok ts =>
      exists n, StringToBigInt msStr = Some n /\ length ts = 8%nat /\
                be_value ts = n mod 2 ^ 64
  | Throw e =>
      StringToBigInt msStr = None /\
      e = SyntaxError ("Cannot convert " ++ msStr ++ " to a BigInt")
  end /\
  (is_decimal d = true -> d <> "" ->
   exists ts, u64StringTo8BE (String "-" d) = Ok ts /\
              be_value ts = (2 ^ 64 - decimal_value d) mod 2 ^ 64).
Proof.
  split.
  - unfold u64StringTo8BE, BigInt.
    destruct (StringToBigInt msStr) as [n|]; cbn [Js.bind].
    + exists n. split; [reflexivity|]. split; [reflexivity|].
      apply u64_be_value.
    + split; reflexivity.
  - intros Hd Hne. unfold u64StringTo8BE, BigInt.
    rewrite (StringToBigInt_negative d Hd Hne). cbn [Js.bind].
    eexists. split; [reflexivity|]. rewrite u64_be_value.
    replace (2 ^ 64 - decimal_value d) with (- decimal_value d + 1 * 2 ^ 64)
      by ring.
    rewrite Z.mod_add by lia. reflexivity.
Qed.

Lemma u64StringTo8BE_outcome_witness :
  is_decimal "1" = true /\ "1" <> "" /\
  exists ts, u64StringTo8BE "-1" = Ok ts /\
             be_value ts = (2 ^ 64 - decimal_value "1") mod 2 ^ 64.
Proof.
  split; [reflexivity|]. split; [discriminate|].
  apply (u64StringTo8BE_outcome "" "1"); [reflexivity|discriminate].
Defined.

Lemma hexToBytes_Ok_inv (h : string) (b : list byte) :
  hexToBytes h = Ok b ->
  is_hex_string h = true /\ Nat.even (String.length h) = true /\
  b = pairs_bytes (toLowerCase h) /\
  length b = (String.length h / 2)%nat.
Proof.
  rewrite hexToBytes_lower, even_mod2.
  destruct (is_hex_string h) eqn:Hs.
  - rewrite (toLowerCase_lower_hex h Hs).
    destruct (Nat.even (String.length h)); [|discriminate].
    cbn [negb orb]. intros [= <-].
    rewrite pairs_bytes_length, toLowerCase_length. repeat split.
  - rewrite (toLowerCase_not_hex h Hs). discriminate.
Qed.

Lemma hexToBytes_Throw_inv (h : string) (e : error) :
  hexToBytes h = Throw e ->
  e = Error "invalid hex" /\
  (is_hex_string h = false \/ Nat.odd (String.length h) = true).
Proof.
  rewrite hexToBytes_lower, even_mod2.
  destruct (is_hex_string h) eqn:Hs.
  - rewrite (toLowerCase_lower_hex h Hs).
    destruct (Nat.even (String.length h)) eqn:He; [discriminate|].
    cbn [negb orb]. intros [= <-]. split; [reflexivity|].
    right. unfold Nat.odd. rewrite He. reflexivity.
  - rewrite (toLowerCase_not_hex h Hs). cbn [negb orb].
    intros [= <-]. split; [reflexivity|left; reflexivity].
Qed.

Lemma even_half_16 (n : nat) :
  Nat.even n = true -> (n / 2 = 16)%nat -> n = 32%nat.
Proof.
  intros He Hh. apply Nat.even_spec in He. destruct He as [k ->].
  replace (2 * k)%nat with (0 + k * 2)%nat in Hh by lia.
  rewrite Nat.div_add in Hh by lia. cbn in Hh. lia.
Qed.

(** X5. The outcomes of [buildMessage]. A result has 24 bytes and needs
    a nonce of 32 hex digits and a timestamp [BigInt] reads. The nonce is
    examined first: a nonce that is not hex or has odd length gives
    "invalid hex", a hex nonce of another even length the length error,
    whatever the timestamp; only then a timestamp [BigInt] refuses gives
    its [SyntaxError]. There is no other error. *)
Theorem buildMessage_outcome (nonceHex tsMs : string) :
  match buildMessage nonceHex tsMs with
  | Ok msg =>
      length msg = 24%nat /\ re_hex_n 32 nonceHex = true /\
      exists n, StringToBigInt tsMs = Some n /\
        msg = (pairs_bytes (toLowerCase nonceHex)
                 ++ map (u64_byte n) (seq 0 8))%list
  | Throw e =>
      (e = Error "invalid hex" /\
       (is_hex_string nonceHex = false \/
        Nat.odd (String.length nonceHex) = true)) \/
      (e = Error "nonce must be exactly 16 bytes" /\
       is_hex_string nonceHex = true /\
       Nat.even (String.length nonceHex) = true /\
       String.length nonceHex <> 32%nat) \/
      (e = SyntaxError ("Cannot convert " ++ tsMs ++ " to a BigInt") /\
       re_hex_n 32 nonceHex = true /\ StringToBigInt tsMs = None)
  end.
Proof.
  unfold buildMessage.
  destruct (hexToBytes nonceHex) as [nonce|e] eqn:Hhex; cbn [Js.bind].
  - destruct (hexToBytes_Ok_inv _ _ Hhex) as (Hs & He & Hb & Hl).
    destruct (Nat.eqb_spec (length nonce) 16) as [H16|Hne]; cbn [negb].
    + assert (Hre : re_hex_n 32 nonceHex = true).
      { unfold re_hex_n. unfold is_hex_string in Hs. rewrite Hs.
        rewrite (even_half_16 _ He); [reflexivity|congruence]. }
      unfold u64StringTo8BE, BigInt.
      destruct (StringToBigInt tsMs) as [n|]; cbn [Js.bind].
      * rewrite (typed_set_fill nonce _ H16 (u64_field_length n)).
        split; [rewrite length_app, H16; reflexivity|].
        split; [exact Hre|]. exists n. split; [reflexivity|].
        rewrite Hb. reflexivity.
      * right. right. repeat split. exact Hre.
    + right. left. split; [reflexivity|]. split; [exact Hs|].
      split; [exact He|]. intros H32. apply Hne. rewrite Hl, H32. reflexivity.
  - left. apply (hexToBytes_Throw_inv _ _ Hhex).
Qed.

Lemma buildMessage_Ok_inv (nonceHex tsMs : string) (msg : list byte) :
  buildMessage nonceHex tsMs = Ok msg ->
  exists nonce n,
    hexToBytes nonceHex = Ok nonce /\ length nonce = 16%nat /\
    StringToBigInt tsMs = Some n /\
    msg = (nonce ++ map (u64_byte n) (seq 0 8))%list.
Proof.
  unfold buildMessage.
  destruct (hexToBytes nonceHex) as [nonce|e] eqn:Hhex; cbn [Js.bind];
    [|discriminate].
  destruct (Nat.eqb_spec (length nonce) 16) as [H16|Hne]; cbn [negb];
    [|discriminate].
  unfold u64StringTo8BE, BigInt.
  destruct (StringToBigInt tsMs) as [n|]; cbn [Js.bind]; [|discriminate].
  rewrite (typed_set_fill nonce _ H16 (u64_field_length n)).
  intros [= <-]. exists nonce, n. repeat split. exact H16.
Qed.

(** X6. The canonical message determines its inputs: two calls of
    [buildMessage] with the same result have nonces that differ in case
    only and timestamps that are equal modulo 2^64. *)
Theorem buildMessage_injective (nonce1 ts1 nonce2 ts2 : string)
    (n1 n2 : Z) (msg : list byte) :
  buildMessage nonce1 ts1 = Ok msg -> buildMessage nonce2 ts2 = Ok msg ->
  StringToBigInt ts1 = Some n1 -> StringToBigInt ts2 = Some n2 ->
  toLowerCase nonce1 = toLowerCase nonce2 /\ n1 mod 2 ^ 64 = n2 mod 2 ^ 64.
Proof.
  intros H1 H2 Hn1 Hn2.
  destruct (buildMessage_Ok_inv _ _ _ H1) as (b1 & m1 & Hb1 & Hl1 & Hm1 & ->).
  destruct (buildMessage_Ok_inv _ _ _ H2) as (b2 & m2 & Hb2 & Hl2 & Hm2 & Heq).
  rewrite Hn1 in Hm1. injection Hm1 as <-.
  rewrite Hn2 in Hm2. injection Hm2 as <-.
  apply app_inj_1 in Heq as [Hb Hts]; [|congruence].
  subst b2. split.
  - rewrite <- (hexToBytes_Ok_encode _ _ Hb1), <- (hexToBytes_Ok_encode _ _ Hb2).
    reflexivity.
  - rewrite <- (u64_be_value n1), <- (u64_be_value n2), Hts. reflexivity.
Qed.

Lemma buildMessage_injective_witness :
  buildMessage "00112233445566778899AABBCCDDEEFF" "007"
  = Ok (Demo.nonce_bytes ++ [x00; x00; x00; x00; x00; x00; x00; x07])%list /\
  buildMessage Demo.nonce "18446744073709551623"
  = Ok (Demo.nonce_bytes ++ [x00; x00; x00; x00; x00; x00; x00; x07])%list /\
  toLowerCase "00112233445566778899AABBCCDDEEFF" = toLowerCase Demo.nonce /\
  7 mod 2 ^ 64 = 18446744073709551623 mod 2 ^ 64.
Proof.
  split; [vm_compute; reflexivity|]. split; [vm_compute; reflexivity|].
  apply (buildMessage_injective
           "00112233445566778899AABBCCDDEEFF" "007"
           Demo.nonce "18446744073709551623" 7 18446744073709551623
           (Demo.nonce_bytes ++ [x00; x00; x00; x00; x00; x00; x00; x07])%list);
    vm_compute; reflexivity.
Defined.

Lemma nearest_double_exact (n : Z) :
  n < 2 ^ 53 -> Double.nearest_double n = Some n.
Proof.
  intros H. unfold Double.nearest_double.
  destruct (Z.ltb_spec n (2 ^ 53)) as [_|Hge]; [reflexivity|lia].
Qed.

Lemma Number_of_BigInt_exact (n : Z) :
  0 <= n < 2 ^ 53 -> Double.Number_of_BigInt n = Double.Finite n.
Proof.
  intros [H0 H53]. unfold Double.Number_of_BigInt.
  destruct (Z.ltb_spec n 0) as [Hneg|_]; [lia|].
  rewrite (nearest_double_exact n H53). reflexivity.
Qed.

(** X7. The decoders of the component read a canonical message of the
    API back: the first 16 bytes encode to the nonce in lower case, and
    from the last 8 bytes [be64ToMs] returns the double nearest to the
    timestamp modulo 2^64. That double is the timestamp modulo 2^64
    itself when this is below 2^53; from 2^53 on it can be another
    number, as it is 2^53 for 2^53 + 1. *)
Theorem message_decodes (nonceHex tsMs : string) (n : Z) (msg : list byte) :
  buildMessage nonceHex tsMs = Ok msg -> StringToBigInt tsMs = Some n ->
  App.bytesToHex (take 16 msg) = toLowerCase nonceHex /\
  Double.be64ToMs (drop 16 msg)
  = Ok (Double.Number_of_BigInt (n mod 2 ^ 64)) /\
  (n mod 2 ^ 64 < 2 ^ 53 ->
   Double.be64ToMs (drop 16 msg) = Ok (Double.Finite (n mod 2 ^ 64))) /\
  (n mod 2 ^ 64 = 2 ^ 53 + 1 ->
   Double.be64ToMs (drop 16 msg) = Ok (Double.Finite (2 ^ 53))).
Proof.
  intros Hmsg Hn.
  destruct (buildMessage_Ok_inv _ _ _ Hmsg) as (b & m & Hb & Hl & Hm & ->).
  rewrite Hn in Hm. injection Hm as <-.
  rewrite <- Hl at 1. rewrite take_app_length.
  rewrite <- Hl. rewrite !drop_app_length.
  split; [exact (hexToBytes_Ok_encode _ _ Hb)|].
  assert (Hms : Double.be64ToMs (map (u64_byte n) (seq 0 8))
                = Ok (Double.Number_of_BigInt (n mod 2 ^ 64))).
  { unfold Double.be64ToMs.
    rewrite be64ToBigInt_be_value by reflexivity.
    rewrite u64_be_value. reflexivity. }
  split; [exact Hms|]. rewrite Hms. split.
  - intros Hsmall. rewrite Number_of_BigInt_exact; [reflexivity|].
    split; [apply Z.mod_pos_bound; lia|exact Hsmall].
  - intros ->. reflexivity.
Qed.

Lemma message_decodes_witness :
  buildMessage Demo.nonce "1700000000000"
  = Ok (Demo.nonce_bytes ++ [x00; x00; x01; x8b; xcf; xe5; x68; x00])%list /\
  StringToBigInt "1700000000000" = Some 1700000000000 /\
  1700000000000 mod 2 ^ 64 < 2 ^ 53 /\
  App.bytesToHex
    (take 16 (Demo.nonce_bytes ++ [x00; x00; x01; x8b; xcf; xe5; x68; x00]))
  = toLowerCase Demo.nonce /\
  Double.be64ToMs
    (drop 16 (Demo.nonce_bytes ++ [x00; x00; x01; x8b; xcf; xe5; x68; x00]))
  = Ok (Double.Finite (1700000000000 mod 2 ^ 64)) /\
  StringToBigInt "9007199254740993" = Some 9007199254740993 /\
  9007199254740993 mod 2 ^ 64 = 2 ^ 53 + 1 /\
  Double.be64ToMs [x00; x20; x00; x00; x00; x00; x00; x01]
  = Ok (Double.Finite 9007199254740992).
Proof.
  split; [vm_compute; reflexivity|]. split; [vm_compute; reflexivity|].
  split; [vm_compute; reflexivity|].
  pose proof (message_decodes Demo.nonce "1700000000000" 1700000000000
                (Demo.nonce_bytes
                   ++ [x00; x00; x01; x8b; xcf; xe5; x68; x00])%list
                eq_refl eq_refl) as (Hnonce & _ & Hexact & _).
  split; [exact Hnonce|]. split; [exact (Hexact eq_refl)|].
  split; [vm_compute; reflexivity|]. split; [vm_compute; reflexivity|].
  pose proof (message_decodes Demo.nonce "9007199254740993" 9007199254740993
                (Demo.nonce_bytes
                   ++ [x00; x20; x00; x00; x00; x00; x00; x01])%list
                eq_refl eq_refl) as (_ & _ & _ & Hrounded).
  exact (Hrounded eq_refl).
Defined.

(** ** Nonce endpoint *)

Lemma randomNonce16_length (entropy : nat -> byte) :
  length (NonceRoute.randomNonce16 entropy) = 16%nat.
Proof. reflexivity. Qed.

(** X8. Whatever bytes the random source draws, [GET /api/nonce]
    answers with 32 lower-case hex digits, as its response schema says;
    the verification endpoint accepts the string as a nonce, and
    [hexToBytes] and [buildMessage] recover the 16 bytes drawn. *)
Theorem nonce_endpoint_well_formed (entropy : nat -> byte) (tsMs : string) :
  let nonceHex := NonceRoute.get_api_nonce entropy in
  NonceRoute.re_lower_hex_n 32 nonceHex = true /\
  re_hex_n 32 nonceHex = true /\
  hexToBytes nonceHex = Ok (map entropy (seq 0 16)) /\
  (is_decimal tsMs = true ->
   exists ts, buildMessage nonceHex tsMs
              = Ok (map entropy (seq 0 16) ++ ts)%list).
Proof.
  cbv zeta. unfold NonceRoute.get_api_nonce.
  set (nonce := NonceRoute.randomNonce16 entropy).
  assert (Hl : length nonce = 16%nat) by reflexivity.
  pose proof (bytesToHex_length nonce) as Hlen. rewrite Hl in Hlen.
  pose proof (bytesToHex_lower_hex nonce) as Hhex.
  split; [unfold NonceRoute.re_lower_hex_n; rewrite Hhex, Hlen; reflexivity|].
  split.
  { unfold re_hex_n. rewrite Hlen.
    rewrite (all_chars_impl _ _ _ is_lower_hex_is_hex Hhex). reflexivity. }
  split; [apply hexToBytes_bytesToHex|].
  intros Hdec.
  exists (map (u64_byte (decimal_value tsMs)) (seq 0 8)).
  apply (buildMessage_bytes _ _ nonce);
    [apply hexToBytes_bytesToHex|exact Hl|apply BigInt_decimal, Hdec].
Qed.

Lemma nonce_endpoint_well_formed_witness :
  is_decimal "1700000000000" = true /\
  exists ts,
    buildMessage (NonceRoute.get_api_nonce (fun i => Byte.x2a))
                 "1700000000000"
    = Ok (map (fun i : nat => Byte.x2a) (seq 0 16) ++ ts)%list.
Proof.
  split; [reflexivity|].
  apply (nonce_endpoint_well_formed (fun i => Byte.x2a) "1700000000000").
  reflexivity.
Defined.

(** ** Beacon registry *)

Lemma find_app_last {A} (p : A -> bool) (l : list A) (x : A) :
  find p (l ++ [x])%list
  = match find p l with
    | Some y => Some y
    | None => if p x then Some x else None
    end.
Proof.
  induction l as [|a l IH]; [reflexivity|].
  cbn [app find]. destruct (p a); [reflexivity|exact IH].
Qed.

Lemma string_eqb_eq (a b : string) : String.eqb a b = true <-> a = b.
Proof. apply String.eqb_eq. Qed.

Lemma fold_insert_lookup (l : list (string * string))
    (m : gmap string string) (id : string) :
  fold_left (fun m e => <[toLowerCase (fst e) := toLowerCase (snd e)]> m) l m
    !! toLowerCase id
  = match last_entry l id with
    | Some e => Some (toLowerCase (snd e))
    | None => m !! toLowerCase id
    end.
Proof.
  unfold last_entry. revert m.
  induction l as [|e l IH]; intros m; [reflexivity|].
  cbn [fold_left rev]. rewrite IH, find_app_last.
  destruct (find _ (rev l)) as [y|]; [reflexivity|].
  destruct (String.eqb (toLowerCase (fst e)) (toLowerCase id)) eqn:Heq.
  - apply String.eqb_eq in Heq. rewrite Heq. apply lookup_insert_eq.
  - apply String.eqb_neq in Heq. apply lookup_insert_ne. exact Heq.
Qed.

(** X9. A load without a malformed entry returns and replaces whatever
    the registry held: a lookup then finds, for an identifier in any
    case, the lower-cased key of the last entry of the source with that
    identifier up to case, and nothing for an identifier the source does
    not have. *)
Theorem load_then_lookup (obj : list (string * string))
    (REG : gmap string string) (beaconIdHex : string) :
  existsb malformed obj = false ->
  let after := loadBeaconRegistry (Entries obj) REG in
  fst after = Ok tt /\
  getPublicKeyHex (snd after) beaconIdHex
  = option_map (fun e => toLowerCase (snd e)) (last_entry obj beaconIdHex).
Proof.
  intros Hgood. cbv zeta. cbn [loadBeaconRegistry].
  destruct (load_entries_returns obj ∅ Hgood) as [Hr Hp].
  split; [exact Hr|].
  unfold getPublicKeyHex. rewrite load_entries_state, Hp, fold_insert_lookup.
  destruct (last_entry obj beaconIdHex); [reflexivity|apply lookup_empty].
Qed.

Lemma load_then_lookup_witness :
  let obj :=
    [(Demo.beacon_id, Demo.public_key);
     ("A1B2C3D4E5F60708",
      "ABABABABABABABABABABABABABABABABABABABABABABABABABABABABABABABAB")] in
  existsb malformed obj = false /\
  fst (loadBeaconRegistry (Entries obj) Demo.REG) = Ok tt /\
  getPublicKeyHex (snd (loadBeaconRegistry (Entries obj) Demo.REG))
                  "a1b2C3D4e5f60708"
  = Some "abababababababababababababababababababababababababababababababab".
Proof.
  cbv zeta. split; [reflexivity|].
  exact (load_then_lookup
           [(Demo.beacon_id, Demo.public_key);
            ("A1B2C3D4E5F60708",
             "ABABABABABABABABABABABABABABABABABABABABABABABABABABABABABABABAB")]
           Demo.REG "a1b2C3D4e5f60708" eq_refl).
Defined.
Lemma re_hex_n_of_lower (n : nat) (s : string) :
  re_hex_n n (toLowerCase s) = true -> re_hex_n n s = true.
Proof. rewrite re_hex_n_toLowerCase. exact id. Qed.

(** X10. Whatever loads were made, and whether they returned or threw,
    a lookup that finds a key was made with an identifier of 16 hex digits,
    and the key it finds has 64 lower-case hex digits and decodes to 32
    bytes: a malformed identifier is never found. *)
Theorem lookup_finds_well_formed (REG : gmap string string)
    (beaconIdHex pubHex : string) :
  reachable REG -> getPublicKeyHex REG beaconIdHex = Some pubHex ->
  re_hex_n 16 beaconIdHex = true /\
  NonceRoute.re_lower_hex_n 64 pubHex = true /\
  exists pub, hexToBytes pubHex = Ok pub /\ length pub = 32%nat.
Proof.
  intros Hreach Hlook.
  pose proof (reachable_ok REG Hreach _ _ Hlook) as (Hk & _ & Hv & Hvl).
  split; [apply re_hex_n_of_lower, Hk|].
  split.
  - unfold NonceRoute.re_lower_hex_n. rewrite Hvl.
    unfold re_hex_n in Hv. apply andb_true_iff in Hv as [_ ->]. reflexivity.
  - apply (hexToBytes_re_hex_n 32), Hv.
Qed.

Lemma lookup_finds_well_formed_witness :
  reachable Demo.REG /\
  getPublicKeyHex Demo.REG "A1B2C3D4E5F60708" = Some Demo.public_key /\
  re_hex_n 16 "A1B2C3D4E5F60708" = true /\
  NonceRoute.re_lower_hex_n 64 Demo.public_key = true /\
  exists pub, hexToBytes Demo.public_key = Ok pub /\ length pub = 32%nat.
Proof.
  assert (Hreach : reachable Demo.REG)
    by (apply reachable_load, reachable_init).
  split; [exact Hreach|]. split; [reflexivity|].
  exact (lookup_finds_well_formed Demo.REG "A1B2C3D4E5F60708"
           Demo.public_key Hreach eq_refl).
Defined.

(** ** Verification endpoint *)

(** X11. A request that passes validation and names a beacon the
    registry does not have is answered with status 400 and
    [unknown_beacon], whatever its nonce, timestamp and signature and
    whatever Ed25519 would say. When the registry file is missing the
    load returns with an empty registry, the server listens, and every
    valid request gets that answer. *)
Theorem unknown_beacon_answer
    (ed25519 : list byte -> list byte -> list byte -> bool)
    (REG : gmap string string) (body : VerifyBody) :
  valid_body body = true ->
  (getPublicKeyHex REG (body_beaconIdHex body) = None ->
   post_api_verify ed25519 REG body
   = Ok {| reply_status := 400; reply_ok := false;
           reply_error := Some "unknown_beacon" |}) /\
  loadBeaconRegistry NoFile REG = (Ok tt, ∅) /\
  main NoFile = Listening ∅ /\
  post_api_verify ed25519 (snd (loadBeaconRegistry NoFile REG)) body
  = Ok {| reply_status := 400; reply_ok := false;
          reply_error := Some "unknown_beacon" |}.
Proof.
  intros Hvalid.
  split; [apply post_api_verify_unknown, Hvalid|].
  split; [reflexivity|]. split; [reflexivity|].
  apply post_api_verify_unknown; [exact Hvalid|].
  cbn [loadBeaconRegistry snd]. unfold getPublicKeyHex. apply lookup_empty.
Qed.

Lemma unknown_beacon_answer_witness :
  valid_body Demo.body = true /\
  post_api_verify Demo.accepts
    (snd (loadBeaconRegistry NoFile Demo.REG)) Demo.body
  = Ok {| reply_status := 400; reply_ok := false;
          reply_error := Some "unknown_beacon" |}.
Proof.
  split; [reflexivity|].
  apply (unknown_beacon_answer Demo.accepts Demo.REG Demo.body).
  reflexivity.
Defined.

Lemma zod_issues_lower_body (body : VerifyBody) :
  zod_issues (lower_body body) = zod_issues body.
Proof.
  unfold zod_issues, lower_body.
  cbn [body_beaconIdHex body_nonceHex body_tsMs body_sigHex].
  rewrite !re_hex_n_toLowerCase. reflexivity.
Qed.

Lemma hexToBytes_toLowerCase (s : string) :
  hexToBytes (toLowerCase s) = hexToBytes s.
Proof.
  rewrite !hexToBytes_lower, toLowerCase_idempotent, toLowerCase_length.
  reflexivity.
Qed.

(** X12. The verification endpoint does not see the case of the hex
    digits of a request: with the beacon identifier, the nonce and the
    signature in lower case the handler gives the same outcome, for
    every registry and every request, valid or not. *)
Theorem verify_ignores_case
    (ed25519 : list byte -> list byte -> list byte -> bool)
    (REG : gmap string string) (body : VerifyBody) :
  post_api_verify ed25519 REG (lower_body body)
  = post_api_verify ed25519 REG body.
Proof.
  unfold post_api_verify, zod_parse. rewrite zod_issues_lower_body.
  destruct (zod_issues body) as [|p ps]; [|reflexivity].
  cbn [Js.bind]. unfold lower_body, getPublicKeyHex, buildMessage.
  cbn [body_beaconIdHex body_nonceHex body_tsMs body_sigHex].
  rewrite !toLowerCase_idempotent, !hexToBytes_toLowerCase. reflexivity.
Qed.

Lemma valid_body_tsMs (body : VerifyBody) :
  valid_body body = true -> re_digits_plus (body_tsMs body) = true.
Proof.
  unfold valid_body. destruct (re_digits_plus (body_tsMs body));
    [reflexivity|]. rewrite andb_false_r. discriminate.
Qed.

(** X13. The endpoint reads the timestamp modulo 2^64 and without regard
    to leading zeros: a valid request with its timestamp replaced by
    another string of digits that denotes a congruent number gets the same
    answer. *)
Theorem verify_timestamp_congruent
    (ed25519 : list byte -> list byte -> list byte -> bool)
    (REG : gmap string string) (body : VerifyBody) (tsMs : string) :
  valid_body body = true -> re_digits_plus tsMs = true ->
  decimal_value tsMs mod 2 ^ 64 = decimal_value (body_tsMs body) mod 2 ^ 64 ->
  post_api_verify ed25519 REG (with_tsMs tsMs body)
  = post_api_verify ed25519 REG body.
Proof.
  intros Hvalid Hts Hcong.
  assert (Hvalid' : valid_body (with_tsMs tsMs body) = true).
  { unfold valid_body, with_tsMs in *.
    cbn [body_beaconIdHex body_nonceHex body_tsMs body_sigHex].
    rewrite Hts.
    destruct (re_hex_n 16 (body_beaconIdHex body));
      destruct (re_hex_n 32 (body_nonceHex body));
      destruct (re_hex_n 128 (body_sigHex body));
      destruct (re_digits_plus (body_tsMs body));
      solve [reflexivity | discriminate Hvalid]. }
  unfold post_api_verify.
  rewrite (valid_body_zod _ Hvalid), (valid_body_zod _ Hvalid').
  cbn [Js.bind with_tsMs body_beaconIdHex body_nonceHex body_tsMs body_sigHex].
  destruct (falsy _); [reflexivity|].
  unfold buildMessage.
  rewrite (u64StringTo8BE_decimal tsMs (re_digits_plus_decimal _ Hts)).
  rewrite (u64StringTo8BE_decimal (body_tsMs body)
             (re_digits_plus_decimal _ (valid_body_tsMs _ Hvalid))).
  rewrite (u64_bytes_congruent _ _ Hcong). reflexivity.
Qed.

Lemma verify_timestamp_congruent_witness :
  valid_body Demo.body = true /\
  re_digits_plus "018446745773709551616" = true /\
  decimal_value "018446745773709551616" mod 2 ^ 64
  = decimal_value (body_tsMs Demo.body) mod 2 ^ 64 /\
  post_api_verify Demo.accepts Demo.REG
    (with_tsMs "018446745773709551616" Demo.body)
  = post_api_verify Demo.accepts Demo.REG Demo.body.
Proof.
  split; [reflexivity|]. split; [reflexivity|]. split; [reflexivity|].
  apply (verify_timestamp_congruent Demo.accepts Demo.REG Demo.body
           "018446745773709551616"); reflexivity.
Defined.
(** ** The client session *)

Lemma digit_value_lower (c : ascii) :
  digit_value 16 (lower c) = digit_value 16 c.
Proof. destruct c as [[] [] [] [] [] [] [] []]; reflexivity. Qed.

Lemma pairs_bytes_toLowerCase (s : string) :
  pairs_bytes (toLowerCase s) = pairs_bytes s.
Proof.
  induction s as [|a|a b r IH] using string_pair_ind; [reflexivity..|].
  cbn [toLowerCase pairs_bytes]. rewrite IH. f_equal.
  unfold parseInt16. cbn [parseInt16_from].
  rewrite !digit_value_lower. reflexivity.
Qed.

(** X14. The component and the API decode hex alike: on every string
    the two [hexToBytes] both fail, each with its own message, or both
    return the same bytes. The nonce the component writes to the beacon is
    the nonce the API puts in the message. *)
Theorem client_and_api_decode_alike (s : string) :
  match App.hexToBytes s, hexToBytes s with
  | Ok client, Ok api => client = api
  | Throw e1, Throw e2 => e1 = Error "bad hex" /\ e2 = Error "invalid hex"
  | _, _ => False
  end.
Proof.
  rewrite hexToBytes_lower. unfold App.hexToBytes.
  rewrite hex_loop_pairs, pairs_bytes_toLowerCase.
  destruct (all_chars is_hex s) eqn:Hs.
  - rewrite (toLowerCase_lower_hex s Hs). cbn [negb orb].
    destruct (negb (Nat.eqb (String.length s mod 2) 0));
      [split; reflexivity|reflexivity].
  - rewrite (toLowerCase_not_hex s Hs). cbn [negb orb]. split; reflexivity.
Qed.

Lemma bytesToHex_shape_aux (b : list byte) :
  re_hex_n (2 * length b) (App.bytesToHex b) = true.
Proof.
  unfold re_hex_n.
  change (App.bytesToHex b) with (bytesToHex b).
  rewrite bytesToHex_length, Nat.eqb_refl, andb_true_r.
  exact (all_chars_impl _ _ _ is_lower_hex_is_hex (bytesToHex_lower_hex b)).
Qed.

Ltac step_action :=
  repeat
    (unfold App.setDeviceName, App.setBeaconIdHex, App.setNonceHex,
       App.setTsMs, App.setSigHex, App.setVerified, App.setErr,
       App.setConnecting, App.setVerifying, App.call, App.open_conn;
     unfold App.try_catch, App.finally, App.seq_, App.ret, App.raise,
       App.update, App.read, App.lift);
  cbn [fst snd negb App.view App.refs App.heap App.calls App.on_view
       App.on_refs App.on_heap App.conn App.notifyAttached App.nonceRef
       App.with_conn App.with_notifyAttached App.with_nonceRef].

Section SessionFacts.

Variable String_of_Number : Z -> string.

Lemma take_8_of_72 (raw : list byte) :
  length raw = 72%nat -> length (take 8 raw) = 8%nat.
Proof. intros H. rewrite length_take, H. reflexivity. Qed.

Lemma drop_8_of_72 (raw : list byte) :
  length raw = 72%nat -> length (drop 8 raw) = 64%nat.
Proof. intros H. rewrite length_drop, H. reflexivity. Qed.

(** The state a notification of 72 bytes leaves, and the request it
    sends, when the nonce slot holds 32 characters. *)
Lemma onNotify_submits (closure : string) (raw : list byte)
    (reply : App.VerifyReply) (s : App.State) :
  length raw = 72%nat -> String.length (App.nonceRef (App.refs s)) = 32%nat ->
  let ms := be_value (take 8 raw) in
  let sig := App.bytesToHex (drop 8 raw) in
  let payload :=
    {| body_beaconIdHex := closure;
       body_nonceHex := App.nonceRef (App.refs s);
       body_tsMs := String_of_Number ms;
       body_sigHex := sig |} in
  let r := App.onNotify String_of_Number closure raw reply s in
  fst r = Ok tt /\
  App.calls (snd r) = (App.calls s ++ [App.POST_api_verify payload])%list /\
  App.refs (snd r) = App.refs s /\ App.heap (snd r) = App.heap s /\
  App.view (snd r)
  = App.with_verifying false
      (match reply with
       | App.PostFails message =>
           App.with_err (App.message_of (Error message))
       | App.ReplyJson json_ok json_error =>
           fun w =>
             (if negb json_ok && negb (falsy json_error)
              then App.with_err (default "" json_error) else id)
               (App.with_verified (Some json_ok) w)
       end (App.with_sigHex sig
              (App.with_tsMs (String_of_Number ms) (App.view s)))).
Proof.
  intros Hlen Hnonce. cbv zeta. unfold App.onNotify.
  rewrite Hlen. cbn [Nat.eqb negb].
  rewrite (be64ToBigInt_be_value _ (take_8_of_72 raw Hlen)).
  destruct s as [w [c att nonce] h cs].
  cbn [App.refs App.nonceRef App.view App.heap App.calls] in *.
  step_action. rewrite Hnonce. cbn [Nat.eqb negb].
  replace (String.eqb nonce "") with false
    by (symmetry; apply String.eqb_neq; intros ->; discriminate Hnonce).
  cbn [orb].
  destruct reply as [message|json_ok json_error]; step_action.
  - repeat split.
  - destruct (negb json_ok && negb (falsy json_error)); repeat split.
Qed.


Lemma onNotify_guard (closure : string) (raw : list byte)
    (reply : App.VerifyReply) (s : App.State) :
  length raw = 72%nat -> String.length (App.nonceRef (App.refs s)) <> 32%nat ->
  App.onNotify String_of_Number closure raw reply s
  = (Ok tt,
     App.on_view
       (fun w =>
          App.with_verifying false
            (App.with_verifying false
               (App.with_err
                  ("Nonce not ready (len="
                     ++ App.String_of_nat
                          (String.length (App.nonceRef (App.refs s)))
                     ++ ") — press Verify again")
                  (App.with_sigHex (App.bytesToHex (drop 8 raw))
                     (App.with_tsMs (String_of_Number (be_value (take 8 raw)))
                        w)))))
       s).
Proof.
  intros Hlen Hnonce. unfold App.onNotify.
  rewrite Hlen. cbn [Nat.eqb negb].
  rewrite (be64ToBigInt_be_value _ (take_8_of_72 raw Hlen)).
  destruct s as [w [c att nonce] h cs].
  cbn [App.refs App.nonceRef App.view App.heap App.calls] in *.
  step_action.
  destruct (Nat.eqb_spec (String.length nonce) 32) as [Heq|_];
    [contradiction|].
  rewrite orb_true_r. step_action. reflexivity.
Qed.

(** X15. A notification of 72 bytes that finds a nonce of 32 characters
    in the slot sends exactly one request to the verification endpoint:
    the beacon identifier of the listener, the nonce of the slot, the
    printed timestamp of the first 8 bytes and the 128 lower-case hex
    digits of the last 64. The answer of the API becomes the verdict
    shown; a failed request leaves the verdict and shows the error. *)
Theorem notification_is_submitted (closure : string) (raw : list byte)
    (reply : App.VerifyReply) (s : App.State) :
  length raw = 72%nat -> String.length (App.nonceRef (App.refs s)) = 32%nat ->
  let payload :=
    {| body_beaconIdHex := closure;
       body_nonceHex := App.nonceRef (App.refs s);
       body_tsMs := String_of_Number (be_value (take 8 raw));
       body_sigHex := App.bytesToHex (drop 8 raw) |} in
  let s' := snd (App.onNotify String_of_Number closure raw reply s) in
  App.calls s' = (App.calls s ++ [App.POST_api_verify payload])%list /\
  re_hex_n 128 (body_sigHex payload) = true /\
  App.verifying (App.view s') = false /\
  match reply with
  | App.ReplyJson json_ok json_error =>
      App.verified (App.view s') = Some json_ok /\
      Render.verifiedState (App.view s') = (if json_ok then Render.ok
                                            else Render.bad)
  | App.PostFails message =>
      App.verified (App.view s') = App.verified (App.view s) /\
      App.err (App.view s') = App.message_of (Error message)
  end.
Proof.
  intros Hlen Hnonce. cbv zeta.
  destruct (onNotify_submits closure raw reply s Hlen Hnonce)
    as (_ & Hcalls & _ & _ & Hview).
  cbv zeta in Hcalls, Hview.
  split; [exact Hcalls|]. split.
  { cbn [body_sigHex].
    pose proof (bytesToHex_shape_aux (drop 8 raw)) as Hs.
    rewrite (drop_8_of_72 raw Hlen) in Hs. exact Hs. }
  rewrite Hview. split; [reflexivity|].
  destruct reply as [message|json_ok json_error].
  - split; reflexivity.
  - unfold Render.verifiedState.
    destruct (negb json_ok && negb (falsy json_error)), json_ok;
      split; reflexivity.
Qed.

(** X16. A notification of 72 bytes that finds no nonce of 32 characters
    in the slot is not submitted: the timestamp and the signature are
    shown, the error names the length found, and the verdict stays. *)
Theorem notification_without_nonce (closure : string) (raw : list byte)
    (reply : App.VerifyReply) (s : App.State) :
  length raw = 72%nat -> String.length (App.nonceRef (App.refs s)) <> 32%nat ->
  let r := App.onNotify String_of_Number closure raw reply s in
  fst r = Ok tt /\
  App.calls (snd r) = App.calls s /\
  App.err (App.view (snd r))
  = "Nonce not ready (len="
      ++ App.String_of_nat (String.length (App.nonceRef (App.refs s)))
      ++ ") — press Verify again" /\
  App.tsMs (App.view (snd r)) = String_of_Number (be_value (take 8 raw)) /\
  App.sigHex (App.view (snd r)) = App.bytesToHex (drop 8 raw) /\
  App.verified (App.view (snd r)) = App.verified (App.view s) /\
  App.verifying (App.view (snd r)) = false.
Proof.
  intros Hlen Hnonce. cbv zeta.
  rewrite (onNotify_guard closure raw reply s Hlen Hnonce).
  cbn [fst snd]. split; [reflexivity|]. split; [reflexivity|].
  split; [reflexivity|]. split; [reflexivity|]. split; [reflexivity|].
  split; reflexivity.
Qed.

(** X17. [onNotify] never throws and never leaves the session verifying;
    it does not touch the connection, the subscription flag, the nonce
    slot or the listeners, and it sends at most one request, to the
    verification endpoint. *)
Theorem notification_always_settles (closure : string) (raw : list byte)
    (reply : App.VerifyReply) (s : App.State) :
  let r := App.onNotify String_of_Number closure raw reply s in
  fst r = Ok tt /\
  App.verifying (App.view (snd r)) = false /\
  App.refs (snd r) = App.refs s /\ App.heap (snd r) = App.heap s /\
  (App.calls (snd r) = App.calls s \/
   exists payload,
     App.calls (snd r) = (App.calls s ++ [App.POST_api_verify payload])%list).
Proof.
  cbv zeta.
  destruct (Nat.eq_dec (length raw) 72%nat) as [Hlen|Hlen].
  - destruct (Nat.eq_dec (String.length (App.nonceRef (App.refs s))) 32%nat)
      as [Hnonce|Hnonce].
    + destruct (onNotify_submits closure raw reply s Hlen Hnonce)
        as (Hr & Hcalls & Hrefs & Hheap & Hview).
      cbv zeta in *. rewrite Hview.
      split; [exact Hr|]. split; [reflexivity|].
      split; [exact Hrefs|]. split; [exact Hheap|].
      right. eexists. exact Hcalls.
    + rewrite (onNotify_guard closure raw reply s Hlen Hnonce).
      cbn [fst snd]. split; [reflexivity|]. split; [reflexivity|].
      split; [reflexivity|]. split; [reflexivity|]. left. reflexivity.
  - rewrite (onNotify_wrong_length String_of_Number closure raw reply s Hlen).
    cbn [fst snd]. split; [reflexivity|]. split; [reflexivity|].
    split; [reflexivity|]. split; [reflexivity|]. left. reflexivity.
Qed.

End SessionFacts.
Lemma notification_is_submitted_witness :
  length Demo.notification = 72%nat /\
  String.length (App.nonceRef (App.refs Demo.awaiting)) = 32%nat /\
  App.calls
    (snd (App.onNotify Demo.String_of_Number Demo.beacon_id Demo.notification
            (App.ReplyJson true None) Demo.awaiting))
  = (App.calls Demo.awaiting ++
     [App.POST_api_verify
        {| body_beaconIdHex := Demo.beacon_id;
           body_nonceHex := Demo.nonce;
           body_tsMs := "1700000000000";
           body_sigHex := App.bytesToHex (repeat x2a 64) |}])%list.
Proof.
  split; [reflexivity|]. split; [reflexivity|].
  apply (notification_is_submitted Demo.String_of_Number Demo.beacon_id
           Demo.notification (App.ReplyJson true None) Demo.awaiting);
    reflexivity.
Defined.

Lemma notification_without_nonce_witness :
  length Demo.notification = 72%nat /\
  String.length (App.nonceRef (App.refs Demo.connected)) <> 32%nat /\
  let r := App.onNotify Demo.String_of_Number Demo.beacon_id
             Demo.notification (App.ReplyJson true None) Demo.connected in
  fst r = Ok tt /\
  App.calls (snd r) = App.calls Demo.connected /\
  App.err (App.view (snd r)) = "Nonce not ready (len=0) — press Verify again".
Proof.
  split; [reflexivity|]. split; [discriminate|].
  pose proof (notification_without_nonce Demo.String_of_Number Demo.beacon_id
                Demo.notification (App.ReplyJson true None) Demo.connected)
    as H.
  cbv zeta in *. destruct H as (H1 & H2 & H3 & _);
    [reflexivity|discriminate|].
  split; [exact H1|]. split; [exact H2|exact H3].
Defined.

(** X18. A verification attempt without a connection stops at once: it
    shows "Not connected to a beacon yet", is not verifying, sends
    nothing (no nonce is requested) and keeps the nonce slot and the
    subscription flag. *)
Theorem verify_without_connection (env : App.VerifyEnv) (s : App.State) :
  App.conn (App.refs s) = None ->
  let r := App.verifyPresence env s in
  fst r = Ok tt /\
  App.err (App.view (snd r)) = "Not connected to a beacon yet" /\
  App.verifying (App.view (snd r)) = false /\
  App.verified (App.view (snd r)) = None /\
  App.calls (snd r) = App.calls s /\
  App.refs (snd r) = App.refs s /\ App.heap (snd r) = App.heap s.
Proof.
  intros Hconn. cbv zeta. unfold App.verifyPresence.
  destruct s as [w [c att nonce] h cs].
  cbn [App.refs App.conn] in Hconn. subst c.
  step_action. cbn [App.message_of String.eqb Ascii.eqb Bool.eqb].
  repeat split.
Qed.

Lemma verify_without_connection_witness :
  App.conn (App.refs App.initial) = None /\
  let r := App.verifyPresence
             {| App.nonce_reply := App.NonceJson Demo.nonce;
                App.startNotifications_error := None;
                App.write_error := None |} App.initial in
  fst r = Ok tt /\
  App.err (App.view (snd r)) = "Not connected to a beacon yet" /\
  App.verifying (App.view (snd r)) = false /\
  App.verified (App.view (snd r)) = None /\
  App.calls (snd r) = App.calls App.initial /\
  App.refs (snd r) = App.refs App.initial /\
  App.heap (snd r) = App.heap App.initial.
Proof.
  split; [reflexivity|].
  apply (verify_without_connection
           {| App.nonce_reply := App.NonceJson Demo.nonce;
              App.startNotifications_error := None;
              App.write_error := None |} App.initial).
  reflexivity.
Defined.

(** X19. The component subscribes once per connection. An attempt that
    finds the subscription flag set starts no notifications and adds no
    listener: it only requests the nonce and, when the nonce decodes,
    writes it. An attempt that finds the flag clear and gets a nonce
    starts the notifications, adds one listener with the beacon
    identifier shown, and sets the flag. *)
Theorem subscribes_once (env : App.VerifyEnv) (s : App.State) (a : nat)
    (nonceHex : string) :
  App.conn (App.refs s) = Some a ->
  let s' := snd (App.verifyPresence env s) in
  (App.notifyAttached (App.refs s) = true ->
   App.heap s' = App.heap s /\
   App.notifyAttached (App.refs s') = true /\
   App.calls s'
   = (App.calls s ++
      App.GET_api_nonce ::
      match App.nonce_reply env with
      | App.NonceJson n =>
          match App.hexToBytes n with
          | Ok value => [App.writeValueWithoutResponse value]
          | Throw _ => []
          end
      | _ => []
      end)%list) /\
  (App.notifyAttached (App.refs s) = false ->
   App.nonce_reply env = App.NonceJson nonceHex ->
   App.startNotifications_error env = None ->
   App.heap s'
   = alter (App.add_listener (App.beaconIdHex (App.view s))) a
       (alter (App.with_notifying true) a (App.heap s)) /\
   App.notifyAttached (App.refs s') = true).
Proof.
  intros Hconn. cbv zeta. unfold App.verifyPresence.
  destruct s as [w [c att nonce] h cs].
  cbn [App.refs App.conn App.notifyAttached App.view App.heap App.calls] in *.
  subst c. split.
  - intros ->. step_action.
    destruct (App.nonce_reply env) as [m|st|n]; step_action;
      [repeat split; rewrite <- ?app_assoc; reflexivity..|].
    destruct (App.hexToBytes n) as [value|e]; step_action.
    + destruct (App.write_error env); step_action;
        repeat split; rewrite <- ?app_assoc; reflexivity.
    + repeat split.
  - intros -> Hreply Hstart. step_action. rewrite Hreply. step_action.
    rewrite Hstart. step_action.
    destruct (App.hexToBytes nonceHex) as [value|e]; step_action.
    + destruct (App.write_error env); step_action; repeat split.
    + repeat split.
Qed.

Lemma subscribes_once_witness :
  let env := {| App.nonce_reply := App.NonceJson Demo.nonce;
                App.startNotifications_error := None;
                App.write_error := None |} in
  App.conn (App.refs Demo.awaiting) = Some 0%nat /\
  App.notifyAttached (App.refs Demo.awaiting) = true /\
  App.heap (snd (App.verifyPresence env Demo.awaiting))
  = App.heap Demo.awaiting /\
  App.notifyAttached (App.refs Demo.connected) = false /\
  App.notifyAttached
    (App.refs (snd (App.verifyPresence env Demo.connected))) = true.
Proof.
  cbv zeta. split; [reflexivity|]. split; [reflexivity|].
  split.
  - apply (subscribes_once _ Demo.awaiting 0%nat Demo.nonce); reflexivity.
  - split; [reflexivity|].
    apply (subscribes_once _ Demo.connected 0%nat Demo.nonce); reflexivity.
Defined.

(** X20. Only the latest nonce counts: after a verification attempt that
    got a nonce of 32 characters, whatever the slot held before, the next
    notification of 72 bytes is submitted with that nonce. *)
Theorem latest_nonce_is_submitted (String_of_Number : Z -> string)
    (env : App.VerifyEnv) (nonceHex closure : string) (raw : list byte)
    (reply : App.VerifyReply) (s : App.State) :
  App.conn (App.refs s) <> None ->
  App.nonce_reply env = App.NonceJson nonceHex ->
  String.length nonceHex = 32%nat -> length raw = 72%nat ->
  let s1 := snd (App.verifyPresence env s) in
  let s2 := snd (App.onNotify String_of_Number closure raw reply s1) in
  App.calls s2
  = (App.calls s1 ++
     [App.POST_api_verify
        {| body_beaconIdHex := closure;
           body_nonceHex := nonceHex;
           body_tsMs := String_of_Number (be_value (take 8 raw));
           body_sigHex := App.bytesToHex (drop 8 raw) |}])%list.
Proof.
  intros Hconn Hreply Hnonce Hlen. cbv zeta.
  pose proof (verifyPresence_sets_nonce env nonceHex s Hreply Hconn) as Hslot.
  pose proof (onNotify_submits String_of_Number closure raw reply
                (snd (App.verifyPresence env s)) Hlen) as H.
  rewrite Hslot in H. destruct (H Hnonce) as (_ & Hcalls & _).
  exact Hcalls.
Qed.

Lemma latest_nonce_is_submitted_witness :
  let env := {| App.nonce_reply :=
                  App.NonceJson "ffeeddccbbaa99887766554433221100";
                App.startNotifications_error := None;
                App.write_error := None |} in
  App.nonceRef (App.refs Demo.awaiting) = Demo.nonce /\
  let s1 := snd (App.verifyPresence env Demo.awaiting) in
  App.calls
    (snd (App.onNotify Demo.String_of_Number Demo.beacon_id
            Demo.notification (App.ReplyJson false None) s1))
  = (App.calls s1 ++
     [App.POST_api_verify
        {| body_beaconIdHex := Demo.beacon_id;
           body_nonceHex := "ffeeddccbbaa99887766554433221100";
           body_tsMs :=
             Demo.String_of_Number (be_value (take 8 Demo.notification));
           body_sigHex := App.bytesToHex (drop 8 Demo.notification) |}])%list.
Proof.
  cbv zeta. split; [reflexivity|].
  apply (latest_nonce_is_submitted Demo.String_of_Number
           {| App.nonce_reply :=
                App.NonceJson "ffeeddccbbaa99887766554433221100";
              App.startNotifications_error := None;
              App.write_error := None |}
           "ffeeddccbbaa99887766554433221100" Demo.beacon_id
           Demo.notification (App.ReplyJson false None) Demo.awaiting);
    [discriminate|reflexivity..].
Defined.
Lemma bytesToHex_empty_iff (b : list byte) :
  String.eqb (App.bytesToHex b) "" = Nat.eqb (length b) 0.
Proof.
  destruct b as [|x r]; [reflexivity|].
  change (App.bytesToHex (x :: r)) with (bytesToHex (x :: r)).
  rewrite bytesToHex_cons. reflexivity.
Qed.

(** X21. [connectBeacon] never throws, sends nothing of what the session
    records, always ends not connecting and keeps the nonce slot and the
    subscription flag. With a beacon it refers to a fresh connected link
    without listeners and shows the identity in lower-case hex, and the
    view counts as connected unless the identity read was empty. When the
    read of the identity fails the link is open and referred to, but the
    beacon shown is the one from before. When the link cannot be set up
    nothing but the error changes. *)
Theorem connect_outcome (env : App.ConnectEnv) (s : App.State) :
  let s' := snd (App.connectBeacon env s) in
  let fresh := {| App.connected := true; App.notifying := false;
                  App.listeners := [] |} in
  fst (App.connectBeacon env s) = Ok tt /\
  App.connecting (App.view s') = false /\
  App.verified (App.view s') = None /\
  App.calls s' = App.calls s /\
  App.notifyAttached (App.refs s') = App.notifyAttached (App.refs s) /\
  App.nonceRef (App.refs s') = App.nonceRef (App.refs s) /\
  match env with
  | App.Beacon name idVal =>
      App.conn (App.refs s') = Some (length (App.heap s)) /\
      App.heap s' = (App.heap s ++ [fresh])%list /\
      App.beaconIdHex (App.view s') = App.bytesToHex idVal /\
      App.err (App.view s') = "" /\
      Render.connected (App.view s') = negb (Nat.eqb (length idVal) 0)
  | App.ReadFails name message =>
      App.conn (App.refs s') = Some (length (App.heap s)) /\
      App.heap s' = (App.heap s ++ [fresh])%list /\
      App.beaconIdHex (App.view s') = App.beaconIdHex (App.view s) /\
      App.err (App.view s') = App.message_of (Error message)
  | App.LinkFails message =>
      App.conn (App.refs s') = App.conn (App.refs s) /\
      App.heap s' = App.heap s /\
      App.beaconIdHex (App.view s') = App.beaconIdHex (App.view s) /\
      App.err (App.view s') = App.message_of (Error message)
  | App.NoBluetooth =>
      App.conn (App.refs s') = App.conn (App.refs s) /\
      App.heap s' = App.heap s /\
      App.beaconIdHex (App.view s') = App.beaconIdHex (App.view s) /\
      App.err (App.view s') = "Web Bluetooth not supported in this browser"
  end.
Proof.
  cbv zeta. unfold App.connectBeacon.
  destruct s as [w [c att nonce] h cs].
  destruct env as [|message|name message|name idVal]; step_action.
  - repeat split.
  - repeat split.
  - repeat split.
  - split; [reflexivity|]. split; [reflexivity|]. split; [reflexivity|].
    split; [reflexivity|]. split; [reflexivity|]. split; [reflexivity|].
    split; [reflexivity|]. split; [reflexivity|].
    assert (Hlow : toLowerCase (App.bytesToHex idVal) = App.bytesToHex idVal)
      by (apply toLowerCase_fixes_lower_hex, bytesToHex_lower_hex).
    split; [cbn; exact Hlow|]. split; [reflexivity|].
    unfold Render.connected. cbn. rewrite Hlow, bytesToHex_empty_iff.
    reflexivity.
Qed.

(** X22. After an explicit disconnect the view counts as not connected,
    so only the Connect button is offered; the status shown is idle,
    except when a verification was under way: [verifying] is not reset and
    the status stays "loading". *)
Theorem view_after_disconnect (s : App.State) :
  let w := App.view (snd (App.disconnectBeacon s)) in
  Render.connected w = false /\
  Render.verifiedState w
  = (if App.verifying (App.view s) then Render.loading else Render.idle).
Proof.
  cbv zeta. rewrite disconnectBeacon_run. cbn [snd App.view].
  split; [reflexivity|].
  unfold Render.verifiedState. cbn [App.verifying App.verified].
  reflexivity.
Qed.

Lemma hexToBytes_16_re_hex_n (nonceHex : string) (nonce : list byte) :
  hexToBytes nonceHex = Ok nonce -> length nonce = 16%nat ->
  re_hex_n 32 nonceHex = true.
Proof.
  intros Hhex Hlen.
  destruct (hexToBytes_Ok_inv _ _ Hhex) as (Hs & He & _ & Hl).
  unfold re_hex_n. unfold is_hex_string in Hs. rewrite Hs.
  rewrite (even_half_16 _ He); [reflexivity|congruence].
Qed.

Lemma be_value_8_range (l : list byte) :
  length l = 8%nat -> 0 <= be_value l < 2 ^ 64.
Proof.
  intros H. pose proof (be_value_range l) as Hr. rewrite H in Hr.
  exact Hr.
Qed.

(** A printed timestamp that reads back as the number of the eight bytes
    is encoded by the API as those eight bytes. *)
Lemma u64StringTo8BE_printed (printed : string) (tsBytes : list byte) :
  length tsBytes = 8%nat -> is_decimal printed = true ->
  decimal_value printed = be_value tsBytes ->
  u64StringTo8BE printed = Ok tsBytes.
Proof.
  intros Hlen Hdec Hval. rewrite (u64StringTo8BE_decimal _ Hdec). f_equal.
  apply be_value_inj; [rewrite Hlen; reflexivity|].
  rewrite u64_be_value, Hval. apply Z.mod_small, be_value_8_range, Hlen.
Qed.

(** X23. From the beacon to the verdict. When the component holds an
    8-byte identity and a nonce that decodes to 16 bytes, and the printed
    timestamp reads back as the number of the first 8 bytes of a 72-byte
    notification, the request it submits passes the validation of the
    API, the API rebuilds exactly the nonce followed by the 8 timestamp
    bytes of the beacon, decodes exactly its 64 signature bytes, and, for
    a registered beacon, answers with the verdict of Ed25519 on these. *)
Theorem submitted_request_is_rebuilt
    (String_of_Number : Z -> string)
    (ed25519 : list byte -> list byte -> list byte -> bool)
    (REG : gmap string string) (pubHex : string)
    (idVal raw nonce : list byte) (reply : App.VerifyReply) (s : App.State) :
  length idVal = 8%nat -> length raw = 72%nat ->
  hexToBytes (App.nonceRef (App.refs s)) = Ok nonce -> length nonce = 16%nat ->
  re_digits_plus (String_of_Number (be_value (take 8 raw))) = true ->
  decimal_value (String_of_Number (be_value (take 8 raw)))
  = be_value (take 8 raw) ->
  let payload :=
    {| body_beaconIdHex := App.bytesToHex idVal;
       body_nonceHex := App.nonceRef (App.refs s);
       body_tsMs := String_of_Number (be_value (take 8 raw));
       body_sigHex := App.bytesToHex (drop 8 raw) |} in
  App.calls
    (snd (App.onNotify String_of_Number (App.bytesToHex idVal) raw reply s))
  = (App.calls s ++ [App.POST_api_verify payload])%list /\
  valid_body payload = true /\
  buildMessage (body_nonceHex payload) (body_tsMs payload)
  = Ok (nonce ++ take 8 raw)%list /\
  hexToBytes (body_sigHex payload) = Ok (drop 8 raw) /\
  (reachable REG ->
   getPublicKeyHex REG (App.bytesToHex idVal) = Some pubHex ->
   exists pub,
     hexToBytes pubHex = Ok pub /\
     post_api_verify ed25519 REG payload
     = Ok {| reply_status := 200;
             reply_ok := ed25519 (nonce ++ take 8 raw)%list (drop 8 raw) pub;
             reply_error := None |}).
Proof.
  intros Hid Hraw Hnonce Hnl Hdigits Hprinted. cbv zeta.
  pose proof (hexToBytes_16_re_hex_n _ _ Hnonce Hnl) as Hre.
  assert (Hslot : String.length (App.nonceRef (App.refs s)) = 32%nat).
  { unfold re_hex_n in Hre. apply andb_true_iff in Hre as [_ Hre].
    apply Nat.eqb_eq, Hre. }
  destruct (onNotify_submits String_of_Number (App.bytesToHex idVal) raw
              reply s Hraw Hslot) as (_ & Hcalls & _).
  split; [exact Hcalls|].
  pose proof (bytesToHex_shape_aux idVal) as Hidre. rewrite Hid in Hidre.
  change (2 * 8)%nat with 16%nat in Hidre.
  pose proof (bytesToHex_shape_aux (drop 8 raw)) as Hsigre.
  rewrite (drop_8_of_72 raw Hraw) in Hsigre.
  change (2 * 64)%nat with 128%nat in Hsigre.
  assert (Hvalid : valid_body
            {| body_beaconIdHex := App.bytesToHex idVal;
               body_nonceHex := App.nonceRef (App.refs s);
               body_tsMs := String_of_Number (be_value (take 8 raw));
               body_sigHex := App.bytesToHex (drop 8 raw) |} = true).
  { unfold valid_body.
    cbn [body_beaconIdHex body_nonceHex body_tsMs body_sigHex].
    rewrite Hidre, Hre, Hdigits, Hsigre. reflexivity. }
  split; [exact Hvalid|].
  cbn [body_beaconIdHex body_nonceHex body_tsMs body_sigHex].
  pose proof (u64StringTo8BE_printed _ (take 8 raw) (take_8_of_72 raw Hraw)
                (re_digits_plus_decimal _ Hdigits) Hprinted) as Hts.
  assert (Hmsg : buildMessage (App.nonceRef (App.refs s))
                   (String_of_Number (be_value (take 8 raw)))
                 = Ok (nonce ++ take 8 raw)%list).
  { unfold buildMessage. rewrite Hnonce, Hts. cbn [Js.bind].
    rewrite Hnl. cbn [Nat.eqb negb].
    apply typed_set_fill; [exact Hnl|apply take_8_of_72, Hraw]. }
  split; [exact Hmsg|].
  assert (Hsig : hexToBytes (App.bytesToHex (drop 8 raw)) = Ok (drop 8 raw))
    by apply hexToBytes_bytesToHex.
  split; [exact Hsig|].
  intros Hreach Hlook.
  destruct (post_api_verify_registered ed25519 REG _ pubHex
              (reachable_ok REG Hreach) Hvalid Hlook)
    as (nonce' & sig' & pub & Hn' & _ & Hs' & _ & Hp & _ & Hm' & Hpost).
  cbn [body_beaconIdHex body_nonceHex body_tsMs body_sigHex] in *.
  cbv zeta in Hm', Hpost.
  rewrite Hnonce in Hn'. injection Hn' as <-.
  rewrite Hsig in Hs'. injection Hs' as <-.
  rewrite Hmsg in Hm'.
  exists pub. split; [exact Hp|]. rewrite Hpost. congruence.
Qed.

Lemma submitted_request_is_rebuilt_witness :
  let idVal := [xa1; xb2; xc3; xd4; xe5; xf6; x07; x08] in
  let payload :=
    {| body_beaconIdHex := Demo.beacon_id;
       body_nonceHex := Demo.nonce;
       body_tsMs := "1700000000000";
       body_sigHex := App.bytesToHex (repeat x2a 64) |} in
  length idVal = 8%nat /\ length Demo.notification = 72%nat /\
  hexToBytes (App.nonceRef (App.refs Demo.awaiting)) = Ok Demo.nonce_bytes /\
  length Demo.nonce_bytes = 16%nat /\
  re_digits_plus
    (Demo.String_of_Number (be_value (take 8 Demo.notification))) = true /\
  decimal_value (Demo.String_of_Number (be_value (take 8 Demo.notification)))
  = be_value (take 8 Demo.notification) /\
  reachable Demo.REG /\
  getPublicKeyHex Demo.REG (App.bytesToHex idVal) = Some Demo.public_key /\
  valid_body payload = true /\
  buildMessage Demo.nonce "1700000000000"
  = Ok (Demo.nonce_bytes ++ take 8 Demo.notification)%list /\
  exists pub,
    hexToBytes Demo.public_key = Ok pub /\
    post_api_verify Demo.rejects Demo.REG payload
    = Ok {| reply_status := 200; reply_ok := false; reply_error := None |}.
Proof.
  assert (Hreach : reachable Demo.REG)
    by (apply reachable_load, reachable_init).
  cbv zeta.
  split; [reflexivity|]. split; [reflexivity|].
  split; [vm_compute; reflexivity|]. split; [reflexivity|].
  split; [vm_compute; reflexivity|]. split; [vm_compute; reflexivity|].
  split; [exact Hreach|]. split; [vm_compute; reflexivity|].
  pose proof (submitted_request_is_rebuilt Demo.String_of_Number
                Demo.rejects Demo.REG Demo.public_key
                [xa1; xb2; xc3; xd4; xe5; xf6; x07; x08]
                Demo.notification Demo.nonce_bytes
                (App.ReplyJson false None) Demo.awaiting) as H.
  cbv zeta in H.
  destruct H as (_ & Hvalid & Hmsg & _ & Hpost);
    [reflexivity|reflexivity|vm_compute; reflexivity|reflexivity
    |vm_compute; reflexivity|vm_compute; reflexivity|].
  split; [exact Hvalid|]. split; [exact Hmsg|].
  exact (Hpost Hreach eq_refl).
Defined.
Lemma client_decodes_as_api (s : string) (b : list byte) :
  hexToBytes s = Ok b -> App.hexToBytes s = Ok b.
Proof.
  intros H. destruct (hexToBytes_Ok_inv _ _ H) as (Hs & He & -> & _).
  unfold App.hexToBytes. rewrite hex_loop_pairs, pairs_bytes_toLowerCase.
  unfold is_hex_string in Hs. rewrite Hs, even_mod2, He. reflexivity.
Qed.

(** X24. How a verification attempt on a connection fails. When the
    nonce request fails or is answered with an error status, the nonce
    slot keeps what it held and nothing is written to the beacon. When the
    nonce received is not hex, it is stored and shown all the same, but
    nothing is written. In each case the error is shown and the session is
    not verifying. *)
Theorem verify_failures (env : App.VerifyEnv) (s : App.State) (a : nat) :
  App.conn (App.refs s) = Some a ->
  let s' := snd (App.verifyPresence env s) in
  match App.nonce_reply env with
  | App.FetchFails message =>
      App.refs s' = App.refs s /\ App.heap s' = App.heap s /\
      App.calls s' = (App.calls s ++ [App.GET_api_nonce])%list /\
      App.err (App.view s') = App.message_of (Error message) /\
      App.verifying (App.view s') = false
  | App.HttpError st =>
      App.refs s' = App.refs s /\ App.heap s' = App.heap s /\
      App.calls s' = (App.calls s ++ [App.GET_api_nonce])%list /\
      App.err (App.view s') = "nonce failed: " ++ App.String_of_nat st /\
      App.verifying (App.view s') = false
  | App.NonceJson nonceHex =>
      App.nonceRef (App.refs s') = nonceHex /\
      App.nonceHex (App.view s') = nonceHex /\
      (is_hex_string nonceHex = false \/
       Nat.odd (String.length nonceHex) = true ->
       App.startNotifications_error env = None ->
       App.calls s'
       = (App.calls s ++
          App.GET_api_nonce ::
          if App.notifyAttached (App.refs s) then []
          else [App.startNotifications])%list /\
       App.err (App.view s') = "bad hex" /\
       App.verifying (App.view s') = false)
  end.
Proof.
  intros Hconn. cbv zeta. unfold App.verifyPresence.
  destruct s as [w [c att nonce] h cs].
  cbn [App.refs App.conn App.notifyAttached App.view App.heap App.calls] in *.
  subst c. step_action.
  destruct (App.nonce_reply env) as [message|st|nonceHex]; step_action.
  - repeat split.
  - cbn [App.message_of].
    replace (String.eqb ("nonce failed: " ++ App.String_of_nat st) "")
      with false by reflexivity.
    repeat split.
  - assert (Hbad : is_hex_string nonceHex = false \/
                   Nat.odd (String.length nonceHex) = true ->
                   App.hexToBytes nonceHex = Throw (Error "bad hex")).
    { intros Hb. unfold App.hexToBytes. rewrite even_mod2.
      unfold is_hex_string in Hb. destruct Hb as [->|Ho]; [reflexivity|].
      unfold Nat.odd in Ho. apply negb_true_iff in Ho. rewrite Ho.
      rewrite orb_true_r. reflexivity. }
    destruct att; step_action.
    + split; [|split].
      * destruct (App.hexToBytes nonceHex); step_action;
          [destruct (App.write_error env)|]; reflexivity.
      * destruct (App.hexToBytes nonceHex); step_action;
          [destruct (App.write_error env)|]; reflexivity.
      * intros Hb _. rewrite (Hbad Hb). step_action. repeat split.
    + destruct (App.startNotifications_error env) as [m|]; step_action.
      * split; [reflexivity|]. split; [reflexivity|]. discriminate.
      * split; [|split].
        -- destruct (App.hexToBytes nonceHex); step_action;
             [destruct (App.write_error env)|]; reflexivity.
        -- destruct (App.hexToBytes nonceHex); step_action;
             [destruct (App.write_error env)|]; reflexivity.
        -- intros Hb _. rewrite (Hbad Hb). step_action.
           split; [rewrite <- app_assoc; reflexivity|]. split; reflexivity.
Qed.

Lemma verify_failures_witness :
  let env := {| App.nonce_reply := App.HttpError 503;
                App.startNotifications_error := None;
                App.write_error := None |} in
  App.conn (App.refs Demo.awaiting) = Some 0%nat /\
  let s' := snd (App.verifyPresence env Demo.awaiting) in
  App.refs s' = App.refs Demo.awaiting /\
  App.heap s' = App.heap Demo.awaiting /\
  App.calls s' = (App.calls Demo.awaiting ++ [App.GET_api_nonce])%list /\
  App.err (App.view s') = "nonce failed: 503" /\
  App.verifying (App.view s') = false.
Proof.
  cbv zeta. split; [reflexivity|].
  exact (verify_failures
           {| App.nonce_reply := App.HttpError 503;
              App.startNotifications_error := None;
              App.write_error := None |} Demo.awaiting 0%nat eq_refl).
Defined.

(** X25. A verification attempt that goes through. On a connection, with
    a nonce the API decodes to bytes and no failure of the beacon calls,
    the session ends verifying with the error cleared, the nonce shown
    and stored, the subscription flag set, and the last thing it sent is
    the write to the beacon of exactly the bytes the API decodes from
    that nonce. *)
Theorem verify_goes_through (env : App.VerifyEnv) (s : App.State) (a : nat)
    (nonceHex : string) (nonce : list byte) :
  App.conn (App.refs s) = Some a ->
  App.nonce_reply env = App.NonceJson nonceHex ->
  hexToBytes nonceHex = Ok nonce ->
  App.startNotifications_error env = None -> App.write_error env = None ->
  let r := App.verifyPresence env s in
  fst r = Ok tt /\
  App.verifying (App.view (snd r)) = true /\
  App.err (App.view (snd r)) = "" /\
  App.verified (App.view (snd r)) = None /\
  App.nonceHex (App.view (snd r)) = nonceHex /\
  App.nonceRef (App.refs (snd r)) = nonceHex /\
  App.notifyAttached (App.refs (snd r)) = true /\
  exists sent,
    App.calls (snd r)
    = (App.calls s ++ sent ++ [App.writeValueWithoutResponse nonce])%list /\
    sent = (App.GET_api_nonce ::
            if App.notifyAttached (App.refs s) then []
            else [App.startNotifications])%list.
Proof.
  intros Hconn Hreply Hhex Hstart Hwrite. cbv zeta.
  unfold App.verifyPresence.
  destruct s as [w [c att old] h cs].
  cbn [App.refs App.conn App.notifyAttached App.view App.heap App.calls] in *.
  subst c. step_action. rewrite Hreply. step_action.
  destruct att; step_action.
  - rewrite (client_decodes_as_api _ _ Hhex). step_action.
    rewrite Hwrite. step_action.
    repeat (split; [reflexivity|]). eexists. split; [|reflexivity].
    rewrite <- !app_assoc. reflexivity.
  - rewrite Hstart. step_action.
    rewrite (client_decodes_as_api _ _ Hhex). step_action.
    rewrite Hwrite. step_action.
    repeat (split; [reflexivity|]). eexists. split; [|reflexivity].
    rewrite <- !app_assoc. reflexivity.
Qed.

Lemma verify_goes_through_witness :
  let env := {| App.nonce_reply := App.NonceJson Demo.nonce;
                App.startNotifications_error := None;
                App.write_error := None |} in
  App.conn (App.refs Demo.connected) = Some 0%nat /\
  hexToBytes Demo.nonce = Ok Demo.nonce_bytes /\
  let r := App.verifyPresence env Demo.connected in
  fst r = Ok tt /\
  App.verifying (App.view (snd r)) = true /\
  App.nonceRef (App.refs (snd r)) = Demo.nonce.
Proof.
  cbv zeta. split; [reflexivity|]. split; [reflexivity|].
  pose proof (verify_goes_through
                {| App.nonce_reply := App.NonceJson Demo.nonce;
                   App.startNotifications_error := None;
                   App.write_error := None |}
                Demo.connected 0%nat Demo.nonce Demo.nonce_bytes
                eq_refl eq_refl eq_refl eq_refl eq_refl) as H.
  cbv zeta in H. destruct H as (H1 & H2 & _ & _ & _ & H3 & _).
  split; [exact H1|]. split; [exact H2|exact H3].
Defined.
(** ** Sessions *)

Lemma connectBeacon_effect (env : App.ConnectEnv) (s : App.State) :
  let s' := snd (App.connectBeacon env s) in
  App.notifyAttached (App.refs s') = App.notifyAttached (App.refs s) /\
  ((App.refs s' = App.refs s /\ App.heap s' = App.heap s /\
    App.beaconIdHex (App.view s') = App.beaconIdHex (App.view s)) \/
   (App.conn (App.refs s') = Some (length (App.heap s)) /\
    App.heap s'
    = (App.heap s ++ [{| App.connected := true; App.notifying := false;
                         App.listeners := [] |}])%list)).
Proof.
  cbv zeta. unfold App.connectBeacon.
  destruct s as [w [c att nonce] h cs].
  destruct env as [|message|name message|name idVal]; step_action.
  - split; [reflexivity|]. left. repeat split.
  - split; [reflexivity|]. left. repeat split.
  - split; [reflexivity|]. right. split; reflexivity.
  - split; [reflexivity|]. right. split; reflexivity.
Qed.

Lemma verifyPresence_effect (env : App.VerifyEnv) (s : App.State) :
  let s' := snd (App.verifyPresence env s) in
  App.beaconIdHex (App.view s') = App.beaconIdHex (App.view s) /\
  App.conn (App.refs s') = App.conn (App.refs s) /\
  ((App.heap s' = App.heap s /\
    App.notifyAttached (App.refs s') = App.notifyAttached (App.refs s)) \/
   (exists a,
      App.conn (App.refs s) = Some a /\
      App.notifyAttached (App.refs s) = false /\
      App.notifyAttached (App.refs s') = true /\
      App.heap s'
      = alter (App.add_listener (App.beaconIdHex (App.view s))) a
          (alter (App.with_notifying true) a (App.heap s)))).
Proof.
  cbv zeta. unfold App.verifyPresence.
  destruct s as [w [[a|] att nonce] h cs]; step_action;
    [|split; [reflexivity|]; split; [reflexivity|]; left; split; reflexivity].
  destruct (App.nonce_reply env) as [message|st|n]; step_action;
    [split; [reflexivity|]; split; [reflexivity|]; left; split; reflexivity..|].
  destruct att; step_action.
  - destruct (App.hexToBytes n); step_action;
      [destruct (App.write_error env); step_action|];
      (split; [reflexivity|]; split; [reflexivity|]; left; split; reflexivity).
  - destruct (App.startNotifications_error env); step_action;
      [split; [reflexivity|]; split; [reflexivity|]; left; split; reflexivity|].
    destruct (App.hexToBytes n); step_action;
      [destruct (App.write_error env); step_action|];
      (split; [reflexivity|]; split; [reflexivity|]; right; exists a;
       repeat split).
Qed.

Lemma lookup_subscribed (h : list App.Gatt) (closure : string) (a i : nat) :
  alter (App.add_listener closure) a (alter (App.with_notifying true) a h)
    !! i
  = if decide (a = i)
    then (fun g => App.add_listener closure (App.with_notifying true g))
           <$> h !! i
    else h !! i.
Proof.
  rewrite list_lookup_alter. case_decide as Hai.
  - subst i. rewrite list_lookup_alter. case_decide; [|congruence].
    destruct (h !! a); reflexivity.
  - rewrite list_lookup_alter_ne by exact Hai. reflexivity.
Qed.

Section SessionInvariant.

Variable String_of_Number : Z -> string.

Lemma onNotify_keeps (closure : string) (raw : list byte)
    (reply : App.VerifyReply) (s : App.State) :
  let s' := snd (App.onNotify String_of_Number closure raw reply s) in
  App.refs s' = App.refs s /\ App.heap s' = App.heap s /\
  App.beaconIdHex (App.view s') = App.beaconIdHex (App.view s) /\
  (App.calls s' = App.calls s \/
   exists payload,
     App.calls s' = (App.calls s ++ [App.POST_api_verify payload])%list).
Proof.
  cbv zeta.
  destruct (Nat.eq_dec (length raw) 72%nat) as [Hlen|Hlen].
  - destruct (Nat.eq_dec (String.length (App.nonceRef (App.refs s))) 32%nat)
      as [Hnonce|Hnonce].
    + destruct (onNotify_submits String_of_Number closure raw reply s Hlen
                  Hnonce) as (_ & Hcalls & Hrefs & Hheap & Hview).
      cbv zeta in *. rewrite Hview.
      split; [exact Hrefs|]. split; [exact Hheap|].
      split; [|right; eexists; exact Hcalls].
      destruct reply as [m|json_ok json_error]; [reflexivity|].
      destruct (negb json_ok && negb (falsy json_error)); reflexivity.
    + rewrite (onNotify_guard String_of_Number closure raw reply s Hlen
                 Hnonce).
      cbn [snd]. split; [reflexivity|]. split; [reflexivity|].
      split; [reflexivity|left; reflexivity].
  - rewrite (onNotify_wrong_length String_of_Number closure raw reply s Hlen).
    cbn [snd]. split; [reflexivity|]. split; [reflexivity|].
    split; [reflexivity|left; reflexivity].
Qed.

Lemma run_listeners_keeps (ls : list string) (raw : list byte)
    (reply : App.VerifyReply) (s : App.State) :
  let s' := snd (App.run_listeners String_of_Number ls raw reply s) in
  App.refs s' = App.refs s /\ App.heap s' = App.heap s /\
  App.beaconIdHex (App.view s') = App.beaconIdHex (App.view s).
Proof.
  revert s. induction ls as [|l rest IH]; intros s; [repeat split|].
  cbn [App.run_listeners]. cbv zeta in *.
  destruct (onNotify_keeps l raw reply s) as (Hr & Hh & Hb & _).
  destruct (IH (snd (App.onNotify String_of_Number l raw reply s)))
    as (Hr' & Hh' & Hb').
  rewrite Hr', Hh', Hb'. repeat split; assumption.
Qed.

Lemma event_keeps (a : nat) (raw : list byte) (reply : App.VerifyReply)
    (s : App.State) :
  let s' := snd (App.characteristicvaluechanged String_of_Number a raw reply
                   s) in
  App.refs s' = App.refs s /\ App.heap s' = App.heap s /\
  App.beaconIdHex (App.view s') = App.beaconIdHex (App.view s).
Proof.
  cbv zeta. unfold App.characteristicvaluechanged.
  destruct (App.heap s !! a) as [g|]; [|repeat split].
  apply run_listeners_keeps.
Qed.

Lemma consistent_initial : Sequential.consistent App.initial.
Proof.
  unfold Sequential.consistent. cbn. repeat split; discriminate.
Qed.

Lemma connected_view_eq (w w' : App.View) :
  App.beaconIdHex w' = App.beaconIdHex w ->
  Render.connected w' = Render.connected w.
Proof. unfold Render.connected. intros ->. reflexivity. Qed.

Lemma consistent_transport (s s' : App.State) :
  App.refs s' = App.refs s -> App.heap s' = App.heap s ->
  App.beaconIdHex (App.view s') = App.beaconIdHex (App.view s) ->
  Sequential.consistent s -> Sequential.consistent s'.
Proof.
  intros Hr Hh Hb. unfold Sequential.consistent.
  rewrite Hr, Hh, Hb, (connected_view_eq _ _ Hb). exact id.
Qed.

Lemma consistent_step (s s' : App.State) :
  Sequential.consistent s -> Sequential.step String_of_Number s s' ->
  Sequential.consistent s'.
Proof.
  intros (Hbound & Hone & Hon & Hoff) Hstep.
  destruct Hstep as [env s Hview _|env s Hview _|s Hview|a raw reply s].
  - (* Connect *)
    assert (Hatt : App.notifyAttached (App.refs s) = false).
    { destruct (App.notifyAttached (App.refs s)) eqn:E; [|reflexivity].
      destruct (Hon eq_refl) as [Hc _]. congruence. }
    destruct (connectBeacon_effect env s) as (Hflag & [(Hr & Hh & Hb)|(Hc & Hh)]).
    + apply (consistent_transport s); try assumption.
      exact (conj Hbound (conj Hone (conj Hon Hoff))).
    + cbv zeta in *. unfold Sequential.consistent. rewrite Hflag, Hatt, Hc, Hh.
      split; [|split; [|split]].
      * intros a [= <-]. rewrite length_app. cbn. lia.
      * intros i g Hi. apply lookup_app_Some in Hi as [Hi|[_ Hi]].
        -- exact (Hone i g Hi).
        -- apply list_lookup_singleton_Some in Hi as [_ <-]. cbn. lia.
      * discriminate.
      * intros _ a g [= <-] Hg.
        rewrite lookup_app_r in Hg by lia. rewrite Nat.sub_diag in Hg.
        injection Hg as <-. reflexivity.
  - (* Verify *)
    destruct (verifyPresence_effect env s) as (Hb & Hc & [(Hh & Hf)|Hsub]).
    + cbv zeta in *. unfold Sequential.consistent.
      rewrite Hc, Hh, Hf, Hb, (connected_view_eq _ _ Hb).
      exact (conj Hbound (conj Hone (conj Hon Hoff))).
    + cbv zeta in *. destruct Hsub as (a & Ha & Hfalse & Htrue & Hh).
      destruct (lookup_lt_is_Some_2 (App.heap s) a (Hbound a Ha)) as [g Hg].
      pose proof (Hoff Hfalse a g Ha Hg) as Hnil.
      unfold Sequential.consistent.
      rewrite Hc, Hh, Htrue, Hb, (connected_view_eq _ _ Hb).
      split; [|split; [|split]].
      * intros a' Ha'. rewrite !length_alter. exact (Hbound a' Ha').
      * intros i g' Hi. rewrite lookup_subscribed in Hi.
        case_decide as Hai.
        -- subst i. rewrite Hg in Hi. cbn in Hi. injection Hi as <-.
           cbn. rewrite Hnil. cbn. lia.
        -- exact (Hone i g' Hi).
      * intros _. split; [exact Hview|].
        exists a. eexists. split; [exact Ha|]. split.
        -- rewrite lookup_subscribed. case_decide; [|congruence].
           rewrite Hg. reflexivity.
        -- cbn. rewrite Hnil. reflexivity.
      * discriminate.
  - (* Disconnect *)
    rewrite disconnectBeacon_run. unfold Sequential.consistent.
    cbn [snd App.refs App.view App.heap App.conn App.notifyAttached].
    split; [discriminate|]. split; [|split; [discriminate|discriminate]].
    intros i g Hi.
    destruct (App.conn (App.refs s)) as [a|]; [|exact (Hone i g Hi)].
    destruct (App.gatt_is_connected s a); [|exact (Hone i g Hi)].
    rewrite list_lookup_alter in Hi. case_decide; [|exact (Hone i g Hi)].
    subst i. destruct (App.heap s !! a) as [g0|] eqn:Hg0; [|discriminate Hi].
    cbn in Hi. injection Hi as <-. cbn. exact (Hone a g0 Hg0).
  - (* Notification *)
    destruct (event_keeps a raw reply s) as (Hr & Hh & Hb).
    apply (consistent_transport s); try assumption.
    exact (conj Hbound (conj Hone (conj Hon Hoff))).
Qed.

Lemma session_consistent (s : App.State) :
  Sequential.session String_of_Number s -> Sequential.consistent s.
Proof.
  induction 1 as [|s s' _ IH Hstep]; [apply consistent_initial|].
  exact (consistent_step s s' IH Hstep).
Qed.

(** X26. In a session whose handlers do not overlap, each click or
    notification being handled to its end before the next one arrives,
    the subscription flag tells the truth in every state reached: when it
    is set, the view is connected and the response characteristic of the
    current connection has exactly one listener, whose beacon identifier
    is the one shown; when it is clear, the current connection has no
    listener yet, so the next attempt subscribes. Sessions in which an
    event is handled while a handler is suspended at an [await] are not
    covered. *)
Theorem subscription_flag_is_sound (s : App.State) :
  Sequential.session String_of_Number s ->
  (App.notifyAttached (App.refs s) = true ->
   Render.connected (App.view s) = true /\
   exists a g,
     App.conn (App.refs s) = Some a /\ App.heap s !! a = Some g /\
     App.listeners g = [App.beaconIdHex (App.view s)]) /\
  (App.notifyAttached (App.refs s) = false ->
   forall a, App.conn (App.refs s) = Some a ->
   exists g, App.heap s !! a = Some g /\ App.listeners g = []).
Proof.
  intros Hs. destruct (session_consistent s Hs) as (Hbound & _ & Hon & Hoff).
  split; [exact Hon|].
  intros Hfalse a Ha.
  destruct (lookup_lt_is_Some_2 (App.heap s) a (Hbound a Ha)) as [g Hg].
  exists g. split; [exact Hg|exact (Hoff Hfalse a g Ha Hg)].
Qed.

(** X27. In a session whose handlers do not overlap, each click or
    notification being handled to its end before the next one arrives, no
    response characteristic has more than one listener in any state
    reached, so a notification, on whichever link it arrives, sends at
    most one request to the verification endpoint, and never touches the
    connection, the nonce slot or the listeners. Sessions in which an
    event is handled while a handler is suspended at an [await] are not
    covered. *)
Theorem one_request_per_notification (s : App.State) (a : nat)
    (raw : list byte) (reply : App.VerifyReply) :
  Sequential.session String_of_Number s ->
  let s' := snd (App.characteristicvaluechanged String_of_Number a raw reply
                   s) in
  (forall i g, App.heap s !! i = Some g ->
               (length (App.listeners g) <= 1)%nat) /\
  App.refs s' = App.refs s /\ App.heap s' = App.heap s /\
  (App.calls s' = App.calls s \/
   exists payload,
     App.calls s' = (App.calls s ++ [App.POST_api_verify payload])%list).
Proof.
  intros Hs. cbv zeta.
  destruct (session_consistent s Hs) as (_ & Hone & _ & _).
  split; [exact Hone|].
  destruct (event_keeps a raw reply s) as (Hr & Hh & _).
  split; [exact Hr|]. split; [exact Hh|].
  unfold App.characteristicvaluechanged.
  destruct (App.heap s !! a) as [g|] eqn:Hg; [|left; reflexivity].
  pose proof (Hone a g Hg) as Hlen.
  destruct (App.listeners g) as [|l [|l2 rest]]; [left; reflexivity| |].
  - cbn [App.run_listeners]. unfold App.ret. cbn [snd].
    apply (onNotify_keeps l raw reply s).
  - cbn in Hlen. lia.
Qed.

End SessionInvariant.

Lemma demo_awaiting_session :
  Sequential.session Demo.String_of_Number Demo.awaiting.
Proof.
  unfold Demo.awaiting.
  apply (Sequential.session_step _ Demo.connected).
  - unfold Demo.connected.
    apply (Sequential.session_step _ App.initial);
      [apply Sequential.session_initial|].
    apply Sequential.click_connect; reflexivity.
  - apply Sequential.click_verify; reflexivity.
Qed.

Lemma subscription_flag_is_sound_witness :
  Sequential.session Demo.String_of_Number Demo.awaiting /\
  App.notifyAttached (App.refs Demo.awaiting) = true /\
  Render.connected (App.view Demo.awaiting) = true /\
  exists a g,
    App.conn (App.refs Demo.awaiting) = Some a /\
    App.heap Demo.awaiting !! a = Some g /\
    App.listeners g = [App.beaconIdHex (App.view Demo.awaiting)].
Proof.
  split; [exact demo_awaiting_session|]. split; [reflexivity|].
  apply (subscription_flag_is_sound Demo.String_of_Number Demo.awaiting
           demo_awaiting_session).
  reflexivity.
Defined.

Lemma one_request_per_notification_witness :
  Sequential.session Demo.String_of_Number Demo.awaiting /\
  let s' := snd (App.characteristicvaluechanged Demo.String_of_Number 0
                   Demo.notification (App.ReplyJson true None)
                   Demo.awaiting) in
  App.refs s' = App.refs Demo.awaiting /\
  App.heap s' = App.heap Demo.awaiting /\
  (App.calls s' = App.calls Demo.awaiting \/
   exists payload,
     App.calls s'
     = (App.calls Demo.awaiting ++ [App.POST_api_verify payload])%list).
Proof.
  split; [exact demo_awaiting_session|].
  apply (one_request_per_notification Demo.String_of_Number Demo.awaiting
           0%nat Demo.notification (App.ReplyJson true None)
           demo_awaiting_session).
Defined.
